(** * Paul Chek blog scraper: the crawl engine of [src/scrapePaulChekBlog.ts]

    A shallow embedding of the URL validators, the date normaliser, the
    record normaliser and the section crawler, with the properties the
    specification states about them.

    Conventions of the embedding.
    - A JavaScript string is a [string]: a sequence of code units below 256
      (the Latin-1 range of UTF-16).  White space, digits and letter case are
      those of ECMAScript restricted to that range.
    - [undefined] and [null] arguments are [None].
    - Console output ([console.log], [logExtractMetric]) is not modelled. *)

From Stdlib Require Import ZArith NArith Ascii String List Bool Lia.
From stdpp Require Import base option list gmap strings fin_maps sets.

Set Warnings "-register-all".

(* stdpp freezes [String.append] under [simpl]; the proofs below unfold it. *)
#[local] Arguments String.append !_ _ / : simpl nomatch.
#[local] Arguments Ascii.eqb : simpl never.

Local Open Scope string_scope.
Local Open Scope bool_scope.
Local Open Scope nat_scope.

(* ===================================================================== *)
(** * Strings as the host language sees them                             *)
(* ===================================================================== *)

Module JsString.

Definition code (c : ascii) : nat := nat_of_ascii c.

(** [\s] and the set removed by [String.prototype.trim]: TAB, LF, VT, FF,
    CR, SPACE and NBSP. *)
Definition isWhiteSpace (c : ascii) : bool :=
  let n := code c in
  ((9 <=? n) && (n <=? 13)) || (n =? 32) || (n =? 160).

(** [\d] *)
Definition isDigit (c : ascii) : bool :=
  let n := code c in (48 <=? n) && (n <=? 57).

Definition isEmpty (s : string) : bool :=
  match s with EmptyString => true | String _ _ => false end.

(** Truthiness of a string value: every string but the empty one. *)
Definition truthy (s : string) : bool := negb (isEmpty s).

Fixpoint startsWith (p s : string) : bool :=
  match p with
  | EmptyString => true
  | String a p' =>
      match s with
      | EmptyString => false
      | String b s' => Ascii.eqb a b && startsWith p' s'
      end
  end.

Fixpoint trimStart (s : string) : string :=
  match s with
  | EmptyString => EmptyString
  | String c r => if isWhiteSpace c then trimStart r else s
  end.

Fixpoint trimEnd (s : string) : string :=
  match s with
  | EmptyString => EmptyString
  | String c r =>
      let r' := trimEnd r in
      if isWhiteSpace c && isEmpty r' then EmptyString else String c r'
  end.

Definition trim (s : string) : string := trimEnd (trimStart s).

(** Longest run of digits at the head of [s], and what follows it. *)
Fixpoint spanDigits (s : string) : string * string :=
  match s with
  | EmptyString => (EmptyString, EmptyString)
  | String c r =>
      if isDigit c
      then let '(d, rest) := spanDigits r in (String c d, rest)
      else (EmptyString, s)
  end.

Fixpoint allDigits (s : string) : bool :=
  match s with
  | EmptyString => true
  | String c r => isDigit c && allDigits r
  end.

(** Every code unit of [s] passes the test [ok]. *)
Fixpoint allChars (ok : ascii -> bool) (s : string) : bool :=
  match s with
  | EmptyString => true
  | String c r => ok c && allChars ok r
  end.

(** No code unit of [s] is white space. *)
Fixpoint noSpace (s : string) : bool :=
  match s with
  | EmptyString => true
  | String c r => negb (isWhiteSpace c) && noSpace r
  end.

(** ASCII lower-casing of one code unit, extended to the Latin-1 capitals
    (U+00C0..U+00DE except the multiplication sign U+00D7). *)
Definition lowerChar (c : ascii) : ascii :=
  let n := code c in
  if ((65 <=? n) && (n <=? 90))
     || ((192 <=? n) && (n <=? 222) && negb (n =? 215))
  then ascii_of_nat (n + 32) else c.

Fixpoint toLowerCase (s : string) : string :=
  match s with
  | EmptyString => EmptyString
  | String c r => String (lowerChar c) (toLowerCase r)
  end.

(** Case-insensitive comparison of code units as a regular expression with
    the [i] flag (and no [u] flag) does it: only ASCII letters fold. *)
Definition asciiLower (c : ascii) : ascii :=
  let n := code c in
  if (65 <=? n) && (n <=? 90) then ascii_of_nat (n + 32) else c.

Definition eqbCI (a b : ascii) : bool :=
  Ascii.eqb (asciiLower a) (asciiLower b).

(** [p] matched case-insensitively at the head of [s]; the rest of [s]. *)
Fixpoint stripPrefixCI (p s : string) : option string :=
  match p with
  | EmptyString => Some s
  | String a p' =>
      match s with
      | EmptyString => None
      | String b s' => if eqbCI a b then stripPrefixCI p' s' else None
      end
  end.

(** [/p/i.test(s)] for a literal pattern [p]: a case-insensitive search. *)
Fixpoint includesCI (p s : string) : bool :=
  match stripPrefixCI p s with
  | Some _ => true
  | None =>
      match s with
      | EmptyString => false
      | String _ s' => includesCI p s'
      end
  end.

(** Decimal rendering of a natural number, [String(n)]. *)
Definition digitChar (n : nat) : ascii := ascii_of_nat (48 + n).

Fixpoint natToStringAux (fuel n : nat) (acc : string) : string :=
  match fuel with
  | O => acc
  | S fuel' =>
      let acc' := String (digitChar (n mod 10)) acc in
      if n <? 10 then acc' else natToStringAux fuel' (n / 10) acc'
  end.

Definition natToString (n : nat) : string := natToStringAux (S n) n "".

Definition digitValue (c : ascii) : nat := code c - 48.

(** [Number.parseInt(s, 10)] on a string of digits. *)
Definition parseDigits (s : string) : nat :=
  fold_left (fun acc c => 10 * acc + digitValue c) (list_ascii_of_string s) 0.

(** [s.padStart(2, "0")] *)
Definition padStart2 (s : string) : string :=
  match String.length s with
  | 0 => "00"
  | 1 => "0" ++ s
  | _ => s
  end.

End JsString.

Import JsString.

(* ===================================================================== *)
(** * Identifier validators                                              *)
(* ===================================================================== *)

(** [isValidPostUrl]: an absolute http(s) URL or a path starting with [/]. *)
Definition isValidPostUrl (url : option string) : bool :=
  match url with
  | None => false
  | Some u =>
      if isEmpty u then false else
      let trimmed := trim u in
      if isEmpty trimmed then false
      else if startsWith "http://" trimmed || startsWith "https://" trimmed then true
      else if startsWith "/" trimmed then true
      else false
  end.

(** The test [/^\d+(-\d+)?$/]: digits, then optionally a hyphen and digits. *)
Definition isElementId (s : string) : bool :=
  match spanDigits s with
  | (EmptyString, _) => false
  | (String _ _, EmptyString) => true
  | (String _ _, String c rest) =>
      Ascii.eqb c "-" && negb (isEmpty rest) && allDigits rest
  end.

(** [isValidPaginationUrl]: as above, after rejecting element identifiers. *)
Definition isValidPaginationUrl (url : option string) : bool :=
  match url with
  | None => false
  | Some u =>
      if isEmpty u then false else
      let trimmed := trim u in
      if isEmpty trimmed then false
      else if isElementId trimmed then false
      else if startsWith "http://" trimmed
              || startsWith "https://" trimmed
              || startsWith "/" trimmed then true
      else false
  end.

(** The language of [^\d+(-\d+)?$], stated on its own. *)
Inductive ElementIdPattern : string -> Prop :=
| eid_digits d :
    d <> "" -> allDigits d = true -> ElementIdPattern d
| eid_pair d1 d2 :
    d1 <> "" -> allDigits d1 = true ->
    d2 <> "" -> allDigits d2 = true ->
    ElementIdPattern (d1 ++ "-" ++ d2).

(* ===================================================================== *)
(** * Date normaliser                                                    *)
(* ===================================================================== *)

Definition isLineTerminator (c : ascii) : bool :=
  (code c =? 10) || (code c =? 13).

Fixpoint noLineTerminator (s : string) : bool :=
  match s with
  | EmptyString => true
  | String c r => negb (isLineTerminator c) && noLineTerminator r
  end.

(** The test for an ISO-like date: four digits, a hyphen, two digits, a
    hyphen, two digits, then either the end of the input or a [T] followed by
    any code units up to the end; the regular expression's dot stops at a
    line terminator. *)
Definition isIsoLike (raw : string) : bool :=
  match raw with
  | String y1 (String y2 (String y3 (String y4 (String h1
      (String m1 (String m2 (String h2 (String d1 (String d2 rest))))))))) =>
      isDigit y1 && isDigit y2 && isDigit y3 && isDigit y4
      && Ascii.eqb h1 "-" && isDigit m1 && isDigit m2
      && Ascii.eqb h2 "-" && isDigit d1 && isDigit d2
      && match rest with
         | EmptyString => true
         | String t r => Ascii.eqb t "T" && noLineTerminator r
         end
  | _ => false
  end.

(** One of [st], [nd], [rd], [th] (any case) at the head of [s]. *)
Definition ordinalSuffixAt (s : string) : bool :=
  match s with
  | String a (String b _) =>
      let a' := asciiLower a in
      let b' := asciiLower b in
      (Ascii.eqb a' "s" && Ascii.eqb b' "t")
      || (Ascii.eqb a' "n" && Ascii.eqb b' "d")
      || (Ascii.eqb a' "r" && Ascii.eqb b' "d")
      || (Ascii.eqb a' "t" && Ascii.eqb b' "h")
  | _ => false
  end.

(** [raw.replace(/(\d+)(st|nd|rd|th)/gi, "$1")].  [afterDigit] tells that the
    code unit just emitted was a digit of a run still open. *)
Fixpoint stripOrdinals (afterDigit : bool) (s : string) : string :=
  match s with
  | EmptyString => EmptyString
  | String c r =>
      if afterDigit && ordinalSuffixAt s
      then match r with
           | EmptyString => EmptyString
           | String _ r' => stripOrdinals false r'
           end
      else String c (stripOrdinals (isDigit c) r)
  end.

Definition monthNames : list string :=
  [ "january"; "february"; "march"; "april"; "may"; "june";
    "july"; "august"; "september"; "october"; "november"; "december" ].

(** The alternation [(January|...|December)] with the [i] flag at the head of
    [s]: the text matched and what follows it. *)
Fixpoint matchMonthName (names : list string) (s : string)
  : option (string * string) :=
  match names with
  | [] => None
  | m :: names' =>
      match stripPrefixCI m s with
      | Some rest =>
          Some (substring 0 (String.length m) s, rest)
      | None => matchMonthName names' s
      end
  end.

(** [\s+] at the head of [s]. *)
Definition skipSpaces1 (s : string) : option string :=
  match s with
  | String c r => if isWhiteSpace c then Some (trimStart r) else None
  | EmptyString => None
  end.

(** [(\d{1,2})] at the head of [s], greedy. *)
Definition takeDay (s : string) : option (string * string) :=
  match s with
  | String a r =>
      if isDigit a then
        match r with
        | String b r' =>
            if isDigit b then Some (String a (String b EmptyString), r')
            else Some (String a EmptyString, r)
        | EmptyString => Some (String a EmptyString, r)
        end
      else None
  | EmptyString => None
  end.

(** [(\d{4})] at the head of [s]. *)
Definition takeYear (s : string) : option string :=
  match s with
  | String a (String b (String c (String d _))) =>
      if isDigit a && isDigit b && isDigit c && isDigit d
      then Some (String a (String b (String c (String d EmptyString))))
      else None
  | _ => None
  end.

Definition skipComma (s : string) : string :=
  match s with
  | String c r => if Ascii.eqb c "," then r else s
  | EmptyString => s
  end.

(** The match of
    [/^(January|...|December)\s+(\d{1,2}),?\s+(\d{4})/i]:
    the groups 1, 2 and 3. *)
Definition matchMonthDayYear (s : string) : option (string * string * string) :=
  match matchMonthName monthNames s with
  | None => None
  | Some (monthTxt, r1) =>
      match skipSpaces1 r1 with
      | None => None
      | Some r2 =>
          match takeDay r2 with
          | None => None
          | Some (dayTxt, r3) =>
              match skipSpaces1 (skipComma r3) with
              | None => None
              | Some r4 =>
                  match takeYear r4 with
                  | None => None
                  | Some yearTxt => Some (monthTxt, dayTxt, yearTxt)
                  end
              end
          end
      end
  end.

(** [monthNames.indexOf(name)] *)
Fixpoint indexOf (name : string) (names : list string) (i : nat) : option nat :=
  match names with
  | [] => None
  | m :: names' => if String.eqb m name then Some i else indexOf name names' (S i)
  end.

(** [String(z)] for an integer. *)
Definition intToString (z : Z) : string :=
  match z with
  | Z0 => "0"
  | Zpos p => natToString (Pos.to_nat p)
  | Zneg p => "-" ++ natToString (Pos.to_nat p)
  end.

(** What the program asks of the host platform: the [Date] constructor and
    the WHATWG [URL] class.  [None] stands for an invalid date, or for a
    [TypeError] raised by the [URL] constructor. *)
Record Host := {
  (** [new Date(s)]: UTC full year, UTC month (0-11), UTC day of month *)
  dateUTC : string -> option (Z * nat * nat);
  (** [new URL(s).pathname] *)
  urlPathname : string -> option string;
  (** [new URL(s).origin] *)
  urlOrigin : string -> option string;
  (** [new URL(s, base).href] *)
  urlHref : string -> string -> option string
}.

Section DateNormalizer.
Variable host : Host.

(** [normalizeDate] *)
Definition normalizeDate (input : option string) : option string :=
  match input with
  | None => None
  | Some i =>
      if isEmpty i then None else
      let raw := trim i in
      if isEmpty raw then None
      else if isIsoLike raw then Some raw
      else
        let withoutOrdinals := stripOrdinals false raw in
        let viaMonth :=
          match matchMonthDayYear withoutOrdinals with
          | Some (monthTxt, dayTxt, yearTxt) =>
              let monthName := toLowerCase monthTxt in
              let day := parseDigits dayTxt in
              let year := parseDigits yearTxt in
              match indexOf monthName monthNames 0 with
              | Some monthIndex =>
                  if (1 <=? day) && (day <=? 31) then
                    Some (natToString year ++ "-"
                          ++ padStart2 (natToString (monthIndex + 1)) ++ "-"
                          ++ padStart2 (natToString day))
                  else None
              | None => None
              end
          | None => None
          end in
        match viaMonth with
        | Some r => Some r
        | None =>
            match dateUTC host withoutOrdinals with
            | Some (year, month, day) =>
                Some (intToString year ++ "-"
                      ++ padStart2 (natToString (month + 1)) ++ "-"
                      ++ padStart2 (natToString day))
            | None => None
            end
        end
  end.

End DateNormalizer.

(* ===================================================================== *)
(** * Extraction payloads                                                *)
(* ===================================================================== *)

(** What [stagehand.extract] may hand back: any JSON-like value.  Numbers
    are integers here; an object is its list of own properties, read by the
    first entry with the key. *)
Inductive JSValue :=
| JUndefined
| JNull
| JBool (b : bool)
| JNum (n : Z)
| JStr (s : string)
| JArr (items : list JSValue)
| JObj (fields : list (string * JSValue)).

Module Js.

Fixpoint assoc (k : string) (fields : list (string * JSValue)) : JSValue :=
  match fields with
  | [] => JUndefined
  | (k', v) :: rest => if String.eqb k' k then v else assoc k rest
  end.

(** [v.k] for the property names the program reads ([undefined] on
    anything that is not an object). *)
Definition prop (v : JSValue) (k : string) : JSValue :=
  match v with
  | JObj fields => assoc k fields
  | _ => JUndefined
  end.

(** [v ?? {}] *)
Definition orEmptyObject (v : JSValue) : JSValue :=
  match v with
  | JUndefined | JNull => JObj []
  | _ => v
  end.

(** Truthiness: [!v] is [negb (truthy v)]. *)
Definition truthy (v : JSValue) : bool :=
  match v with
  | JUndefined | JNull => false
  | JBool b => b
  | JNum n => negb (Z.eqb n 0)
  | JStr s => JsString.truthy s
  | JArr _ | JObj _ => true
  end.

Fixpoint joinComma (parts : list string) : string :=
  match parts with
  | [] => ""
  | [p] => p
  | p :: rest => p ++ "," ++ joinComma rest
  end.

(** [String(v)], as the [URL] constructor applies it to its argument. *)
Fixpoint toString (v : JSValue) : string :=
  match v with
  | JUndefined => "undefined"
  | JNull => "null"
  | JBool true => "true"
  | JBool false => "false"
  | JNum n => intToString n
  | JStr s => s
  | JArr items =>
      joinComma
        (map (fun x => match x with
                       | JUndefined | JNull => ""
                       | _ => toString x
                       end) items)
  | JObj _ => "[object Object]"
  end.

(** [typeof v === "string"] *)
Definition asString (v : JSValue) : option string :=
  match v with JStr s => Some s | _ => None end.

(** [items.filter(x => typeof x === "string")] *)
Fixpoint stringsOf (items : list JSValue) : list string :=
  match items with
  | [] => []
  | JStr s :: rest => s :: stringsOf rest
  | _ :: rest => stringsOf rest
  end.

(** Schema [z.string()] *)
Definition zString (v : JSValue) : option string := asString v.

(** Schema [z.string().optional()] *)
Definition zStringOptional (v : JSValue) : option (option string) :=
  match v with
  | JUndefined => Some None
  | JStr s => Some (Some s)
  | _ => None
  end.

(** Schema [z.string().nullable().optional()] *)
Definition zStringNullableOptional (v : JSValue) : option (option string) :=
  match v with
  | JUndefined | JNull => Some None
  | JStr s => Some (Some s)
  | _ => None
  end.

Fixpoint allStrings (items : list JSValue) : option (list string) :=
  match items with
  | [] => Some []
  | JStr s :: rest =>
      match allStrings rest with
      | Some l => Some (s :: l)
      | None => None
      end
  | _ :: _ => None
  end.

(** Schema [z.array(z.string()).optional()] *)
Definition zStringArrayOptional (v : JSValue) : option (option (list string)) :=
  match v with
  | JUndefined => Some None
  | JArr items =>
      match allStrings items with
      | Some l => Some (Some l)
      | None => None
      end
  | _ => None
  end.

End Js.

(** [Section] *)
Record Section := {
  name : string;
  slug : string;
  baseUrl : string
}.

(** [z.infer<typeof CategoryPostSummarySchema>] *)
Record PostSummary := {
  sm_url : string;
  sm_title : string;
  sm_date : option string;
  sm_categories : option (list string);
  sm_tags : option (list string)
}.

(** [CategoryPageResult] *)
Record CategoryPageResult := {
  posts : list PostSummary;
  nextPageUrl : option string
}.

(** [PostDetail] *)
Record PostDetail := {
  pd_slug : string;
  pd_title : string;
  pd_url : string;
  pd_date : option string;
  pd_doctorSection : string;
  pd_categories : option (list string);
  pd_tags : option (list string);
  pd_markdown : string
}.

(** [PostRecord] of the store *)
Record PostRecord := {
  pr_url : string;
  pr_slug : string;
  pr_title : string;
  pr_datePublished : option string;
  pr_doctorSection : string;
  pr_categories : list string;
  pr_tags : list string;
  pr_markdown : string
}.

(** [CategoryPostSummarySchema.safeParse] *)
Definition parsePostSummary (v : JSValue) : option PostSummary :=
  match v with
  | JObj _ =>
      match Js.zString (Js.prop v "url"), Js.zString (Js.prop v "title"),
            Js.zStringOptional (Js.prop v "date"),
            Js.zStringArrayOptional (Js.prop v "categories"),
            Js.zStringArrayOptional (Js.prop v "tags") with
      | Some u, Some t, Some d, Some c, Some g =>
          Some {| sm_url := u; sm_title := t; sm_date := d;
                  sm_categories := c; sm_tags := g |}
      | _, _, _, _, _ => None
      end
  | _ => None
  end.

Fixpoint parsePostSummaries (items : list JSValue) : option (list PostSummary) :=
  match items with
  | [] => Some []
  | v :: rest =>
      match parsePostSummary v, parsePostSummaries rest with
      | Some p, Some ps => Some (p :: ps)
      | _, _ => None
      end
  end.

(** [CategoryPageSchema.safeParse]: [Some] is [parsed.success]. *)
Definition parseCategoryPage (v : JSValue) : option CategoryPageResult :=
  match v with
  | JObj _ =>
      match Js.prop v "posts" with
      | JArr items =>
          match parsePostSummaries items,
                Js.zStringNullableOptional (Js.prop v "nextPageUrl") with
          | Some ps, Some n => Some {| posts := ps; nextPageUrl := n |}
          | _, _ => None
          end
      | _ => None
      end
  | _ => None
  end.

(** The fallback's map over [obj.posts] in [extractCategoryPage], [null]
    results already filtered out. *)
Fixpoint fallbackSummaries (items : list JSValue) : list PostSummary :=
  match items with
  | [] => []
  | p :: rest =>
      match p with
      | JObj _ | JArr _ =>
          match Js.asString (Js.prop p "url"), Js.asString (Js.prop p "title") with
          | Some u, Some t =>
              {| sm_url := u; sm_title := t;
                 sm_date := Js.asString (Js.prop p "date");
                 sm_categories :=
                   match Js.prop p "categories" with
                   | JArr cs => Some (Js.stringsOf cs)
                   | _ => None
                   end;
                 sm_tags :=
                   match Js.prop p "tags" with
                   | JArr ts => Some (Js.stringsOf ts)
                   | _ => None
                   end |} :: fallbackSummaries rest
          | _, _ => fallbackSummaries rest
          end
      | _ => fallbackSummaries rest
      end
  end.

(** The part of [extractCategoryPage] after the backend answered. *)
Definition normalizeCategoryPage (extraction : JSValue) : CategoryPageResult :=
  match parseCategoryPage extraction with
  | Some data => data
  | None =>
      let obj := Js.orEmptyObject extraction in
      let postsRaw := match Js.prop obj "posts" with
                      | JArr items => items
                      | _ => []
                      end in
      {| posts := fallbackSummaries postsRaw;
         nextPageUrl :=
           match Js.prop obj "nextPageUrl" with
           | JStr s => Some s
           | _ => match Js.prop obj "next" with
                  | JStr s => Some s
                  | _ => None
                  end
           end |}
  end.

(** [PostDetailSchema.safeParse]: [Some] is [parsed.success]. *)
Definition parsePostDetail (v : JSValue) : option PostDetail :=
  match v with
  | JObj _ =>
      match Js.zString (Js.prop v "slug"), Js.zString (Js.prop v "title"),
            Js.zString (Js.prop v "url"),
            Js.zStringOptional (Js.prop v "date"),
            Js.zString (Js.prop v "doctorSection"),
            Js.zStringArrayOptional (Js.prop v "categories"),
            Js.zStringArrayOptional (Js.prop v "tags"),
            Js.zString (Js.prop v "markdown") with
      | Some s, Some t, Some u, Some d, Some ds, Some c, Some g, Some m =>
          Some {| pd_slug := s; pd_title := t; pd_url := u; pd_date := d;
                  pd_doctorSection := ds; pd_categories := c; pd_tags := g;
                  pd_markdown := m |}
      | _, _, _, _, _, _, _, _ => None
      end
  | _ => None
  end.

(** The class [[a-z0-9-_]] of the slug pattern. *)
Definition isSlugChar (c : ascii) : bool :=
  let n := code c in
  ((97 <=? n) && (n <=? 122)) || ((48 <=? n) && (n <=? 57))
  || (n =? 45) || (n =? 95).

(** [s.replace(/[^a-z0-9-_]+/g, "-")]: every maximal run of code units outside
    the class becomes one hyphen.  [inRun] tells that the hyphen of the
    current run is already out. *)
Fixpoint replaceNonSlug (inRun : bool) (s : string) : string :=
  match s with
  | EmptyString => EmptyString
  | String c r =>
      if isSlugChar c then String c (replaceNonSlug false r)
      else if inRun then replaceNonSlug true r
      else String "-" (replaceNonSlug true r)
  end.

(** [path.split("/").filter(Boolean)]: the non-empty segments.  [cur] is the
    segment being read, reversed. *)
Fixpoint segmentsAux (cur : list ascii) (s : string) : list string :=
  let close (k : list string) :=
    match cur with
    | [] => k
    | _ => string_of_list_ascii (rev cur) :: k
    end in
  match s with
  | EmptyString => close []
  | String c r =>
      if Ascii.eqb c "/" then close (segmentsAux [] r)
      else segmentsAux (c :: cur) r
  end.

Definition pathSegments (path : string) : list string := segmentsAux [] path.

Section RecordNormalizer.
Variable host : Host.

(** [slugFromUrl]; the argument is whatever the caller passes. *)
Definition slugFromUrl (url : JSValue) : option string :=
  if negb (Js.truthy url) then None else
  match urlPathname host (Js.toString url) with
  | None => None
  | Some pathname =>
      match last (pathSegments pathname) with
      | None => None
      | Some lastSegment => Some (replaceNonSlug false (toLowerCase lastSegment))
      end
  end.

(** [a ?? b] on values *)
Definition nullish (a b : JSValue) : JSValue :=
  match a with
  | JUndefined | JNull => b
  | _ => a
  end.

(** The fallback record of [extractPostDetail]. *)
Definition fallbackPostDetail (raw : JSValue) (postUrl : string)
           (section : Section) : PostDetail :=
  let obj := Js.orEmptyObject raw in
  {| pd_slug :=
       match Js.prop obj "slug" with
       | JStr s => s
       | _ =>
           match slugFromUrl (nullish (Js.prop obj "url") (JStr postUrl)) with
           | Some s => s
           | None =>
               match slugFromUrl (JStr postUrl) with
               | Some s => s
               | None => "untitled"
               end
           end
       end;
     pd_title :=
       match Js.prop obj "title" with
       | JStr s => s
       | _ => match slugFromUrl (JStr postUrl) with
              | Some s => s
              | None => postUrl
              end
       end;
     pd_url := match Js.prop obj "url" with JStr s => s | _ => postUrl end;
     pd_date := Js.asString (Js.prop obj "date");
     pd_doctorSection :=
       match Js.prop obj "doctorSection" with
       | JStr s => s
       | _ => slug section
       end;
     pd_categories :=
       match Js.prop obj "categories" with
       | JArr cs => Some (Js.stringsOf cs)
       | _ => Some []
       end;
     pd_tags :=
       match Js.prop obj "tags" with
       | JArr ts => Some (Js.stringsOf ts)
       | _ => Some []
       end;
     pd_markdown :=
       match Js.prop obj "markdown" with JStr s => s | _ => "" end |}.

(** The part of [extractPostDetail] after the backend answered. *)
Definition normalizePostDetail (raw : JSValue) (postUrl : string)
           (section : Section) : PostDetail :=
  match parsePostDetail raw with
  | Some data => data
  | None => fallbackPostDetail raw postUrl section
  end.

(** [normalizePostUrl] *)
Definition normalizePostUrl (url baseUrl : string) : string :=
  if startsWith "http://" url || startsWith "https://" url then url
  else
    match urlOrigin host baseUrl with
    | None => url
    | Some origin =>
        match urlHref host url origin with
        | None => url
        | Some href => href
        end
    end.

End RecordNormalizer.

(* ===================================================================== *)
(** * Run report, world and effects                                      *)
(* ===================================================================== *)

(** [RunReport.totals] *)
Record Totals := {
  sectionsVisited : nat;
  categoryPagesVisited : nat;
  t_postsDiscovered : nat;
  t_postsSaved : nat;
  t_postsFailed : nat
}.

(** [SectionRunStats] *)
Record SectionRunStats := {
  pagesVisited : nat;
  postsDiscovered : nat;
  postsSaved : nat;
  postsFailed : nat
}.

(** [SectionStatus] *)
Inductive SectionStatus := Pending | SectionComplete | SessionFailed.

(** A value of the histogram [runReport.errors]: a count, or the text that
    [+ 1] makes of a value that is no number. *)
Inductive ErrorTally :=
| Counted (n : nat)
| Garbled (text : string).

(** [RunReport]: the counters, the per-section statistics, the section
    statuses and the error histogram.  The histogram is a plain object; the
    map holds its own properties. *)
Record RunReport := {
  totals : Totals;
  sections : gmap string SectionRunStats;
  sectionStatus : gmap string SectionStatus;
  errors : gmap string ErrorTally
}.

(** A thrown value: whether it is an [Error] instance, its name, its message. *)
Record JsError := {
  isErrorObject : bool;
  errName : string;
  errMessage : string
}.

(** The answer of an awaited external call. *)
Inductive Response :=
| Resolves (v : JSValue)
| Rejects (e : JsError).

(** The external calls of the crawl, with the arguments that identify them. *)
Inductive Call :=
| CNewStagehand
| CStagehandInit
| CGetPage
| CNewPage (url : string)
| CGoto (url : string)
| CExtractCategory (sectionName pageUrl : string)
| CExtractDebug (pageUrl : string)
| CEnsureDir
| CWriteDebugFile (sectionSlug : string) (pageNum : nat)
| CExtractPost (postUrl sectionSlug : string)
| CUpsertPost (record : PostRecord)
| CWritePostMarkdown (sectionSlug : string) (post : PostDetail)
| CMetrics
| CHistory
| CClose
| CWriteProgressSnapshot (report : RunReport)
| CAppendRunLog (status : SectionStatus) (sectionSlug : string) (report : RunReport).

Inductive Action :=
| Called (c : Call)
| Slept (ms : nat).

(** The locals [sessionHealthy] and [consecutiveSessionErrors] of the running
    [scrapeSection] call. *)
Record Health := {
  sessionHealthy : bool;
  consecutiveSessionErrors : nat
}.

(** One entry of the trace: the action, and [sessionHealthy] when it was
    issued. *)
Record Event := {
  ev_healthy : bool;
  ev_action : Action
}.

(** Everything the crawl reads and writes: the shared set [seenUrls], the run
    report, the health locals, the number of external calls made so far and
    the trace of actions, oldest first. *)
Record World := {
  seenUrls : gset string;
  runReport : RunReport;
  health : Health;
  tick : nat;
  trace : list Event
}.

Definition freshHealth : Health :=
  {| sessionHealthy := true; consecutiveSessionErrors := 0 |}.

Definition SESSION_ERROR_POST_THRESHOLD : nat := 3.
Definition maxAttempts : nat := 3.

Definition setSeen (f : gset string -> gset string) (w : World) : World :=
  {| seenUrls := f (seenUrls w); runReport := runReport w; health := health w;
     tick := tick w; trace := trace w |}.

Definition setReport (f : RunReport -> RunReport) (w : World) : World :=
  {| seenUrls := seenUrls w; runReport := f (runReport w); health := health w;
     tick := tick w; trace := trace w |}.

Definition setHealthW (h : Health) (w : World) : World :=
  {| seenUrls := seenUrls w; runReport := runReport w; health := h;
     tick := tick w; trace := trace w |}.

Definition record (a : Action) (w : World) : World :=
  {| seenUrls := seenUrls w; runReport := runReport w; health := health w;
     tick := tick w;
     trace := trace w ++ [ {| ev_healthy := sessionHealthy (health w);
                              ev_action := a |} ] |}.

Definition advance (w : World) : World :=
  {| seenUrls := seenUrls w; runReport := runReport w; health := health w;
     tick := S (tick w); trace := trace w |}.

Definition setTotals (f : Totals -> Totals) (r : RunReport) : RunReport :=
  {| totals := f (totals r); sections := sections r;
     sectionStatus := sectionStatus r; errors := errors r |}.

Definition setSections
  (f : gmap string SectionRunStats -> gmap string SectionRunStats)
  (r : RunReport) : RunReport :=
  {| totals := totals r; sections := f (sections r);
     sectionStatus := sectionStatus r; errors := errors r |}.

Definition setStatus
  (f : gmap string SectionStatus -> gmap string SectionStatus)
  (r : RunReport) : RunReport :=
  {| totals := totals r; sections := sections r;
     sectionStatus := f (sectionStatus r); errors := errors r |}.

Definition setErrors
  (f : gmap string ErrorTally -> gmap string ErrorTally)
  (r : RunReport) : RunReport :=
  {| totals := totals r; sections := sections r;
     sectionStatus := sectionStatus r; errors := f (errors r) |}.

(** How a computation ends: with a value, or with a thrown value. *)
Inductive Outcome (A : Type) :=
| Returned (a : A)
| Thrown (e : JsError).
Arguments Returned {A} a.
Arguments Thrown {A} e.

(** A computation of the crawl: state passing with exceptions; the state
    changes made before a throw stay. *)
Definition M (A : Type) : Type := World -> Outcome A * World.

Definition ret {A} (a : A) : M A := fun w => (Returned a, w).

Definition bind {A B} (m : M A) (k : A -> M B) : M B :=
  fun w =>
    match m w with
    | (Returned a, w') => k a w'
    | (Thrown e, w') => (Thrown e, w')
    end.

Definition throw {A} (e : JsError) : M A := fun w => (Thrown e, w).

(** [try { m } catch (err) { handler err }] *)
Definition tryCatch {A} (m : M A) (handler : JsError -> M A) : M A :=
  fun w =>
    match m w with
    | (Returned a, w') => (Returned a, w')
    | (Thrown e, w') => handler e w'
    end.

Definition modify (f : World -> World) : M unit := fun w => (Returned tt, f w).
Definition gets {A} (f : World -> A) : M A := fun w => (Returned (f w), w).

Declare Scope crawl_scope.
Delimit Scope crawl_scope with crawl.
Notation "x <- m ;; k" := (bind m (fun x => k))
  (at level 100, m at next level, right associativity) : crawl_scope.
Notation "m ;; k" := (bind m (fun _ => k))
  (at level 100, right associativity) : crawl_scope.
Local Open Scope crawl_scope.

(** The [TypeError] of a property access on [undefined]. *)
Definition typeError : JsError :=
  {| isErrorObject := true; errName := "TypeError";
     errMessage := "Cannot read properties of undefined" |}.

(** [isStagehandSessionError] *)
Definition isStagehandSessionError (err : JsError) : bool :=
  if negb (isErrorObject err) then false
  else if String.eqb (errName err) "StagehandServerError" then
    if includesCI "session has completed or timed out" (errMessage err)
       || includesCI "Cannot connect to session" (errMessage err)
    then true else false
  else false.

(** [buildPageUrl] *)
Definition buildPageUrl (section : Section) (page : nat) : string :=
  if page <=? 1 then baseUrl section
  else baseUrl section ++ "page/" ++ natToString page ++ "/".

(** [sectionStats.field += n] through the alias taken at the head of
    [scrapeSection]: a [TypeError] when the report has no entry for the
    section. *)
Definition updateSectionStats (sectionSlug : string)
           (f : SectionRunStats -> SectionRunStats) : M unit :=
  fun w =>
    match sections (runReport w) !! sectionSlug with
    | None => (Thrown typeError, w)
    | Some st =>
        (Returned tt, setReport (setSections (insert sectionSlug (f st))) w)
    end.

Definition updateTotals (f : Totals -> Totals) : M unit :=
  modify (setReport (setTotals f)).

Definition setSectionStatus (sectionSlug : string) (s : SectionStatus) : M unit :=
  modify (setReport (setStatus (insert sectionSlug s))).

(** The names that a plain object inherits from [Object.prototype]. *)
Definition objectPrototypeKeys : list string :=
  [ "constructor"; "__defineGetter__"; "__defineSetter__"; "hasOwnProperty";
    "__lookupGetter__"; "__lookupSetter__"; "isPrototypeOf";
    "propertyIsEnumerable"; "toString"; "valueOf"; "__proto__";
    "toLocaleString" ].

Definition isObjectPrototypeKey (key : string) : bool :=
  existsb (String.eqb key) objectPrototypeKeys.

(** The text of the function that [Object.prototype] holds under [key], as
    Node renders it; under [constructor] it holds [Object]. *)
Definition nativeFunctionText (key : string) : string :=
  "function " ++ (if String.eqb key "constructor" then "Object" else key)
  ++ "() { [native code] }".

(** [errors[errorType] = (errors[errorType] ?? 0) + 1] on the plain object
    [errors].  An own property is read and written as it is: a count goes up
    by one, and a text gets [1] appended.  Where the object has no own
    property, the read goes to [Object.prototype]: under most names it finds
    nothing and the count starts at 1; under the name of a method it finds a
    function, and what is stored is the text of the function followed by
    [1]; under [__proto__] it finds the prototype itself, and the write of a
    text through the [__proto__] setter stores nothing. *)
Definition bumpError (errorType : string) (e : gmap string ErrorTally)
  : gmap string ErrorTally :=
  match e !! errorType with
  | Some (Counted n) => <[errorType := Counted (n + 1)]> e
  | Some (Garbled text) => <[errorType := Garbled (text ++ "1")]> e
  | None =>
      if String.eqb errorType "__proto__" then e
      else if isObjectPrototypeKey errorType
      then <[errorType := Garbled (nativeFunctionText errorType ++ "1")]> e
      else <[errorType := Counted 1]> e
  end.

(** [runReport.errors[errorType] = (runReport.errors[errorType] ?? 0) + 1] *)
Definition countError (errorType : string) : M unit :=
  modify (setReport (setErrors (bumpError errorType))).

Definition addPagesVisited (s : SectionRunStats) : SectionRunStats :=
  {| pagesVisited := pagesVisited s + 1; postsDiscovered := postsDiscovered s;
     postsSaved := postsSaved s; postsFailed := postsFailed s |}.
Definition addPostsDiscovered (n : nat) (s : SectionRunStats) : SectionRunStats :=
  {| pagesVisited := pagesVisited s; postsDiscovered := postsDiscovered s + n;
     postsSaved := postsSaved s; postsFailed := postsFailed s |}.
Definition addPostsSaved (s : SectionRunStats) : SectionRunStats :=
  {| pagesVisited := pagesVisited s; postsDiscovered := postsDiscovered s;
     postsSaved := postsSaved s + 1; postsFailed := postsFailed s |}.
Definition addPostsFailed (s : SectionRunStats) : SectionRunStats :=
  {| pagesVisited := pagesVisited s; postsDiscovered := postsDiscovered s;
     postsSaved := postsSaved s; postsFailed := postsFailed s + 1 |}.

Definition addSectionsVisitedT (t : Totals) : Totals :=
  {| sectionsVisited := sectionsVisited t + 1;
     categoryPagesVisited := categoryPagesVisited t;
     t_postsDiscovered := t_postsDiscovered t; t_postsSaved := t_postsSaved t;
     t_postsFailed := t_postsFailed t |}.
Definition addCategoryPagesVisitedT (t : Totals) : Totals :=
  {| sectionsVisited := sectionsVisited t;
     categoryPagesVisited := categoryPagesVisited t + 1;
     t_postsDiscovered := t_postsDiscovered t; t_postsSaved := t_postsSaved t;
     t_postsFailed := t_postsFailed t |}.
Definition addPostsDiscoveredT (n : nat) (t : Totals) : Totals :=
  {| sectionsVisited := sectionsVisited t;
     categoryPagesVisited := categoryPagesVisited t;
     t_postsDiscovered := t_postsDiscovered t + n; t_postsSaved := t_postsSaved t;
     t_postsFailed := t_postsFailed t |}.
Definition addPostsSavedT (t : Totals) : Totals :=
  {| sectionsVisited := sectionsVisited t;
     categoryPagesVisited := categoryPagesVisited t;
     t_postsDiscovered := t_postsDiscovered t; t_postsSaved := t_postsSaved t + 1;
     t_postsFailed := t_postsFailed t |}.
Definition addPostsFailedT (t : Totals) : Totals :=
  {| sectionsVisited := sectionsVisited t;
     categoryPagesVisited := categoryPagesVisited t;
     t_postsDiscovered := t_postsDiscovered t; t_postsSaved := t_postsSaved t;
     t_postsFailed := t_postsFailed t + 1 |}.

Definition setSessionHealthy (b : bool) : M unit :=
  modify (fun w => setHealthW
    {| sessionHealthy := b;
       consecutiveSessionErrors := consecutiveSessionErrors (health w) |} w).

Definition setConsecutiveSessionErrors (n : nat) : M unit :=
  modify (fun w => setHealthW
    {| sessionHealthy := sessionHealthy (health w);
       consecutiveSessionErrors := n |} w).

(** [await new Promise((resolve) => setTimeout(resolve, ms))] *)
Definition sleep (ms : nat) : M unit := modify (record (Slept ms)).

(** How one pass through the body of the retry loop ends. *)
Inductive AttemptResult :=
| AttemptBreak (detail : option PostDetail)
| AttemptRetry.

(** How one pass through the body of the page loop ends: the next values of
    [currentUrl] and [totalNew], or a [break]. *)
Inductive PageResult :=
| PageNext (currentUrl : option string) (totalNew : nat)
| PageBreak.

(* ===================================================================== *)
(** * The section crawler                                                *)
(* ===================================================================== *)

Section Crawler.
Variable host : Host.

(** The environment: the answer to the external call number [n] of the run. *)
Variable backend : nat -> Response.

(** An awaited external call: it is recorded, and it takes the next answer
    of the environment. *)
Definition external (c : Call) : M JSValue :=
  fun w =>
    let w' := advance (record (Called c) w) in
    match backend (tick w) with
    | Resolves v => (Returned v, w')
    | Rejects e => (Thrown e, w')
    end.

(** [try { m } catch { }] *)
Definition swallow (m : M unit) : M unit := tryCatch m (fun _ => ret tt).

(** [extractCategoryPage] *)
Definition extractCategoryPage (section : Section) (pageUrl : string)
  : M CategoryPageResult :=
  extraction <- external (CExtractCategory (name section) pageUrl) ;;
  ret (normalizeCategoryPage extraction).

(** [extractPostDetail] *)
Definition extractPostDetail (postUrl : string) (section : Section)
  : M PostDetail :=
  raw <- external (CExtractPost postUrl (slug section)) ;;
  ret (normalizePostDetail host raw postUrl section).

(** The schema-less diagnostic extraction of a page with no summaries; its
    failures are swallowed. *)
Definition debugExtract (section : Section) (currentUrl : string)
           (pageNum : nat) : M unit :=
  swallow (_ <- external (CExtractDebug currentUrl) ;;
           _ <- external CEnsureDir ;;
           _ <- external (CWriteDebugFile (slug section) pageNum) ;;
           ret tt).

(** [errorType] of the retry loop's [catch] *)
Definition errorTypeOf (err : JsError) (isSessionError : bool) : string :=
  if isErrorObject err then
    if JsString.truthy (errName err) then errName err
    else if isSessionError then "StagehandSessionError" else "Error"
  else "UnknownError".

(** The [catch] block of the retry loop. *)
Definition attemptCatch (attempt : nat) (section : Section) (err : JsError)
  : M AttemptResult :=
  let isSessionError := isStagehandSessionError err in
  countError (errorTypeOf err isSessionError) ;;
  bailedOut <-
    (if isSessionError && (attempt =? maxAttempts) then
       c <- gets (fun w => consecutiveSessionErrors (health w)) ;;
       setConsecutiveSessionErrors (c + 1) ;;
       if SESSION_ERROR_POST_THRESHOLD <=? c + 1 then
         setSectionStatus (slug section) SessionFailed ;;
         setSessionHealthy false ;;
         ret true
       else ret false
     else ret false) ;;
  if (bailedOut : bool) then ret (AttemptBreak None)
  else if negb isSessionError || (attempt =? maxAttempts)
  then ret (AttemptBreak None)
  else sleep (attempt * 1000) ;; ret AttemptRetry.

(** One pass through the body of [for (attempt = 1; attempt <= maxAttempts;
    attempt++)]. *)
Definition attemptBody (attempt : nat) (section : Section)
           (normalizedUrl : string) : M AttemptResult :=
  tryCatch
    (detail <- extractPostDetail normalizedUrl section ;;
     setConsecutiveSessionErrors 0 ;;
     ret (AttemptBreak (Some detail)))
    (attemptCatch attempt section).

(** The retry loop; [remaining] is [maxAttempts + 1 - attempt]. *)
Fixpoint attemptLoop (remaining attempt : nat) (section : Section)
         (normalizedUrl : string) : M (option PostDetail) :=
  match remaining with
  | O => ret None
  | S remaining' =>
      r <- attemptBody attempt section normalizedUrl ;;
      match r with
      | AttemptBreak detail => ret detail
      | AttemptRetry => attemptLoop remaining' (S attempt) section normalizedUrl
      end
  end.

Definition withDate (d : option string) (p : PostDetail) : PostDetail :=
  {| pd_slug := pd_slug p; pd_title := pd_title p; pd_url := pd_url p;
     pd_date := d; pd_doctorSection := pd_doctorSection p;
     pd_categories := pd_categories p; pd_tags := pd_tags p;
     pd_markdown := pd_markdown p |}.

(** What [scrapeSection] does with an extracted detail: normalise the date,
    hand the record to the store and to the Markdown writer, count it. *)
Definition savePost (section : Section) (detail : PostDetail) : M unit :=
  let normalizedDate := normalizeDate host (pd_date detail) in
  let effectiveDate :=
    match normalizedDate with
    | Some d => Some d
    | None => pd_date detail
    end in
  let postRecord :=
    {| pr_url := pd_url detail; pr_slug := pd_slug detail;
       pr_title := pd_title detail; pr_datePublished := effectiveDate;
       pr_doctorSection := pd_doctorSection detail;
       pr_categories := default [] (pd_categories detail);
       pr_tags := default [] (pd_tags detail);
       pr_markdown := pd_markdown detail |} in
  _ <- external (CUpsertPost postRecord) ;;
  _ <- external (CWritePostMarkdown (slug section) (withDate effectiveDate detail)) ;;
  updateSectionStats (slug section) addPostsSaved ;;
  updateTotals addPostsSavedT.

(** [for (const summary of result.posts)]; the result is [newThisPage]. *)
Fixpoint postsLoop (section : Section) (summaries : list PostSummary)
         (newThisPage : nat) : M nat :=
  match summaries with
  | [] => ret newThisPage
  | summary :: rest =>
      healthy <- gets (fun w => sessionHealthy (health w)) ;;
      if negb healthy then ret newThisPage
      else if negb (isValidPostUrl (Some (sm_url summary)))
      then postsLoop section rest newThisPage
      else
        let normalizedUrl :=
          normalizePostUrl host (sm_url summary) (baseUrl section) in
        seen <- gets (fun w => bool_decide (normalizedUrl ∈ seenUrls w)) ;;
        if (seen : bool) then postsLoop section rest newThisPage
        else
          modify (setSeen (fun s => {[ normalizedUrl ]} ∪ s)) ;;
          detail <- attemptLoop maxAttempts 1 section normalizedUrl ;;
          stillHealthy <- gets (fun w => sessionHealthy (health w)) ;;
          if negb stillHealthy then ret newThisPage
          else
            match detail with
            | None =>
                updateSectionStats (slug section) addPostsFailed ;;
                updateTotals addPostsFailedT ;;
                postsLoop section rest newThisPage
            | Some d =>
                savePost section d ;;
                postsLoop section rest (newThisPage + 1)
            end
  end.

(** The pagination step that closes a page: the next value of
    [currentUrl]. *)
Definition nextPageTarget (section : Section) (pageNum : nat)
           (result : CategoryPageResult) : option string :=
  let hasValidNextUrl := isValidPaginationUrl (nextPageUrl result) in
  let otherwise :=
    if 0 <? length (posts result)
    then Some (baseUrl section ++ "page/" ++ natToString (pageNum + 1) ++ "/")
    else None in
  match nextPageUrl result with
  | Some hint =>
      if JsString.truthy hint && hasValidNextUrl
      then Some (normalizePostUrl host hint (baseUrl section))
      else otherwise
  | None => otherwise
  end.

(** The [try] block of the page loop. *)
Definition pageBody (section : Section) (pageNum : nat) (currentUrl : string)
           (totalNew : nat) : M PageResult :=
  result <- extractCategoryPage section currentUrl ;;
  (if length (posts result) =? 0
   then debugExtract section currentUrl pageNum else ret tt) ;;
  updateSectionStats (slug section) (addPostsDiscovered (length (posts result))) ;;
  updateTotals (addPostsDiscoveredT (length (posts result))) ;;
  newThisPage <- postsLoop section (posts result) 0 ;;
  ret (PageNext (nextPageTarget section pageNum result) (totalNew + newThisPage)).

(** The [catch] block of the page loop. *)
Definition pageCatch (section : Section) (err : JsError) : M PageResult :=
  (if isStagehandSessionError err then
     setSectionStatus (slug section) SessionFailed ;;
     setSessionHealthy false
   else ret tt) ;;
  ret PageBreak.

(** [while (currentUrl && pageNum <= maxPagesPerSection && sessionHealthy)];
    [remaining] is [maxPagesPerSection + 1 - pageNum]. *)
Fixpoint pageLoop (remaining pageNum : nat) (section : Section)
         (currentUrl : option string) (totalNew : nat) : M nat :=
  match remaining with
  | O => ret totalNew
  | S remaining' =>
      match currentUrl with
      | None => ret totalNew
      | Some url =>
          healthy <- gets (fun w => sessionHealthy (health w)) ;;
          if negb (JsString.truthy url && healthy) then ret totalNew
          else
            (if 1 <? pageNum
             then _ <- external (CGoto url) ;; sleep 3000
             else ret tt) ;;
            updateTotals addCategoryPagesVisitedT ;;
            updateSectionStats (slug section) addPagesVisited ;;
            r <- tryCatch (pageBody section pageNum url totalNew)
                          (pageCatch section) ;;
            match r with
            | PageNext next totalNew' =>
                pageLoop remaining' (S pageNum) section next totalNew'
            | PageBreak => ret totalNew
            end
      end
  end.

(** [scrapeSection] *)
Definition scrapeSection (section : Section) (maxPagesPerSection : nat)
  : M nat :=
  modify (setHealthW freshHealth) ;;
  _ <- external (CNewPage (baseUrl section)) ;;
  sleep 3000 ;;
  pageLoop maxPagesPerSection 1 section (Some (baseUrl section)) 0.

Definition readSectionStats (sectionSlug : string) : M SectionRunStats :=
  fun w =>
    match sections (runReport w) !! sectionSlug with
    | None => (Thrown typeError, w)
    | Some st => (Returned st, w)
    end.

Definition isPending (s : option SectionStatus) : bool :=
  match s with Some Pending => true | _ => false end.

Definition noPageError : JsError :=
  {| isErrorObject := true; errName := "Error";
     errMessage := "Stagehand did not initialize a browser page" |}.

(** The [try] block of a section in [main]: start the backend, crawl the
    section, mark it complete unless the crawl marked it otherwise. *)
Definition sectionTry (maxPagesPerSection : nat) (section : Section) : M nat :=
  _ <- external CStagehandInit ;;
  page <- external CGetPage ;;
  if negb (Js.truthy page) then throw noPageError
  else
    n <- scrapeSection section maxPagesPerSection ;;
    st <- gets (fun w => sectionStatus (runReport w) !! slug section) ;;
    (if isPending st
     then setSectionStatus (slug section) SectionComplete
     else ret tt) ;;
    ret n.

(** Its [catch] block; [newInSection] stays 0. *)
Definition sectionCatch (section : Section) (err : JsError) : M nat :=
  st <- gets (fun w => sectionStatus (runReport w) !! slug section) ;;
  (if isPending st
   then setSectionStatus (slug section) SessionFailed
   else ret tt) ;;
  ret 0.

(** Its [finally] block: metrics and history, then [stagehand.close()],
    all best-effort. *)
Definition sectionFinally : M unit :=
  swallow (_ <- external CMetrics ;; _ <- external CHistory ;; ret tt) ;;
  swallow (_ <- external CClose ;; ret tt).

(** The summary line, the progress snapshot and the [runs.log] entry that
    close a section. *)
Definition sectionCheckpoint (section : Section) : M unit :=
  _ <- readSectionStats (slug section) ;;
  swallow (_ <- external CEnsureDir ;;
           report <- gets runReport ;;
           _ <- external (CWriteProgressSnapshot report) ;;
           ret tt) ;;
  swallow (report <- gets runReport ;;
           let checkpoint :=
             match sectionStatus report !! slug section with
             | Some SessionFailed => SessionFailed
             | _ => SectionComplete
             end in
           _ <- external (CAppendRunLog checkpoint (slug section) report) ;;
           ret tt).

(** The body of [for (const section of SECTIONS)] in [main]; the result is
    [newInSection]. *)
Definition processSection (maxPagesPerSection : nat) (section : Section)
  : M nat :=
  updateTotals addSectionsVisitedT ;;
  _ <- external CNewStagehand ;;
  newInSection <- tryCatch (sectionTry maxPagesPerSection section)
                           (sectionCatch section) ;;
  sectionFinally ;;
  sectionCheckpoint section ;;
  ret newInSection.

(** The section loop of [main]; the result is [totalNew]. *)
Fixpoint runSections (maxPagesPerSection : nat) (todo : list Section)
         (totalNew : nat) : M nat :=
  match todo with
  | [] => ret totalNew
  | section :: rest =>
      newInSection <- processSection maxPagesPerSection section ;;
      runSections maxPagesPerSection rest (totalNew + newInSection)
  end.

End Crawler.










(* ===================================================================== *)
(** * Relations between the world before and after a computation         *)
(* ===================================================================== *)

Definition isExtractPost (ev : Event) : bool :=
  match ev_action ev with
  | Called (CExtractPost _ _) => true
  | _ => false
  end.

(** The event is an extraction attempt for [u] or a back-off. *)
Definition isAttemptOrBackoff (u sectionSlug : string) (ev : Event) : Prop :=
  ev_action ev = Called (CExtractPost u sectionSlug)
  \/ exists ms, ev_action ev = Slept ms.

(** The event is no detail extraction for a URL of [seen]. *)
Definition avoids (seen : gset string) (ev : Event) : Prop :=
  forall u sl, ev_action ev = Called (CExtractPost u sl) -> u ∉ seen.

(** The events [d] were added to the trace. *)
Definition extends (w w' : World) (d : list Event) : Prop :=
  trace w' = (trace w ++ d)%list.

(** The section status agrees with the health flag. *)
Definition Consistent (sectionSlug : string) (w : World) : Prop :=
  sessionHealthy (health w) = false ->
  sectionStatus (runReport w) !! sectionSlug = Some SessionFailed.

(** What a step that is no part of the retry logic does: it leaves the set,
    the monitor and the section statuses alone, and it extracts no post. *)
Record Quiet (w w' : World) : Prop := {
  q_seen : seenUrls w' = seenUrls w;
  q_health : health w' = health w;
  q_status : sectionStatus (runReport w') = sectionStatus (runReport w);
  q_dom : dom (sections (runReport w')) = dom (sections (runReport w));
  q_tick : tick w <= tick w';
  q_trace : exists d, extends w w' d
                      /\ Forall (fun ev => ev_healthy ev = sessionHealthy (health w)
                                           /\ isExtractPost ev = false) d
}.

(** What the retry loop for [u] does: at most [bound] attempts for [u] and
    back-offs in between, all issued under the health flag it started with;
    the set and the statistics stay; the flag can only drop, and when it
    drops the section is marked failed. *)
Record Attempted (sectionSlug u : string) (bound : nat) (w w' : World) : Prop := {
  at_seen : seenUrls w' = seenUrls w;
  at_sections : sections (runReport w') = sections (runReport w);
  at_totals : totals (runReport w') = totals (runReport w);
  at_tick : tick w <= tick w';
  at_trace : exists d, extends w w' d
                       /\ Forall (fun ev => ev_healthy ev = sessionHealthy (health w)
                                            /\ isAttemptOrBackoff u sectionSlug ev) d
                       /\ length (filter (fun ev => isExtractPost ev = true) d) <= bound;
  at_mono : sessionHealthy (health w') = true -> sessionHealthy (health w) = true;
  at_status : sessionHealthy (health w') = false ->
              sessionHealthy (health w) = true ->
              sectionStatus (runReport w') !! sectionSlug = Some SessionFailed;
  at_status_keep :
    sectionStatus (runReport w) !! sectionSlug = Some SessionFailed ->
    sectionStatus (runReport w') !! sectionSlug = Some SessionFailed
}.

(** What the loops of a section crawl do: the set grows; every action is
    issued while the flag is up, and none extracts a URL that was in the set;
    the flag can only drop; with the flag down nothing is done; the status
    keeps agreeing with the flag. *)
Record Crawled (sectionSlug : string) (w w' : World) : Prop := {
  cr_seen : seenUrls w ⊆ seenUrls w';
  cr_dom : dom (sections (runReport w')) = dom (sections (runReport w));
  cr_tick : tick w <= tick w';
  cr_trace : exists d, extends w w' d
                       /\ Forall (fun ev => ev_healthy ev = true
                                            /\ avoids (seenUrls w) ev) d;
  cr_mono : sessionHealthy (health w') = true -> sessionHealthy (health w) = true;
  cr_stop : sessionHealthy (health w) = false ->
            trace w' = trace w /\ seenUrls w' = seenUrls w /\ tick w' = tick w;
  cr_consistent : Consistent sectionSlug w -> Consistent sectionSlug w'
}.

(** What the whole run does to the set: it grows, and no URL that was in it
    is extracted. *)
Record Dedup (w w' : World) : Prop := {
  dd_seen : seenUrls w ⊆ seenUrls w';
  dd_trace : exists d, extends w w' d /\ Forall (avoids (seenUrls w)) d
}.

(** From [w] to [w'] the URL [u] stays in the set and no detail extraction
    is issued for it. *)
Definition KeepsOut (u : string) (w w' : World) : Prop :=
  u ∈ seenUrls w'
  /\ exists d, extends w w' d
               /\ forall ev sl, ev ∈ d -> ev_action ev <> Called (CExtractPost u sl).

(** The writes of the run report to the progress snapshot and to [runs.log]:
    telemetry, whose content is the report itself. *)
Definition isTelemetry (ev : Event) : bool :=
  match ev_action ev with
  | Called (CWriteProgressSnapshot _) | Called (CAppendRunLog _ _ _) => true
  | _ => false
  end.

(** The trace without the telemetry writes: the pages visited, the
    extractions and retries, the back-offs, the records handed on. *)
Definition decisions (tr : list Event) : list Event :=
  filter (fun ev => isTelemetry ev = false) tr.

(** Two worlds that differ in their run reports only, the reports having
    statistics for the same sections. *)
Record SameDecisions (w1 w2 : World) : Prop := {
  sd_seen : seenUrls w1 = seenUrls w2;
  sd_health : health w1 = health w2;
  sd_tick : tick w1 = tick w2;
  sd_trace : decisions (trace w1) = decisions (trace w2);
  sd_dom : dom (sections (runReport w1)) = dom (sections (runReport w2))
}.

(** Run from two such worlds, the computations end the same way in two such
    worlds. *)
Definition agree {A} (m1 m2 : M A) : Prop :=
  forall w1 w2,
    SameDecisions w1 w2 ->
    fst (m1 w1) = fst (m2 w2) /\ SameDecisions (snd (m1 w1)) (snd (m2 w2)).

(** A computation keeps to the relation [R] from every world. *)
Definition respects {A} (R : World -> World -> Prop) (m : M A) : Prop :=
  forall w, R w (snd (m w)).

(** [SECTIONS] *)
Definition SECTIONS : list Section :=
  [ {| name := "Dr. Diet"; slug := "dr-diet";
       baseUrl := "https://www.paulcheksblog.com/category/diet/" |};
    {| name := "Dr. Quiet"; slug := "dr-quiet";
       baseUrl := "https://www.paulcheksblog.com/category/quiet/" |};
    {| name := "Dr. Movement"; slug := "dr-movement";
       baseUrl := "https://www.paulcheksblog.com/category/movement/" |};
    {| name := "Dr. Happiness"; slug := "dr-happiness";
       baseUrl := "https://www.paulcheksblog.com/category/happiness/" |} ].

(** The first configured section, used in the worked examples. *)
Definition dietSection : Section :=
  {| name := "Dr. Diet"; slug := "dr-diet";
     baseUrl := "https://www.paulcheksblog.com/category/diet/" |}.

Definition zeroStats : SectionRunStats :=
  {| pagesVisited := 0; postsDiscovered := 0; postsSaved := 0; postsFailed := 0 |}.

Definition zeroTotals : Totals :=
  {| sectionsVisited := 0; categoryPagesVisited := 0; t_postsDiscovered := 0;
     t_postsSaved := 0; t_postsFailed := 0 |}.

(** The report as [main] builds it before the section loop. *)
Definition initialRunReport (todo : list Section) : RunReport :=
  fold_left
    (fun r s =>
       setStatus (insert (slug s) Pending)
         (setSections (insert (slug s) zeroStats) r))
    todo
    {| totals := zeroTotals; sections := ∅; sectionStatus := ∅; errors := ∅ |}.

(** The world when the section loop of [main] starts: [seenUrls] holds the
    URLs the store already has. *)
Definition initialWorld (existingUrls : gset string) : World :=
  {| seenUrls := existingUrls; runReport := initialRunReport SECTIONS;
     health := freshHealth; tick := 0; trace := [] |}.

(** The section loop of [main] on the configured sections. *)
Definition mainCrawl (host : Host) (backend : nat -> Response)
           (maxPagesPerSection : nat) (existingUrls : gset string)
  : Outcome nat * World :=
  runSections host backend maxPagesPerSection SECTIONS 0 (initialWorld existingUrls).

(* ===================================================================== *)
(** * A host for the worked examples                                     *)
(* ===================================================================== *)

(** The examples below need a concrete [Host].  [refHost] reads the plain
    URLs [http://host/path] and [https://host/path], with a host made of
    [a-z0-9.-] and a path made of [a-z0-9-_/], on which it agrees with the
    WHATWG parser; it answers [None] everywhere else, and its [Date] parses
    nothing.  The general theorems hold for every [Host]. *)
Module RefHost.

Fixpoint stripPrefix (p s : string) : option string :=
  match p with
  | EmptyString => Some s
  | String a p' =>
      match s with
      | EmptyString => None
      | String b s' => if Ascii.eqb a b then stripPrefix p' s' else None
      end
  end.

Definition isHostChar (c : ascii) : bool :=
  let n := code c in
  ((97 <=? n) && (n <=? 122)) || ((48 <=? n) && (n <=? 57))
  || (n =? 45) || (n =? 46).

Definition isPathChar (c : ascii) : bool :=
  isSlugChar c || (code c =? 47).

(** The host name at the head of [s], and the path that follows it. *)
Fixpoint splitHost (s : string) : string * string :=
  match s with
  | EmptyString => (EmptyString, EmptyString)
  | String c r =>
      if Ascii.eqb c "/" then (EmptyString, s)
      else let '(h, p) := splitHost r in (String c h, p)
  end.

(** Origin and path of a plain URL. *)
Definition parse (s : string) : option (string * string) :=
  let withScheme (scheme rest : string) :=
    let '(h, p) := splitHost rest in
    if negb (isEmpty h) && allChars isHostChar h && allChars isPathChar p
    then Some (scheme ++ h, if isEmpty p then "/" else p)
    else None in
  match stripPrefix "https://" s with
  | Some rest => withScheme "https://" rest
  | None =>
      match stripPrefix "http://" s with
      | Some rest => withScheme "http://" rest
      | None => None
      end
  end.

Definition href (url base : string) : option string :=
  match parse base with
  | None => None
  | Some (origin, _) =>
      match parse url with
      | Some (o, p) => Some (o ++ p)
      | None =>
          if startsWith "/" url && negb (startsWith "//" url)
             && allChars isPathChar url
          then Some (origin ++ url) else None
      end
  end.

Definition refHost : Host :=
  {| dateUTC := fun _ => None;
     urlPathname := fun s => snd <$> parse s;
     urlOrigin := fun s => fst <$> parse s;
     urlHref := href |}.

End RefHost.

Import RefHost.

(* ===================================================================== *)
(** * Two runs of a section, for the worked examples                     *)
(* ===================================================================== *)

Module Scenario.

Definition summaryOf (url : string) : JSValue :=
  JObj [("url", JStr url); ("title", JStr "A post")].

Definition oldPost : string := "https://www.paulcheksblog.com/old-post/".
Definition newPost : string := "https://www.paulcheksblog.com/new-post/".

(** Page 1: two summaries, one of them already in the store, and a hint. *)
Definition pageOne : JSValue :=
  JObj [("posts", JArr [summaryOf "/old-post/"; summaryOf "/new-post/"]);
        ("nextPageUrl", JStr "/category/diet/page/2/")].

(** Page 2: no summary, no hint. *)
Definition pageTwo : JSValue :=
  JObj [("posts", JArr []); ("nextPageUrl", JNull)].

Definition newPostDetail : JSValue :=
  JObj [("slug", JStr "new-post"); ("title", JStr "New post");
        ("url", JStr newPost); ("date", JStr "December 26th, 2025");
        ("doctorSection", JStr "dr-diet"); ("markdown", JStr "Body")].

(** The answers to the calls of [scrapeSection] on two quiet pages: the new
    page, the first listing, one detail, the store, the Markdown file, the
    navigation, the second listing; whatever comes after succeeds. *)
Definition quietBackend (n : nat) : Response :=
  match n with
  | 1 => Resolves pageOne
  | 2 => Resolves newPostDetail
  | 6 => Resolves pageTwo
  | _ => Resolves JNull
  end.

Definition sessionError : JsError :=
  {| isErrorObject := true; errName := "StagehandServerError";
     errMessage := "The session has completed or timed out" |}.



(** A page of four summaries with an element identifier for a hint. *)
Definition pageOfFour : JSValue :=
  JObj [("posts", JArr [summaryOf "/a/"; summaryOf "/b/";
                        summaryOf "/c/"; summaryOf "/d/"]);
        ("nextPageUrl", JStr "5")].

(** The listing is extracted, then the session is gone for good. *)
Definition deadBackend (n : nat) : Response :=
  match n with
  | 0 => Resolves JNull
  | 1 => Resolves pageOfFour
  | _ => Rejects sessionError
  end.

(** The world before the section loop, the store holding [oldPost]. *)
Definition start : World := initialWorld {[ oldPost ]}.

(** The same with another run report: counters that are not 0, a status
    that is not pending, an error already counted. *)
Definition otherReport : RunReport :=
  {| totals := {| sectionsVisited := 7; categoryPagesVisited := 1;
                  t_postsDiscovered := 2; t_postsSaved := 3;
                  t_postsFailed := 4 |};
     sections := (fun st => addPostsFailed (addPagesVisited st))
                   <$> sections (initialRunReport SECTIONS);
     sectionStatus := {[ "dr-diet" := SectionComplete ]};
     errors := {[ "Error" := Counted 5 ]} |}.

Definition startOther : World := setReport (fun _ => otherReport) start.

(** A world in the middle of a page, the monitor fresh, for the backend that
    is dead from the call 2 on. *)
Definition midPage : World :=
  {| seenUrls := ∅; runReport := initialRunReport SECTIONS;
     health := freshHealth; tick := 2; trace := [] |}.

(** The world in which the first listing page is about to be extracted. *)
Definition atFirstPage : World :=
  {| seenUrls := {[ oldPost ]}; runReport := initialRunReport SECTIONS;
     health := freshHealth; tick := 1; trace := [] |}.


End Scenario.

(* ===================================================================== *)
(** * The Markdown file of a post                                        *)
(* ===================================================================== *)

Definition dquote : ascii := ascii_of_nat 34.
Definition backslash : ascii := ascii_of_nat 92.

(** [value.replace(/\r?\n/g, " ")]: a line feed, with the carriage return
    right before it if there is one, becomes one space; a carriage return
    that no line feed follows stays. *)
Fixpoint flattenNewlines (s : string) : string :=
  match s with
  | EmptyString => EmptyString
  | String c r =>
      if code c =? 10 then String " " (flattenNewlines r)
      else if code c =? 13 then
        match r with
        | String d r' =>
            if code d =? 10 then String " " (flattenNewlines r')
            else String c (flattenNewlines r)
        | EmptyString => String c EmptyString
        end
      else String c (flattenNewlines r)
  end.

(** The character class that [yamlEscape] tests for: colon, double quote,
    single quote, hyphen. *)
Definition isYamlSpecial (c : ascii) : bool :=
  let n := code c in
  (n =? 58) || (n =? 34) || (n =? 39) || (n =? 45).

(** Some code unit of [s] passes the test [p]. *)
Fixpoint anyChar (p : ascii -> bool) (s : string) : bool :=
  match s with
  | EmptyString => false
  | String c r => p c || anyChar p r
  end.

(** The replacement in [yamlEscape] of every double quote by a backslash
    and a double quote. *)
Fixpoint escapeQuotes (s : string) : string :=
  match s with
  | EmptyString => EmptyString
  | String c r =>
      if code c =? 34 then String backslash (String dquote (escapeQuotes r))
      else String c (escapeQuotes r)
  end.

(** [yamlEscape] *)
Definition yamlEscape (value : string) : string :=
  let trimmed := trim (flattenNewlines value) in
  if isEmpty trimmed then String dquote (String dquote EmptyString)
  else if anyChar isYamlSpecial trimmed
  then String dquote (escapeQuotes trimmed ++ String dquote EmptyString)
  else trimmed.

(** [post.slug || slugFromUrl(post.url) || "untitled"] in [writePostMarkdown];
    the file is named [safeSlug] followed by [.md]. *)
Definition safeSlug (host : Host) (post : PostDetail) : string :=
  if JsString.truthy (pd_slug post) then pd_slug post
  else match slugFromUrl host (JStr (pd_url post)) with
       | Some s => if JsString.truthy s then s else "untitled"
       | None => "untitled"
       end.

(** The front matter that [writePostMarkdown] pushes between the two [---]
    lines. *)
Definition frontMatter (section : Section) (post : PostDetail) : list string :=
  [ "title: " ++ yamlEscape (pd_title post);
    "url: " ++ yamlEscape (pd_url post) ]
  ++ match pd_date post with
     | Some d => if JsString.truthy d then [ "date: " ++ yamlEscape d ] else []
     | None => []
     end
  ++ [ "doctor_section: " ++ yamlEscape (slug section); "categories:" ]
  ++ map (fun c => "  - " ++ yamlEscape c) (default [] (pd_categories post))
  ++ [ "tags:" ]
  ++ map (fun t => "  - " ++ yamlEscape t) (default [] (pd_tags post)).

(** The [lines] of [writePostMarkdown]. *)
Definition postMarkdownLines (section : Section) (post : PostDetail)
  : list string :=
  ["---"] ++ frontMatter section post ++ ["---"; ""; pd_markdown post].

(** [lines.join("\n")] *)
Fixpoint joinLines (lines : list string) : string :=
  match lines with
  | [] => ""
  | [l] => l
  | l :: rest => l ++ String (ascii_of_nat 10) (joinLines rest)
  end.

(** The content [writePostMarkdown] hands to [fs.writeFile]. *)
Definition postMarkdown (section : Section) (post : PostDetail) : string :=
  joinLines (postMarkdownLines section post).

(** No code unit of [s] is a line feed. *)
Definition noLineFeed (s : string) : bool :=
  allChars (fun c => negb (code c =? 10)) s.

(** [s.split("\n")]; [cur] is the line being read, reversed. *)
Fixpoint splitLinesAux (cur : list ascii) (s : string) : list string :=
  match s with
  | EmptyString => [string_of_list_ascii (rev cur)]
  | String c r =>
      if code c =? 10
      then string_of_list_ascii (rev cur) :: splitLinesAux [] r
      else splitLinesAux (c :: cur) r
  end.

Definition splitLines (s : string) : list string := splitLinesAux [] s.

(* ===================================================================== *)
(** * Written dates                                                      *)
(* ===================================================================== *)

(** The ordinal suffixes as the blog writes them. *)
Definition ordinalSuffixes : list string := [ "st"; "nd"; "rd"; "th" ].

(** A date as the blog writes it: the month, the day with or without its
    ordinal suffix, a comma or none, the year. *)
Definition writtenDate (month day suffix : string) (comma : bool)
           (year : string) : string :=
  month ++ " " ++ day ++ suffix ++ (if comma then "," else "") ++ " " ++ year.

(** A lower-case ASCII letter. *)
Definition isLowerLetter (c : ascii) : bool :=
  (97 <=? code c) && (code c <=? 122).

(** The prefix [p] and the text [m] differ, case aside, at a position that
    both have. *)
Fixpoint differCI (p m : string) : bool :=
  match p, m with
  | String a p', String c m' => if eqbCI a c then differCI p' m' else true
  | _, _ => false
  end.

(** The last code unit of [s], if any, is no white space. *)
Fixpoint endsTight (s : string) : bool :=
  match s with
  | EmptyString => true
  | String c EmptyString => negb (isWhiteSpace c)
  | String _ r => endsTight r
  end.

(** Every double quote of [s] comes right after a backslash;
    [afterBackslash] tells that the code unit just read was one. *)
Fixpoint quotesEscaped (afterBackslash : bool) (s : string) : bool :=
  match s with
  | EmptyString => true
  | String c r =>
      if code c =? 34 then afterBackslash && quotesEscaped false r
      else quotesEscaped (code c =? 92) r
  end.

(* ===================================================================== *)
(** * Counting in the trace and in the run report                        *)
(* ===================================================================== *)

Definition isListing (ev : Event) : bool :=
  match ev_action ev with
  | Called (CExtractCategory _ _) => true
  | _ => false
  end.

Definition isUpsert (ev : Event) : bool :=
  match ev_action ev with
  | Called (CUpsertPost _) => true
  | _ => false
  end.

Definition isMarkdownWrite (ev : Event) : bool :=
  match ev_action ev with
  | Called (CWritePostMarkdown _ _) => true
  | _ => false
  end.

(** The event is a detail extraction for the URL [u]. *)
Definition extractsUrl (u : string) (ev : Event) : bool :=
  match ev_action ev with
  | Called (CExtractPost v _) => String.eqb v u
  | _ => false
  end.

(** The number of events of [d] that pass the test [p]. *)
Definition count (p : Event -> bool) (d : list Event) : nat :=
  length (filter (fun ev => p ev = true) d).

(** The statistics of a section, as the report has them. *)
Definition statsOf (sectionSlug : string) (w : World) : SectionRunStats :=
  default zeroStats (sections (runReport w) !! sectionSlug).

(** A step that counts nothing: the statistics and the totals stay, and it
    issues no listing extraction, no upsert and no Markdown write. *)
Record Still (w w' : World) : Prop := {
  st_sections : sections (runReport w') = sections (runReport w);
  st_totals : totals (runReport w') = totals (runReport w);
  st_trace : exists d, extends w w' d
                       /\ Forall (fun ev => isListing ev = false
                                            /\ isUpsert ev = false
                                            /\ isMarkdownWrite ev = false) d
}.

(** From [w] to [w'] the statistics of the section and the totals of the run
    moved by the same amounts: [dp] pages, [dd] summaries discovered, [ds]
    posts saved, [df] posts failed; the other sections' statistics stayed;
    [dl] listing extractions were issued, and at least [ds] Markdown writes,
    each after an upsert. *)
Record Tally (sectionSlug : string) (dp dl dd ds df : nat) (w w' : World)
  : Prop := {
  ty_entry : is_Some (sections (runReport w) !! sectionSlug) ->
             is_Some (sections (runReport w') !! sectionSlug);
  ty_pages : pagesVisited (statsOf sectionSlug w')
             = pagesVisited (statsOf sectionSlug w) + dp;
  ty_discovered : postsDiscovered (statsOf sectionSlug w')
                  = postsDiscovered (statsOf sectionSlug w) + dd;
  ty_saved : postsSaved (statsOf sectionSlug w')
             = postsSaved (statsOf sectionSlug w) + ds;
  ty_failed : postsFailed (statsOf sectionSlug w')
              = postsFailed (statsOf sectionSlug w) + df;
  ty_tpages : categoryPagesVisited (totals (runReport w'))
              = categoryPagesVisited (totals (runReport w)) + dp;
  ty_tdiscovered : t_postsDiscovered (totals (runReport w'))
                   = t_postsDiscovered (totals (runReport w)) + dd;
  ty_tsaved : t_postsSaved (totals (runReport w'))
              = t_postsSaved (totals (runReport w)) + ds;
  ty_tfailed : t_postsFailed (totals (runReport w'))
               = t_postsFailed (totals (runReport w)) + df;
  ty_tsections : sectionsVisited (totals (runReport w'))
                 = sectionsVisited (totals (runReport w));
  ty_others : forall other, other <> sectionSlug ->
                sections (runReport w') !! other = sections (runReport w) !! other;
  ty_trace : exists d, extends w w' d
                       /\ count isListing d = dl
                       /\ ds <= count isMarkdownWrite d
                       /\ count isMarkdownWrite d <= count isUpsert d
}.

(** What the crawl does with detail extractions, over any stretch of the
    run: no URL is extracted more than [maxAttempts] times, and a URL that is
    extracted was not in the set before and is in it afterwards. *)
Record Once (w w' : World) : Prop := {
  on_seen : seenUrls w ⊆ seenUrls w';
  on_trace : exists d, extends w w' d
                       /\ (forall u, count (extractsUrl u) d <= maxAttempts)
                       /\ (forall u, 0 < count (extractsUrl u) d ->
                                     (u ∉ seenUrls w) /\ (u ∈ seenUrls w'))
}.

(** The detail extraction [ev] is for a URL that comes from a summary link
    the post validator accepts, made absolute against the base URL of a
    section in [scope], and it carries that section's slug. *)
Definition fromValidLink (host : Host) (scope : Section -> Prop) (ev : Event)
  : Prop :=
  forall u sl,
    ev_action ev = Called (CExtractPost u sl) ->
    exists s link,
      scope s /\ sl = slug s
      /\ isValidPostUrl (Some link) = true
      /\ u = normalizePostUrl host link (baseUrl s).

(** Every detail extraction issued from [w] to [w'] is for a valid link. *)
Definition Validated (host : Host) (scope : Section -> Prop) (w w' : World)
  : Prop :=
  exists d, extends w w' d /\ Forall (fromValidLink host scope) d.

(** The sum of one statistic over the sections [slugs]. *)
Definition sumStats (f : SectionRunStats -> nat) (slugs : list string)
           (w : World) : nat :=
  foldr (fun sl acc => f (statsOf sl w) + acc) 0 slugs.

(** The totals of the run are the sums of the statistics of the sections
    [slugs], each of which has its entry in the report. *)
Record Balanced (slugs : list string) (w : World) : Prop := {
  bl_entries : Forall (fun sl => is_Some (sections (runReport w) !! sl)) slugs;
  bl_pages : categoryPagesVisited (totals (runReport w))
             = sumStats pagesVisited slugs w;
  bl_discovered : t_postsDiscovered (totals (runReport w))
                  = sumStats postsDiscovered slugs w;
  bl_saved : t_postsSaved (totals (runReport w)) = sumStats postsSaved slugs w;
  bl_failed : t_postsFailed (totals (runReport w)) = sumStats postsFailed slugs w
}.

(** The report keeps its entries, no section status becomes pending, and no
    section loses its status. *)
Record Settled (w w' : World) : Prop := {
  se_dom : dom (sections (runReport w')) = dom (sections (runReport w));
  se_status : forall sl, sectionStatus (runReport w') !! sl = Some Pending ->
                         sectionStatus (runReport w) !! sl = Some Pending;
  se_keep : forall sl, is_Some (sectionStatus (runReport w) !! sl) ->
                       is_Some (sectionStatus (runReport w') !! sl)
}.

(** The trace entry of the construction of a Stagehand client. *)
Definition constructorEvent (healthy : bool) : Event :=
  {| ev_healthy := healthy; ev_action := Called CNewStagehand |}.

(** The trace entry of an awaited external call. *)
Definition callEvent (healthy : bool) (c : Call) : Event :=
  {| ev_healthy := healthy; ev_action := Called c |}.

(* ===================================================================== *)
(** * The error histogram                                                *)
(* ===================================================================== *)

(** What a value of the histogram counts; a text counts for nothing. *)
Definition tallyValue (v : ErrorTally) : nat :=
  match v with
  | Counted n => n
  | Garbled _ => 0
  end.

(** The sum of the counts of a histogram. *)
Definition histogramSum (e : gmap string ErrorTally) : nat :=
  map_fold (fun (_ : string) (v : ErrorTally) (acc : nat) => tallyValue v + acc)
           0 e.

(** The sum of the counts of [runReport.errors]. *)
Definition errorTotal (w : World) : nat := histogramSum (errors (runReport w)).

(** Every value of the histogram is a count. *)
Definition allCounted (w : World) : Prop :=
  forall key v, errors (runReport w) !! key = Some v -> exists n, v = Counted n.

(** No error that the environment throws gets a name that
    [Object.prototype] holds. *)
Definition plainErrorNames (backend : nat -> Response) : Prop :=
  forall t e,
    backend t = Rejects e ->
    isObjectPrototypeKey (errorTypeOf e (isStagehandSessionError e)) = false.

(** A step outside the retry loop and the saving of a post: the histogram
    and the count of failed posts stay, and it issues no detail extraction
    and no upsert. *)
Record Uncharged (w w' : World) : Prop := {
  un_errors : errors (runReport w') = errors (runReport w);
  un_failed : t_postsFailed (totals (runReport w'))
              = t_postsFailed (totals (runReport w));
  un_trace : exists d, extends w w' d
                       /\ Forall (fun ev => isExtractPost ev = false
                                            /\ isUpsert ev = false) d
}.

(** From [w] to [w'] the histogram only grew, and never by more than the
    detail extractions that no upsert followed.  When [plain] holds, which
    is to stand for [plainErrorNames], and the histogram held counts only,
    every detail extraction is accounted for: it was followed by an upsert,
    or it was counted in the histogram; the histogram grew by at least the
    number of posts counted as failed, and it still holds counts only. *)
Record Charged (plain : Prop) (w w' : World) : Prop := {
  ch_mono : errorTotal w <= errorTotal w';
  ch_trace : exists d, extends w w' d
                       /\ errorTotal w' + count isUpsert d
                          <= count isExtractPost d + errorTotal w
                       /\ (plain -> allCounted w ->
                           count isExtractPost d + errorTotal w
                           = errorTotal w' + count isUpsert d);
  ch_failed : plain -> allCounted w ->
              t_postsFailed (totals (runReport w')) + errorTotal w
              <= t_postsFailed (totals (runReport w)) + errorTotal w';
  ch_counted : plain -> allCounted w -> allCounted w'
}.

(* ===================================================================== *)
(* ===================================================================== *)
(** * Part II: properties                                                *)
(* ===================================================================== *)
(* ===================================================================== *)

(* ===================================================================== *)
(** * Properties of the identifier validators                            *)
(* ===================================================================== *)

Section ValidatorFacts.

Lemma isEmpty_true (s : string) : isEmpty s = true <-> s = "".
Proof. destruct s; simpl; split; intros; congruence. Qed.

Lemma isEmpty_false (s : string) : isEmpty s = false <-> s <> "".
Proof. destruct s; simpl; split; intros; congruence. Qed.

Lemma digit_not_space (c : ascii) : isDigit c = true -> isWhiteSpace c = false.
Proof.
  unfold isDigit, isWhiteSpace. intros H.
  apply andb_true_iff in H as [H1 H2].
  apply Nat.leb_le in H1. apply Nat.leb_le in H2.
  repeat (apply orb_false_iff; split);
    try (apply andb_false_iff; right; apply Nat.leb_gt; lia);
    apply Nat.eqb_neq; lia.
Qed.

Lemma trimEnd_noSpace (s : string) : noSpace s = true -> trimEnd s = s.
Proof.
  induction s as [|c r IH]; simpl; [easy|].
  intros H. apply andb_true_iff in H as [Hc Hr].
  apply negb_true_iff in Hc. rewrite Hc. simpl. now rewrite IH.
Qed.

Lemma trimStart_noSpace (s : string) : noSpace s = true -> trimStart s = s.
Proof.
  destruct s as [|c r]; simpl; [easy|].
  intros H. apply andb_true_iff in H as [Hc _].
  apply negb_true_iff in Hc. now rewrite Hc.
Qed.

Lemma trim_noSpace (s : string) : noSpace s = true -> trim s = s.
Proof.
  intros H. unfold trim. rewrite trimStart_noSpace by easy.
  now apply trimEnd_noSpace.
Qed.

Lemma noSpace_app (a b : string) :
  noSpace (a ++ b) = noSpace a && noSpace b.
Proof.
  induction a as [|c r IH]; simpl; [easy|]. now rewrite IH, andb_assoc.
Qed.

Lemma allDigits_noSpace (d : string) : allDigits d = true -> noSpace d = true.
Proof.
  induction d as [|c r IH]; simpl; [easy|].
  intros H. apply andb_true_iff in H as [Hc Hr].
  rewrite (digit_not_space c Hc). simpl. auto.
Qed.

(** A prefix free of white space survives trimming at the end. *)
Lemma startsWith_trimEnd (p s : string) :
  noSpace p = true -> startsWith p s = true -> startsWith p (trimEnd s) = true.
Proof.
  revert s. induction p as [|a p IH]; intros s Hp Hs; [easy|].
  destruct s as [|b s]; [discriminate|].
  simpl in Hp, Hs. apply andb_true_iff in Hp as [Ha Hp].
  apply andb_true_iff in Hs as [Hab Hs].
  apply Ascii.eqb_eq in Hab. subst b.
  apply negb_true_iff in Ha. simpl. rewrite Ha. simpl.
  rewrite Ascii.eqb_refl. simpl. auto.
Qed.

Lemma startsWith_trim (p s : string) :
  p <> "" -> noSpace p = true ->
  startsWith p s = true -> startsWith p (trim s) = true.
Proof.
  intros Hne Hp Hs. unfold trim.
  assert (trimStart s = s) as ->.
  { destruct p as [|a p]; [congruence|]. destruct s as [|b s]; [discriminate|].
    simpl in Hp, Hs. apply andb_true_iff in Hp as [Ha _].
    apply andb_true_iff in Hs as [Hab _]. apply Ascii.eqb_eq in Hab. subst b.
    apply negb_true_iff in Ha. simpl. now rewrite Ha. }
  now apply startsWith_trimEnd.
Qed.

Lemma startsWith_nonempty (p s : string) :
  p <> "" -> startsWith p s = true -> isEmpty s = false.
Proof.
  destruct p; [congruence|]. destruct s; simpl; [discriminate|easy].
Qed.

Lemma spanDigits_spec (s d rest : string) :
  spanDigits s = (d, rest) ->
  s = d ++ rest /\ allDigits d = true
  /\ match rest with
     | EmptyString => True
     | String c _ => isDigit c = false
     end.
Proof.
  revert d rest. induction s as [|c r IH]; intros d rest; simpl.
  - intros [= <- <-]. easy.
  - destruct (isDigit c) eqn:Hc.
    + destruct (spanDigits r) as [d' rest'] eqn:E. intros [= <- <-].
      destruct (IH _ _ eq_refl) as (-> & Hd & Hr). simpl. rewrite Hc. easy.
    + intros [= <- <-]. simpl. easy.
Qed.

Lemma spanDigits_app (d rest : string) :
  allDigits d = true ->
  match rest with
  | EmptyString => True
  | String c _ => isDigit c = false
  end ->
  spanDigits (d ++ rest) = (d, rest).
Proof.
  intros Hd Hr. induction d as [|c r IH]; simpl.
  - destruct rest as [|c r]; simpl; [easy|]. now rewrite Hr.
  - simpl in Hd. apply andb_true_iff in Hd as [Hc Hd].
    rewrite Hc, IH by easy. easy.
Qed.

Lemma append_empty_r (s : string) : s ++ "" = s.
Proof. induction s; simpl; congruence. Qed.

(** The matcher decides the pattern. *)
Lemma isElementId_spec (s : string) :
  isElementId s = true <-> ElementIdPattern s.
Proof.
  unfold isElementId. split.
  - destruct (spanDigits s) as [d rest] eqn:E.
    apply spanDigits_spec in E as (-> & Hd & _).
    destruct d as [|c d]; [discriminate|].
    destruct rest as [|h rest].
    + intros _. rewrite append_empty_r. now constructor.
    + intros H. apply andb_true_iff in H as [H Hr].
      apply andb_true_iff in H as [Hh Hne].
      apply Ascii.eqb_eq in Hh. subst h.
      apply (eid_pair (String c d) rest); try easy.
      apply negb_true_iff, isEmpty_false in Hne. easy.
  - intros [d Hne Hd | d1 d2 Hne1 Hd1 Hne2 Hd2].
    + rewrite <- (append_empty_r d) at 1.
      rewrite spanDigits_app by easy. destruct d; [congruence|easy].
    + rewrite spanDigits_app by easy.
      destruct d1; [congruence|]. simpl.
      destruct d2; [congruence|]. now simpl in *.
Qed.

Lemma ElementIdPattern_noSpace (s : string) :
  ElementIdPattern s -> noSpace s = true /\ s <> "".
Proof.
  intros [d Hne Hd | d1 d2 Hne1 Hd1 Hne2 Hd2].
  - split; [now apply allDigits_noSpace | easy].
  - split.
    + rewrite !noSpace_app, (allDigits_noSpace d1), (allDigits_noSpace d2) by easy.
      reflexivity.
    + destruct d1; [congruence | easy].
Qed.

(** A string that begins like a URL is no element identifier. *)
Lemma url_prefix_not_elementId (t : string) :
  startsWith "http://" t || startsWith "https://" t || startsWith "/" t = true ->
  isElementId t = false.
Proof.
  intros H. destruct t as [|c t]; [easy|].
  unfold isElementId. simpl.
  destruct (isDigit c) eqn:Hc; [|easy].
  exfalso. simpl in H.
  destruct (Ascii.eqb_spec "h" c) as [<-|_]; [vm_compute in Hc; discriminate|].
  destruct (Ascii.eqb_spec "/" c) as [<-|_]; [vm_compute in Hc; discriminate|].
  discriminate.
Qed.

(** On every argument the two validators agree once element identifiers are
    set aside. *)
Lemma isValidPaginationUrl_unfold (url : option string) :
  isValidPaginationUrl url
  = isValidPostUrl url
    && match url with
       | Some u => negb (isElementId (trim u))
       | None => true
       end.
Proof.
  destruct url as [u|]; [|easy]. unfold isValidPaginationUrl, isValidPostUrl.
  destruct (isEmpty u); [easy|]. cbv zeta.
  destruct (isEmpty (trim u)); [easy|].
  destruct (isElementId (trim u)), (startsWith "http://" (trim u)),
    (startsWith "https://" (trim u)), (startsWith "/" (trim u)); reflexivity.
Qed.

(** A string that begins like a URL begins with no digit, so the exception
    for element identifiers never bites: the two validators accept the same
    arguments. *)
Lemma validators_coincide (url : option string) :
  isValidPaginationUrl url = isValidPostUrl url.
Proof.
  rewrite isValidPaginationUrl_unfold. destruct url as [u|]; [|reflexivity].
  destruct (isValidPostUrl (Some u)) eqn:E; [|reflexivity]. simpl.
  rewrite url_prefix_not_elementId; [reflexivity|].
  unfold isValidPostUrl in E. destruct (isEmpty u); [discriminate|].
  cbv zeta in E. destruct (isEmpty (trim u)); [discriminate|].
  destruct (startsWith "http://" (trim u)), (startsWith "https://" (trim u)),
    (startsWith "/" (trim u)); (reflexivity || discriminate).
Qed.

End ValidatorFacts.

(** C6.  [isValidPostUrl] accepts a string exactly when, trimmed, it is not
    empty and starts with [http://], [https://] or [/]; [isValidPaginationUrl]
    accepts the same strings except those whose trimmed form matches the
    element-identifier pattern (digits, optionally a hyphen and digits).  So
    every string matching the pattern is rejected by the pagination variant,
    and every string starting with [http://], [https://] or [/] is accepted
    by both.  An absent argument is rejected by both. *)
Theorem validators_accept_urls_reject_element_ids :
  (forall s : string,
      isValidPostUrl (Some s) = true <->
      trim s <> ""
      /\ (startsWith "http://" (trim s) = true
          \/ startsWith "https://" (trim s) = true
          \/ startsWith "/" (trim s) = true))
  /\ (forall s : string,
         isValidPaginationUrl (Some s) = true <->
         isValidPostUrl (Some s) = true /\ ~ ElementIdPattern (trim s))
  /\ (forall s : string,
         ElementIdPattern s -> isValidPaginationUrl (Some s) = false)
  /\ (forall s : string,
         startsWith "http://" s = true
         \/ startsWith "https://" s = true
         \/ startsWith "/" s = true ->
         isValidPostUrl (Some s) = true /\ isValidPaginationUrl (Some s) = true)
  /\ isValidPostUrl None = false
  /\ isValidPaginationUrl None = false.
Proof.
  assert (Hpost : forall s : string,
      isValidPostUrl (Some s) = true <->
      trim s <> ""
      /\ (startsWith "http://" (trim s) = true
          \/ startsWith "https://" (trim s) = true
          \/ startsWith "/" (trim s) = true)).
  { intros s. unfold isValidPostUrl.
    destruct (isEmpty s) eqn:Es.
    { apply isEmpty_true in Es. subst s. split; [discriminate|].
      intros [H _]. now contradiction H. }
    cbv zeta. destruct (isEmpty (trim s)) eqn:Et.
    { apply isEmpty_true in Et. rewrite Et. split; [discriminate|].
      intros [H _]. now contradiction H. }
    apply isEmpty_false in Et.
    destruct (startsWith "http://" (trim s)), (startsWith "https://" (trim s)),
      (startsWith "/" (trim s)); simpl; intuition congruence. }
  assert (Hpag : forall s : string,
         isValidPaginationUrl (Some s) = true <->
         isValidPostUrl (Some s) = true /\ ~ ElementIdPattern (trim s)).
  { intros s. rewrite isValidPaginationUrl_unfold, andb_true_iff.
    rewrite negb_true_iff, <- isElementId_spec.
    destruct (isElementId (trim s)); intuition congruence. }
  assert (Hacc : forall s : string,
         startsWith "http://" s = true
         \/ startsWith "https://" s = true
         \/ startsWith "/" s = true ->
         isValidPostUrl (Some s) = true /\ isValidPaginationUrl (Some s) = true).
  { intros s H.
    assert (Ht : startsWith "http://" (trim s) = true
                 \/ startsWith "https://" (trim s) = true
                 \/ startsWith "/" (trim s) = true).
    { destruct H as [H|[H|H]]; [left|right; left|right; right];
        (apply startsWith_trim; [discriminate|reflexivity|exact H]). }
    assert (Hne : trim s <> "").
    { apply isEmpty_false.
      destruct Ht as [Ht|[Ht|Ht]];
        (eapply startsWith_nonempty; [|exact Ht]; discriminate). }
    assert (Hp : isValidPostUrl (Some s) = true) by (apply Hpost; auto).
    split; [exact Hp|].
    rewrite isValidPaginationUrl_unfold, Hp. simpl.
    rewrite url_prefix_not_elementId; [reflexivity|].
    destruct Ht as [ -> | [ -> | -> ] ]; rewrite ?orb_true_r; reflexivity. }
  split; [exact Hpost|]. split; [exact Hpag|].
  split; [|split; [exact Hacc|split; reflexivity]].
  intros s Hs. destruct (ElementIdPattern_noSpace s Hs) as [Hn Hne].
  destruct (isValidPaginationUrl (Some s)) eqn:E; [|reflexivity].
  apply Hpag in E as [_ E]. rewrite trim_noSpace in E by exact Hn. contradiction.
Qed.

(** The element identifier of the source's own example is rejected. *)
Lemma validators_witness :
  ElementIdPattern "0-346" /\ isValidPaginationUrl (Some "0-346") = false.
Proof.
  assert (H : ElementIdPattern "0-346").
  { apply (eid_pair "0" "346"); (discriminate || reflexivity). }
  split; [exact H|].
  exact (proj1 (proj2 (proj2 validators_accept_urls_reject_element_ids)) _ H).
Defined.

(* ===================================================================== *)
(** * Properties of the date normaliser                                  *)
(* ===================================================================== *)



(* ===================================================================== *)
(** * Properties of the record normaliser                                *)
(* ===================================================================== *)

Section SlugFacts.

Lemma replaceNonSlug_chars (inRun : bool) (s : string) :
  allChars isSlugChar (replaceNonSlug inRun s) = true.
Proof.
  revert inRun. induction s as [|c r IH]; intros inRun; simpl; [reflexivity|].
  destruct (isSlugChar c) eqn:Hc.
  - simpl. now rewrite Hc, IH.
  - destruct inRun; [apply IH|]. simpl. now rewrite IH.
Qed.

Lemma replaceNonSlug_nonempty (s : string) :
  s <> "" -> replaceNonSlug false s <> "".
Proof.
  destruct s as [|c r]; [congruence|]. intros _. simpl.
  destruct (isSlugChar c); discriminate.
Qed.

Lemma toLowerCase_nonempty (s : string) : s <> "" -> toLowerCase s <> "".
Proof. destruct s; [congruence|discriminate]. Qed.

Lemma string_of_rev_nonempty (cur : list ascii) :
  cur <> [] -> string_of_list_ascii (rev cur) <> "".
Proof.
  intros Hne H. apply (f_equal list_ascii_of_string) in H.
  rewrite list_ascii_of_string_of_list_ascii in H. simpl in H.
  apply (f_equal (@rev ascii)) in H. rewrite rev_involutive in H.
  simpl in H. contradiction.
Qed.

Lemma segmentsAux_nonempty (cur : list ascii) (s : string) :
  Forall (fun seg => seg <> "") (segmentsAux cur s).
Proof.
  revert cur. induction s as [|c r IH]; intros cur; simpl.
  - destruct cur; constructor; [|constructor].
    now apply string_of_rev_nonempty.
  - destruct (Ascii.eqb c "/"); [|apply IH].
    destruct cur; [apply IH|]. constructor; [|apply IH].
    now apply string_of_rev_nonempty.
Qed.

Lemma pathSegments_last_nonempty (path seg : string) :
  last (pathSegments path) = Some seg -> seg <> "".
Proof.
  intros H. pose proof (segmentsAux_nonempty [] path) as HF.
  rewrite Forall_forall in HF. apply HF.
  apply last_Some_elem_of. exact H.
Qed.

Variable host : Host.

(** A slug taken from a URL is the last non-empty segment of its path,
    lower-cased, with every run of code units outside [[a-z0-9-_]] replaced
    by one hyphen; it is not empty and stays inside the class. *)
Lemma slugFromUrl_spec (url : JSValue) (s : string) :
  slugFromUrl host url = Some s ->
  exists pathname seg,
    Js.truthy url = true
    /\ urlPathname host (Js.toString url) = Some pathname
    /\ last (pathSegments pathname) = Some seg
    /\ seg <> ""
    /\ s = replaceNonSlug false (toLowerCase seg)
    /\ allChars isSlugChar s = true
    /\ s <> "".
Proof.
  unfold slugFromUrl. destruct (Js.truthy url); [|discriminate]. simpl.
  destruct (urlPathname host (Js.toString url)) as [pathname|]; [|discriminate].
  destruct (last (pathSegments pathname)) as [seg|] eqn:El; [|discriminate].
  intros [= <-]. exists pathname, seg.
  pose proof (pathSegments_last_nonempty _ _ El) as Hseg.
  repeat split; auto using replaceNonSlug_chars.
  now apply replaceNonSlug_nonempty, toLowerCase_nonempty.
Qed.

End SlugFacts.

(** C8, as the code has it.  A payload that fails the shape check still
    gives a full record.  Each scalar field is the payload's when the payload
    has a string there.  Otherwise: the slug is the one taken from the
    payload's [url] when the payload has one, else from the requested URL;
    when that gives none, the one taken from the requested URL; when that
    gives none either, the literal ["untitled"].  The title is the slug taken
    from the requested URL, or the requested URL itself.  The URL is the
    requested URL, the section is the requested section's slug, the body is
    empty, the date is absent.  The category and tag lists keep the strings
    of the payload's array and are empty when the payload has no array.  A
    slug taken from a URL is the last non-empty path segment, lower-cased,
    each run of code units outside [[a-z0-9-_]] replaced by one hyphen. *)
Theorem fallback_record_defaults
        (host : Host) (raw : JSValue) (postUrl : string) (section : Section) :
  parsePostDetail raw = None ->
  let obj := Js.orEmptyObject raw in
  let r := normalizePostDetail host raw postUrl section in
  (* fields the payload provides *)
  (forall v, Js.prop obj "slug" = JStr v -> pd_slug r = v)
  /\ (forall v, Js.prop obj "title" = JStr v -> pd_title r = v)
  /\ (forall v, Js.prop obj "url" = JStr v -> pd_url r = v)
  /\ (forall v, Js.prop obj "doctorSection" = JStr v -> pd_doctorSection r = v)
  /\ (forall v, Js.prop obj "markdown" = JStr v -> pd_markdown r = v)
  /\ pd_date r = Js.asString (Js.prop obj "date")
  /\ (forall cs, Js.prop obj "categories" = JArr cs ->
                 pd_categories r = Some (Js.stringsOf cs))
  /\ (forall ts, Js.prop obj "tags" = JArr ts ->
                 pd_tags r = Some (Js.stringsOf ts))
  (* defaults *)
  /\ (Js.asString (Js.prop obj "slug") = None ->
      pd_slug r =
      match slugFromUrl host (nullish (Js.prop obj "url") (JStr postUrl)) with
      | Some s => s
      | None => default "untitled" (slugFromUrl host (JStr postUrl))
      end)
  /\ (Js.asString (Js.prop obj "title") = None ->
      pd_title r = default postUrl (slugFromUrl host (JStr postUrl)))
  /\ (Js.asString (Js.prop obj "url") = None -> pd_url r = postUrl)
  /\ (Js.asString (Js.prop obj "doctorSection") = None ->
      pd_doctorSection r = slug section)
  /\ (Js.asString (Js.prop obj "markdown") = None -> pd_markdown r = "")
  /\ ((forall cs, Js.prop obj "categories" <> JArr cs) -> pd_categories r = Some [])
  /\ ((forall ts, Js.prop obj "tags" <> JArr ts) -> pd_tags r = Some [])
  (* what a slug taken from a URL looks like *)
  /\ (forall url s,
         slugFromUrl host url = Some s ->
         exists pathname seg,
           urlPathname host (Js.toString url) = Some pathname
           /\ last (pathSegments pathname) = Some seg
           /\ seg <> ""
           /\ s = replaceNonSlug false (toLowerCase seg)
           /\ allChars isSlugChar s = true).
Proof.
  intros Hparse obj r. subst r. unfold normalizePostDetail. rewrite Hparse.
  unfold fallbackPostDetail. fold obj. simpl.
  repeat split.
  - intros v ->. reflexivity.
  - intros v ->. reflexivity.
  - intros v ->. reflexivity.
  - intros v ->. reflexivity.
  - intros v ->. reflexivity.
  - intros cs ->. reflexivity.
  - intros ts ->. reflexivity.
  - destruct (Js.prop obj "slug"); simpl; try discriminate; intros _;
      destruct (slugFromUrl host (nullish (Js.prop obj "url") (JStr postUrl)));
      try reflexivity; destruct (slugFromUrl host (JStr postUrl)); reflexivity.
  - destruct (Js.prop obj "title"); simpl; try discriminate; intros _;
      destruct (slugFromUrl host (JStr postUrl)); reflexivity.
  - destruct (Js.prop obj "url"); simpl; try discriminate; reflexivity.
  - destruct (Js.prop obj "doctorSection"); simpl; try discriminate; reflexivity.
  - destruct (Js.prop obj "markdown"); simpl; try discriminate; reflexivity.
  - intros H. destruct (Js.prop obj "categories") as [| | | | |cs|]; try reflexivity.
    now contradiction (H cs).
  - intros H. destruct (Js.prop obj "tags") as [| | | | |ts|]; try reflexivity.
    now contradiction (H ts).
  - intros url s Hs.
    destruct (slugFromUrl_spec host url s Hs)
      as (pathname & seg & _ & Hp & Hl & Hne & -> & Hc & _).
    exists pathname, seg. auto.
Qed.

Lemma fallback_record_witness :
  let raw := JObj [("title", JStr "Water as medicine")] in
  let postUrl := "https://www.paulcheksblog.com/water-as-medicine/" in
  let r := normalizePostDetail refHost raw postUrl dietSection in
  parsePostDetail raw = None
  /\ pd_title r = "Water as medicine"
  /\ pd_slug r = "water-as-medicine"
  /\ pd_doctorSection r = "dr-diet".
Proof.
  intros raw postUrl r. subst r.
  assert (Hp : parsePostDetail raw = None) by reflexivity.
  pose proof (fallback_record_defaults refHost raw postUrl dietSection Hp) as H.
  cbv zeta in H.
  destruct H as (_ & Ht & _ & _ & _ & _ & _ & _ & Hs & _ & _ & Hd & _).
  split; [exact Hp|]. split; [apply Ht; reflexivity|].
  split; [rewrite Hs; reflexivity | apply Hd; reflexivity].
Defined.

(** The default slug is not always taken from the requested URL.  The site
    root is a URL the crawler can be
    handed (a summary whose link is [/]); it has no path segment, and for an
    empty payload the slug is then the literal ["untitled"], taken from no
    URL.  And when the payload carries its own [url], the slug is taken from
    that one while the title is taken from the requested URL. *)
Lemma fallback_slug_counterexample :
  (parsePostDetail (JObj []) = None
   /\ slugFromUrl refHost (JStr "https://www.paulcheksblog.com/") = None
   /\ pd_slug (normalizePostDetail refHost (JObj [])
                 "https://www.paulcheksblog.com/" dietSection) = "untitled")
  /\ (let raw := JObj [("url", JStr "https://www.paulcheksblog.com/other-post/")] in
      let r := normalizePostDetail refHost raw
                 "https://www.paulcheksblog.com/my-post/" dietSection in
      parsePostDetail raw = None
      /\ slugFromUrl refHost (JStr "https://www.paulcheksblog.com/my-post/")
         = Some "my-post"
      /\ pd_slug r = "other-post"
      /\ pd_title r = "my-post").
Proof. repeat split; reflexivity. Qed.

(* ===================================================================== *)
(** * The retry loop, step by step                                       *)
(* ===================================================================== *)

#[local] Arguments Nat.leb : simpl never.
#[local] Arguments Nat.eqb : simpl never.
#[local] Arguments Nat.ltb : simpl never.
#[local] Arguments isValidPostUrl : simpl never.
#[local] Arguments isValidPaginationUrl : simpl never.
#[local] Arguments normalizePostUrl : simpl never.
#[local] Arguments normalizePostDetail : simpl never.
#[local] Arguments normalizeCategoryPage : simpl never.
#[local] Arguments normalizeDate : simpl never.
#[local] Arguments nextPageTarget : simpl never.
#[local] Arguments JsString.truthy : simpl never.
#[local] Arguments Js.truthy : simpl never.
#[local] Arguments isStagehandSessionError : simpl never.
#[local] Arguments errorTypeOf : simpl never.
#[local] Arguments bumpError : simpl never.
#[local] Arguments attemptLoop : simpl never.
#[local] Arguments postsLoop : simpl never.
#[local] Arguments pageLoop : simpl never.

Section RetryFacts.
Variable host : Host.
Variable backend : nat -> Response.
Variable s : Section.

Local Abbreviation attemptBody := (attemptBody host backend).
Local Abbreviation attemptLoop := (attemptLoop host backend).




(** A successful attempt: the detail is there, the counter is back to 0. *)
Lemma attemptBody_success (attempt : nat) (u : string) (w : World) (v : JSValue) :
  backend (tick w) = Resolves v ->
  attemptBody attempt s u w
  = (Returned (AttemptBreak (Some (normalizePostDetail host v u s))),
     setHealthW {| sessionHealthy := sessionHealthy (health w);
                   consecutiveSessionErrors := 0 |}
       (advance (record (Called (CExtractPost u (slug s))) w))).
Proof.
  intros H. unfold attemptBody, tryCatch, extractPostDetail, bind, external.
  rewrite H. reflexivity.
Qed.

(** A session error before the last attempt: back off, then retry. *)
Lemma attemptBody_session_retry (attempt : nat) (u : string) (w : World) (e : JsError) :
  backend (tick w) = Rejects e ->
  isStagehandSessionError e = true ->
  attempt <> maxAttempts ->
  attemptBody attempt s u w
  = (Returned AttemptRetry,
     record (Slept (attempt * 1000))
       (setReport (setErrors (bumpError (errorTypeOf e true)))
          (advance (record (Called (CExtractPost u (slug s))) w)))).
Proof.
  intros H He Hk. unfold attemptBody, tryCatch, extractPostDetail, bind, external.
  rewrite H. unfold attemptCatch, bind. rewrite He. simpl.
  apply Nat.eqb_neq in Hk. rewrite Hk. reflexivity.
Qed.

(** A session error on the last attempt: the counter goes up by one, and
    at the threshold the section is marked failed and the flag drops. *)
Lemma attemptBody_session_last (u : string) (w : World) (e : JsError) :
  backend (tick w) = Rejects e ->
  isStagehandSessionError e = true ->
  let w1 := setReport (setErrors (bumpError (errorTypeOf e true)))
              (advance (record (Called (CExtractPost u (slug s))) w)) in
  let c := consecutiveSessionErrors (health w) + 1 in
  attemptBody maxAttempts s u w
  = (Returned (AttemptBreak None),
     if SESSION_ERROR_POST_THRESHOLD <=? c then
       setHealthW {| sessionHealthy := false; consecutiveSessionErrors := c |}
         (setReport (setStatus (insert (slug s) SessionFailed)) w1)
     else
       setHealthW {| sessionHealthy := sessionHealthy (health w);
                     consecutiveSessionErrors := c |} w1).
Proof.
  intros H He w1 c. unfold attemptBody, tryCatch, extractPostDetail, bind, external.
  rewrite H. unfold attemptCatch, bind. rewrite He. simpl. fold c.
  destruct (SESSION_ERROR_POST_THRESHOLD <=? c); reflexivity.
Qed.

(** Any other error: no retry, nothing changes in the monitor. *)
Lemma attemptBody_other_error (attempt : nat) (u : string) (w : World) (e : JsError) :
  backend (tick w) = Rejects e ->
  isStagehandSessionError e = false ->
  attemptBody attempt s u w
  = (Returned (AttemptBreak None),
     setReport (setErrors (bumpError (errorTypeOf e false)))
       (advance (record (Called (CExtractPost u (slug s))) w))).
Proof.
  intros H He. unfold attemptBody, tryCatch, extractPostDetail, bind, external.
  rewrite H. unfold attemptCatch, bind. rewrite He. reflexivity.
Qed.


Lemma attemptLoop_S (remaining attempt : nat) (u : string) :
  attemptLoop (S remaining) attempt s u
  = (r <- attemptBody attempt s u ;;
     match r with
     | AttemptBreak detail => ret detail
     | AttemptRetry => attemptLoop remaining (S attempt) s u
     end).
Proof. reflexivity. Qed.


Lemma attemptLoop_success (remaining attempt : nat) (u : string) (w : World) (v : JSValue) :
  backend (tick w) = Resolves v ->
  attemptLoop (S remaining) attempt s u w
  = (Returned (Some (normalizePostDetail host v u s)),
     setHealthW {| sessionHealthy := sessionHealthy (health w);
                   consecutiveSessionErrors := 0 |}
       (advance (record (Called (CExtractPost u (slug s))) w))).
Proof.
  intros H. rewrite attemptLoop_S. unfold bind at 1.
  rewrite (attemptBody_success attempt u w v H). reflexivity.
Qed.



End RetryFacts.

(* ===================================================================== *)
(** * Composing computations that keep to a relation                     *)
(* ===================================================================== *)

Section Respects.
Variable R : World -> World -> Prop.
Hypothesis R_refl : forall w, R w w.
Hypothesis R_trans : forall w1 w2 w3, R w1 w2 -> R w2 w3 -> R w1 w3.

Lemma respects_ret {A} (a : A) : respects R (ret a).
Proof. intros w. apply R_refl. Qed.

Lemma respects_throw {A} (e : JsError) : respects R (@throw A e).
Proof. intros w. apply R_refl. Qed.

Lemma respects_gets {A} (f : World -> A) : respects R (gets f).
Proof. intros w. apply R_refl. Qed.

Lemma respects_modify (f : World -> World) :
  (forall w, R w (f w)) -> respects R (modify f).
Proof. intros H w. apply H. Qed.

Lemma respects_bind {A B} (m : M A) (k : A -> M B) :
  respects R m -> (forall a, respects R (k a)) -> respects R (bind m k).
Proof.
  intros Hm Hk w. unfold bind. specialize (Hm w).
  destruct (m w) as [[a|e] w1]; simpl in *; [|exact Hm].
  eapply R_trans; [exact Hm|apply Hk].
Qed.

Lemma respects_tryCatch {A} (m : M A) (h : JsError -> M A) :
  respects R m -> (forall e, respects R (h e)) -> respects R (tryCatch m h).
Proof.
  intros Hm Hh w. unfold tryCatch. specialize (Hm w).
  destruct (m w) as [[a|e] w1]; simpl in *; [exact Hm|].
  eapply R_trans; [exact Hm|apply Hh].
Qed.

Lemma respects_swallow (m : M unit) : respects R m -> respects R (swallow m).
Proof. intros H. apply respects_tryCatch; [exact H|]. intros e. apply respects_ret. Qed.

End Respects.

(* ===================================================================== *)
(** * Steps outside the retry logic                                      *)
(* ===================================================================== *)

Section QuietFacts.
Variable host : Host.
Variable backend : nat -> Response.

Lemma Quiet_refl (w : World) : Quiet w w.
Proof.
  split; try reflexivity. exists []. split; [|constructor].
  unfold extends. now rewrite app_nil_r.
Qed.

Lemma Quiet_trans (w1 w2 w3 : World) : Quiet w1 w2 -> Quiet w2 w3 -> Quiet w1 w3.
Proof.
  intros [S1 H1 T1 D1 K1 (d1 & E1 & F1)] [S2 H2 T2 D2 K2 (d2 & E2 & F2)].
  split; try congruence; [lia|].
  exists (d1 ++ d2)%list. split.
  - unfold extends in *. now rewrite E2, E1, app_assoc.
  - apply Forall_app. split; [exact F1|].
    rewrite H1 in F2. exact F2.
Qed.

Lemma Quiet_report (f : RunReport -> RunReport) (w : World) :
  sectionStatus (f (runReport w)) = sectionStatus (runReport w) ->
  dom (sections (f (runReport w))) = dom (sections (runReport w)) ->
  Quiet w (setReport f w).
Proof.
  intros Hs Hd. split; simpl; auto. exists []. split; [|constructor].
  unfold extends. simpl. now rewrite app_nil_r.
Qed.

Lemma Quiet_record (a : Action) (w : World) :
  isExtractPost {| ev_healthy := sessionHealthy (health w); ev_action := a |} = false ->
  Quiet w (record a w).
Proof.
  intros Ha. split; simpl; auto. eexists. split; [reflexivity|].
  constructor; [|constructor]. split; [reflexivity|exact Ha].
Qed.

Lemma Quiet_advance (w : World) : Quiet w (advance w).
Proof.
  split; simpl; auto. exists []. split; [|constructor].
  unfold extends. simpl. now rewrite app_nil_r.
Qed.

Local Abbreviation quiet := (respects Quiet).

Lemma quiet_external (c : Call) :
  (forall u sl, c <> CExtractPost u sl) -> quiet (external backend c).
Proof.
  intros Hc w. unfold external.
  assert (Quiet w (advance (record (Called c) w))) as H.
  { eapply Quiet_trans; [|apply Quiet_advance]. apply Quiet_record.
    unfold isExtractPost. simpl. destruct c; try reflexivity.
    now contradiction (Hc postUrl sectionSlug). }
  destruct (backend (tick w)); exact H.
Qed.

Lemma quiet_sleep (ms : nat) : quiet (sleep ms).
Proof. intros w. apply Quiet_record. reflexivity. Qed.

Lemma quiet_updateTotals (f : Totals -> Totals) : quiet (updateTotals f).
Proof. intros w. apply Quiet_report; reflexivity. Qed.

Lemma quiet_countError (t : string) : quiet (countError t).
Proof. intros w. apply Quiet_report; reflexivity. Qed.

Lemma quiet_updateSectionStats (sl : string) (f : SectionRunStats -> SectionRunStats) :
  quiet (updateSectionStats sl f).
Proof.
  intros w. unfold updateSectionStats.
  destruct (sections (runReport w) !! sl) as [st|] eqn:E; simpl.
  - apply Quiet_report; [reflexivity|]. simpl.
    rewrite dom_insert_L. apply elem_of_dom_2 in E.
    apply subseteq_union_1_L, singleton_subseteq_l. exact E.
  - apply Quiet_refl.
Qed.

Lemma quiet_readSectionStats (sl : string) : quiet (readSectionStats sl).
Proof.
  intros w. unfold readSectionStats.
  destruct (sections (runReport w) !! sl); apply Quiet_refl.
Qed.

Ltac quiet_tac :=
  repeat first
    [ apply quiet_sleep | apply quiet_updateTotals | apply quiet_countError
    | apply quiet_updateSectionStats | apply quiet_readSectionStats
    | apply quiet_external; intros; discriminate
    | apply respects_ret; apply Quiet_refl
    | apply respects_throw; apply Quiet_refl
    | apply respects_gets; apply Quiet_refl
    | apply respects_swallow; [apply Quiet_refl|apply Quiet_trans|]
    | apply respects_bind; [apply Quiet_trans| |intros ?]
    | apply respects_tryCatch; [apply Quiet_trans| |intros ?]
    | match goal with
      | |- respects _ (if ?b then _ else _) => destruct b
      | |- respects _ (match ?x with _ => _ end) => destruct x
      end ].

Lemma quiet_extractCategoryPage (s : Section) (url : string) :
  quiet (extractCategoryPage backend s url).
Proof. unfold extractCategoryPage. quiet_tac. Qed.

Lemma quiet_debugExtract (s : Section) (url : string) (n : nat) :
  quiet (debugExtract backend s url n).
Proof. unfold debugExtract. quiet_tac. Qed.

Lemma quiet_savePost (s : Section) (d : PostDetail) :
  quiet (savePost host backend s d).
Proof. unfold savePost. cbv zeta. quiet_tac. Qed.

End QuietFacts.

(* ===================================================================== *)
(** * The retry loop under any environment                               *)
(* ===================================================================== *)

Section AttemptFacts.
Variable host : Host.
Variable backend : nat -> Response.
Variable s : Section.

Local Abbreviation attemptBody := (attemptBody host backend).
Local Abbreviation attemptLoop := (attemptLoop host backend).

Lemma Attempted_refl (u : string) (n : nat) (w : World) :
  Attempted (slug s) u n w w.
Proof.
  split; auto; try congruence. exists []. repeat split.
  - unfold extends. now rewrite app_nil_r.
  - constructor.
  - simpl. lia.
Qed.

(** One failed attempt that leads to a retry, then the rest of the loop. *)
Lemma Attempted_step (u : string) (n : nat) (w w1 w' : World) :
  Attempted (slug s) u 1 w w1 ->
  health w1 = health w ->
  Attempted (slug s) u n w1 w' ->
  Attempted (slug s) u (S n) w w'.
Proof.
  intros [S1 C1 T1 K1 (d1 & E1 & F1 & L1) M1 X1 Y1] Hh
         [S2 C2 T2 K2 (d2 & E2 & F2 & L2) M2 X2 Y2].
  split; try congruence; try lia; auto.
  - exists (d1 ++ d2)%list. repeat split.
    + unfold extends in *. now rewrite E2, E1, app_assoc.
    + apply Forall_app. split; [exact F1|]. now rewrite Hh in F2.
    + rewrite filter_app, length_app. lia.
  - intros H1 H2. apply X2; [exact H1|]. now rewrite Hh.
Qed.

Lemma Attempted_weaken (u : string) (n n' : nat) (w w' : World) :
  n <= n' -> Attempted (slug s) u n w w' -> Attempted (slug s) u n' w w'.
Proof.
  intros Hn [S1 C1 T1 K1 (d1 & E1 & F1 & L1) M1 X1 Y1].
  split; auto. exists d1. repeat split; auto. lia.
Qed.

Ltac attempted_explicit :=
  split; simpl;
  try solve
    [ auto | congruence | lia | intros; apply lookup_insert_eq
    | eexists; split; [unfold extends; simpl; rewrite <- ?app_assoc; reflexivity|];
      split; [repeat constructor; simpl; unfold isAttemptOrBackoff; simpl; eauto
             | vm_compute; lia ] ].

Lemma attemptBody_spec (attempt : nat) (u : string) (w : World) :
  exists r,
    fst (attemptBody attempt s u w) = Returned r
    /\ Attempted (slug s) u 1 w (snd (attemptBody attempt s u w))
    /\ (r = AttemptRetry ->
        health (snd (attemptBody attempt s u w)) = health w
        /\ attempt <> maxAttempts).
Proof.
  destruct (backend (tick w)) as [v|e] eqn:B.
  - rewrite (attemptBody_success host backend s attempt u w v B). simpl.
    eexists. split; [reflexivity|]. split; [|discriminate].
    attempted_explicit.
  - destruct (isStagehandSessionError e) eqn:E.
    + destruct (Nat.eq_dec attempt maxAttempts) as [->|Hne].
      * rewrite (attemptBody_session_last host backend s u w e B E). simpl.
        eexists. split; [reflexivity|]. split; [|discriminate].
        destruct (SESSION_ERROR_POST_THRESHOLD <=? _);
          attempted_explicit.
      * rewrite (attemptBody_session_retry host backend s attempt u w e B E Hne).
        simpl. eexists. split; [reflexivity|]. split; [|auto].
        attempted_explicit.
    + rewrite (attemptBody_other_error host backend s attempt u w e B E). simpl.
      eexists. split; [reflexivity|]. split; [|discriminate].
      attempted_explicit.
Qed.

(** The retry loop never throws; it makes at most [remaining] attempts. *)
Lemma attemptLoop_spec (remaining attempt : nat) (u : string) (w : World) :
  (exists detail, fst (attemptLoop remaining attempt s u w) = Returned detail)
  /\ Attempted (slug s) u remaining w (snd (attemptLoop remaining attempt s u w)).
Proof.
  revert attempt w. induction remaining as [|remaining IH]; intros attempt w.
  - split; [unfold attemptLoop, ret; simpl; eauto|apply Attempted_refl].
  - rewrite (attemptLoop_S host backend s). unfold bind.
    destruct (attemptBody_spec attempt u w) as (r & Hr & Ha & Hretry).
    destruct (attemptBody attempt s u w) as [o w1]. simpl in *. subst o.
    destruct r as [detail|].
    + simpl. split; [eauto|].
      eapply Attempted_weaken; [|exact Ha]. lia.
    + destruct (Hretry eq_refl) as [Hh _].
      destruct (IH (S attempt) w1) as [Hd Hl].
      split; [exact Hd|]. eapply Attempted_step; eauto.
Qed.

End AttemptFacts.

(* ===================================================================== *)
(** * The loops of a section crawl                                       *)
(* ===================================================================== *)

Section CrawlFacts.
Variable host : Host.
Variable backend : nat -> Response.
Variable s : Section.

Local Abbreviation Crawl := (Crawled (slug s)).

Lemma Crawled_refl (w : World) : Crawl w w.
Proof.
  split; [reflexivity|reflexivity|lia| |auto|auto|auto].
  exists []. split; [|constructor].
  unfold extends. now rewrite app_nil_r.
Qed.

Lemma avoids_mono (seen seen' : gset string) (ev : Event) :
  seen ⊆ seen' -> avoids seen' ev -> avoids seen ev.
Proof. intros Hs Ha u sl Hev Hin. apply (Ha u sl Hev). now apply Hs. Qed.

Lemma Crawled_trans (w1 w2 w3 : World) : Crawl w1 w2 -> Crawl w2 w3 -> Crawl w1 w3.
Proof.
  intros [S1 D1 K1 (d1 & E1 & F1) M1 P1 C1] [S2 D2 K2 (d2 & E2 & F2) M2 P2 C2].
  split; [|congruence|lia| |auto| |auto].
  - now transitivity (seenUrls w2).
  - exists (d1 ++ d2)%list. split.
    + unfold extends in *. now rewrite E2, E1, app_assoc.
    + apply Forall_app. split; [exact F1|].
      eapply Forall_impl; [exact F2|]. intros ev [Hh Ha].
      split; [exact Hh|]. eapply avoids_mono; eauto.
  - intros H. destruct (P1 H) as (T1 & U1 & V1).
    assert (sessionHealthy (health w2) = false) as H2.
    { destruct (sessionHealthy (health w2)) eqn:E; [|reflexivity].
      rewrite (M1 eq_refl) in H. discriminate. }
    destruct (P2 H2) as (T2 & U2 & V2). repeat split; congruence.
Qed.

Lemma Quiet_Crawled (w w' : World) :
  Quiet w w' -> sessionHealthy (health w) = true -> Crawl w w'.
Proof.
  intros [S1 H1 T1 D1 K1 (d1 & E1 & F1)] Hh.
  split; [now rewrite S1|exact D1|exact K1| |congruence|congruence|].
  - exists d1. split; [exact E1|].
    eapply Forall_impl; [exact F1|]. intros ev [Ht Hx].
    split; [congruence|]. intros u sl Hev. unfold isExtractPost in Hx.
    rewrite Hev in Hx. discriminate.
  - intros _. unfold Consistent. rewrite H1, Hh. discriminate.
Qed.

(** A quiet step, then a continuation that crawls. *)
Lemma Crawled_bind_quiet {A B} (m : M A) (k : A -> M B) (w : World) :
  respects Quiet m ->
  sessionHealthy (health w) = true ->
  (forall a w1, sessionHealthy (health w1) = true -> Crawl w1 (snd (k a w1))) ->
  Crawl w (snd (bind m k w)).
Proof.
  intros Hm Hh Hk. unfold bind. specialize (Hm w).
  assert (sessionHealthy (health (snd (m w))) = true) as Hh1.
  { rewrite (q_health _ _ Hm). exact Hh. }
  destruct (m w) as [[a|e] w1]; simpl in *.
  - eapply Crawled_trans; [apply Quiet_Crawled; eauto|]. now apply Hk.
  - now apply Quiet_Crawled.
Qed.

(** The retry loop for a URL that was just added to the set. *)
Lemma Attempted_Crawled (u : string) (n : nat) (w w2 : World) :
  sessionHealthy (health w) = true ->
  u ∉ seenUrls w ->
  Attempted (slug s) u n (setSeen (fun x => {[u]} ∪ x) w) w2 ->
  Crawl w w2.
Proof.
  intros Hh Hu [S1 C1 T1 K1 (d1 & E1 & F1 & L1) M1 X1 Y1]. simpl in *.
  split; [| |exact K1| |exact M1|congruence|].
  - rewrite S1. apply union_subseteq_r.
  - now rewrite C1.
  - exists d1. split; [exact E1|].
    eapply Forall_impl; [exact F1|]. intros ev [Ht Hx].
    split; [congruence|]. intros u' sl Hev Hin.
    destruct Hx as [Hx|[ms Hx]]; rewrite Hx in Hev; [|discriminate].
    injection Hev as <- _. contradiction.
  - intros _ H. now apply X1.
Qed.

Lemma postsLoop_cons (summary : PostSummary) (rest : list PostSummary) (n : nat) :
  postsLoop host backend s (summary :: rest) n
  = (healthy <- gets (fun w => sessionHealthy (health w)) ;;
     if negb healthy then ret n
     else if negb (isValidPostUrl (Some (sm_url summary)))
     then postsLoop host backend s rest n
     else
       let u := normalizePostUrl host (sm_url summary) (baseUrl s) in
       seen <- gets (fun w => bool_decide (u ∈ seenUrls w)) ;;
       if (seen : bool) then postsLoop host backend s rest n
       else
         modify (setSeen (fun x => {[ u ]} ∪ x)) ;;
         detail <- attemptLoop host backend maxAttempts 1 s u ;;
         stillHealthy <- gets (fun w => sessionHealthy (health w)) ;;
         if negb stillHealthy then ret n
         else
           match detail with
           | None =>
               updateSectionStats (slug s) addPostsFailed ;;
               updateTotals addPostsFailedT ;;
               postsLoop host backend s rest n
           | Some d =>
               savePost host backend s d ;;
               postsLoop host backend s rest (n + 1)
           end).
Proof. reflexivity. Qed.

Lemma pageLoop_S (remaining pageNum : nat) (cur : option string) (tn : nat) :
  pageLoop host backend (S remaining) pageNum s cur tn
  = match cur with
    | None => ret tn
    | Some url =>
        healthy <- gets (fun w => sessionHealthy (health w)) ;;
        if negb (JsString.truthy url && healthy) then ret tn
        else
          (if 1 <? pageNum
           then _ <- external backend (CGoto url) ;; sleep 3000
           else ret tt) ;;
          updateTotals addCategoryPagesVisitedT ;;
          updateSectionStats (slug s) addPagesVisited ;;
          r <- tryCatch (pageBody host backend s pageNum url tn) (pageCatch s) ;;
          match r with
          | PageNext next tn' =>
              pageLoop host backend remaining (S pageNum) s next tn'
          | PageBreak => ret tn
          end
    end.
Proof. reflexivity. Qed.

Lemma postsLoop_Crawled (summaries : list PostSummary) (n : nat) (w : World) :
  Crawl w (snd (postsLoop host backend s summaries n w)).
Proof.
  revert n w. induction summaries as [|summary rest IH]; intros n w.
  - apply Crawled_refl.
  - rewrite postsLoop_cons. unfold bind at 1. unfold gets at 1.
    destruct (sessionHealthy (health w)) eqn:Hh; simpl; [|apply Crawled_refl].
    destruct (isValidPostUrl (Some (sm_url summary))); simpl; [|apply IH].
    set (u := normalizePostUrl host (sm_url summary) (baseUrl s)).
    unfold bind at 1. unfold gets at 1.
    destruct (bool_decide (u ∈ seenUrls w)) eqn:Hseen; [apply IH|].
    apply bool_decide_eq_false in Hseen.
    unfold bind at 1. unfold modify at 1.
    unfold bind at 1.
    destruct (attemptLoop_spec host backend s maxAttempts 1 u
                (setSeen (fun x => {[u]} ∪ x) w)) as [[detail Hd] Ha].
    destruct (attemptLoop host backend maxAttempts 1 s u
                (setSeen (fun x => {[u]} ∪ x) w)) as [o w2].
    simpl in Hd, Ha. subst o.
    pose proof (Attempted_Crawled u _ w w2 Hh Hseen Ha) as Hc.
    unfold bind at 1. unfold gets at 1.
    destruct (sessionHealthy (health w2)) eqn:Hh2; simpl; [|exact Hc].
    eapply Crawled_trans; [exact Hc|].
    destruct detail as [d|].
    + apply Crawled_bind_quiet; [apply quiet_savePost|exact Hh2|].
      intros _ w3 _. apply IH.
    + apply Crawled_bind_quiet; [apply quiet_updateSectionStats|exact Hh2|].
      intros _ w3 Hh3.
      apply Crawled_bind_quiet; [apply quiet_updateTotals|exact Hh3|].
      intros _ w4 _. apply IH.
Qed.

Lemma pageBody_Crawled (pageNum : nat) (url : string) (tn : nat) (w : World) :
  sessionHealthy (health w) = true ->
  Crawl w (snd (pageBody host backend s pageNum url tn w)).
Proof.
  intros Hh. unfold pageBody.
  apply Crawled_bind_quiet; [apply quiet_extractCategoryPage|exact Hh|].
  intros result w1 Hh1.
  apply Crawled_bind_quiet; [|exact Hh1|].
  { destruct (length (posts result) =? 0);
      [apply quiet_debugExtract|apply respects_ret, Quiet_refl]. }
  intros _ w2 Hh2.
  apply Crawled_bind_quiet; [apply quiet_updateSectionStats|exact Hh2|].
  intros _ w3 Hh3.
  apply Crawled_bind_quiet; [apply quiet_updateTotals|exact Hh3|].
  intros _ w4 _. unfold bind.
  pose proof (postsLoop_Crawled (posts result) 0 w4) as Hp.
  destruct (postsLoop host backend s (posts result) 0 w4) as [[k|e] w5]; exact Hp.
Qed.

Lemma pageCatch_Crawled (e : JsError) (w : World) :
  Crawl w (snd (pageCatch s e w)).
Proof.
  unfold pageCatch, bind.
  destruct (isStagehandSessionError e); simpl; [|apply Crawled_refl].
  split; simpl; [reflexivity|reflexivity|lia| |discriminate|auto|].
  - exists []. split; [|constructor]. unfold extends. simpl. now rewrite app_nil_r.
  - intros _ _. apply lookup_insert_eq.
Qed.

Lemma pageTry_Crawled (pageNum : nat) (url : string) (tn : nat) (w : World) :
  sessionHealthy (health w) = true ->
  Crawl w (snd (tryCatch (pageBody host backend s pageNum url tn) (pageCatch s) w)).
Proof.
  intros Hh. unfold tryCatch. pose proof (pageBody_Crawled pageNum url tn w Hh) as Hb.
  destruct (pageBody host backend s pageNum url tn w) as [[r|e] w1]; simpl in *;
    [exact Hb|].
  eapply Crawled_trans; [exact Hb|apply pageCatch_Crawled].
Qed.

Lemma pageLoop_Crawled (remaining pageNum : nat) (cur : option string)
      (tn : nat) (w : World) :
  Crawl w (snd (pageLoop host backend remaining pageNum s cur tn w)).
Proof.
  revert pageNum cur tn w.
  induction remaining as [|remaining IH]; intros pageNum cur tn w;
    [apply Crawled_refl|].
  rewrite pageLoop_S. destruct cur as [url|]; [|apply Crawled_refl].
  unfold bind at 1. unfold gets at 1.
  destruct (JsString.truthy url); simpl; [|apply Crawled_refl].
  destruct (sessionHealthy (health w)) eqn:Hh; simpl; [|apply Crawled_refl].
  apply Crawled_bind_quiet; [|exact Hh|].
  { destruct (1 <? pageNum); [|apply respects_ret, Quiet_refl].
    apply respects_bind; [apply Quiet_trans| |intros ?].
    - apply quiet_external. intros; discriminate.
    - apply quiet_sleep. }
  intros _ w1 Hh1.
  apply Crawled_bind_quiet; [apply quiet_updateTotals|exact Hh1|].
  intros _ w2 Hh2.
  apply Crawled_bind_quiet; [apply quiet_updateSectionStats|exact Hh2|].
  intros _ w3 Hh3. unfold bind.
  pose proof (pageTry_Crawled pageNum url tn w3 Hh3) as Ht.
  destruct (tryCatch (pageBody host backend s pageNum url tn) (pageCatch s) w3)
    as [[r|e] w4]; simpl in *; [|exact Ht].
  destruct r as [next tn'|]; [|exact Ht].
  eapply Crawled_trans; [exact Ht|apply IH].
Qed.

(** The whole crawl of a section, from the fresh monitor it starts with. *)
Lemma scrapeSection_Crawled (maxPages : nat) (w : World) :
  Crawl (setHealthW freshHealth w) (snd (scrapeSection host backend s maxPages w)).
Proof.
  unfold scrapeSection. unfold bind at 1. unfold modify at 1.
  apply Crawled_bind_quiet; [|reflexivity|].
  { apply quiet_external. intros; discriminate. }
  intros _ w1 Hh1.
  apply Crawled_bind_quiet; [apply quiet_sleep|exact Hh1|].
  intros _ w2 _. apply pageLoop_Crawled.
Qed.

End CrawlFacts.

(* ===================================================================== *)
(** * The set of seen URLs across the run                                *)
(* ===================================================================== *)

Section DedupFacts.
Variable host : Host.
Variable backend : nat -> Response.

Lemma Dedup_refl (w : World) : Dedup w w.
Proof.
  split; [reflexivity|]. exists []. split; [|constructor].
  unfold extends. now rewrite app_nil_r.
Qed.

Lemma Dedup_trans (w1 w2 w3 : World) : Dedup w1 w2 -> Dedup w2 w3 -> Dedup w1 w3.
Proof.
  intros [S1 (d1 & E1 & F1)] [S2 (d2 & E2 & F2)]. split.
  - now transitivity (seenUrls w2).
  - exists (d1 ++ d2)%list. split.
    + unfold extends in *. now rewrite E2, E1, app_assoc.
    + apply Forall_app. split; [exact F1|].
      eapply Forall_impl; [exact F2|]. intros ev Ha.
      eapply avoids_mono; eauto.
Qed.

Lemma Quiet_Dedup (w w' : World) : Quiet w w' -> Dedup w w'.
Proof.
  intros [S1 H1 T1 D1 K1 (d1 & E1 & F1)]. split; [now rewrite S1|].
  exists d1. split; [exact E1|].
  eapply Forall_impl; [exact F1|]. intros ev [_ Hx] u sl Hev.
  unfold isExtractPost in Hx. rewrite Hev in Hx. discriminate.
Qed.

Lemma Crawled_Dedup (sl : string) (w w' : World) : Crawled sl w w' -> Dedup w w'.
Proof.
  intros [S1 D1 K1 (d1 & E1 & F1) M1 P1 C1]. split; [exact S1|].
  exists d1. split; [exact E1|].
  eapply Forall_impl; [exact F1|]. now intros ev [_ Hx].
Qed.

Lemma Dedup_KeepsOut (u : string) (w w' : World) :
  Dedup w w' -> u ∈ seenUrls w -> KeepsOut u w w'.
Proof.
  intros [S1 (d1 & E1 & F1)] Hu. split; [now apply S1|].
  exists d1. split; [exact E1|]. intros ev sl Hev Hact.
  rewrite Forall_forall in F1. exact (F1 ev Hev u sl Hact Hu).
Qed.

Local Abbreviation dedup := (respects Dedup).

Lemma dedup_quiet {A} (m : M A) : respects Quiet m -> dedup m.
Proof. intros H w. apply Quiet_Dedup, H. Qed.

Lemma dedup_setSectionStatus (sl : string) (st : SectionStatus) :
  dedup (setSectionStatus sl st).
Proof.
  intros w. split; simpl; [reflexivity|]. exists []. split; [|constructor].
  unfold extends. simpl. now rewrite app_nil_r.
Qed.

Lemma dedup_postsLoop (s : Section) (summaries : list PostSummary) (n : nat) :
  dedup (postsLoop host backend s summaries n).
Proof. intros w. eapply Crawled_Dedup, postsLoop_Crawled. Qed.

Lemma dedup_pageLoop (s : Section) (remaining pageNum : nat)
      (cur : option string) (tn : nat) :
  dedup (pageLoop host backend remaining pageNum s cur tn).
Proof. intros w. eapply Crawled_Dedup, pageLoop_Crawled. Qed.

Lemma dedup_scrapeSection (s : Section) (maxPages : nat) :
  dedup (scrapeSection host backend s maxPages).
Proof.
  intros w. pose proof (scrapeSection_Crawled host backend s maxPages w) as H.
  apply Crawled_Dedup in H. destruct H as [S1 T1]. split; assumption.
Qed.

Ltac dedup_tac :=
  repeat first
    [ apply dedup_scrapeSection
    | apply dedup_setSectionStatus
    | apply dedup_quiet; apply quiet_updateTotals
    | apply dedup_quiet; apply quiet_readSectionStats
    | apply dedup_quiet; apply quiet_external; intros; discriminate
    | apply respects_ret; apply Dedup_refl
    | apply respects_throw; apply Dedup_refl
    | apply respects_gets; apply Dedup_refl
    | apply respects_swallow; [apply Dedup_refl|apply Dedup_trans|]
    | apply respects_bind; [apply Dedup_trans| |intros ?]
    | apply respects_tryCatch; [apply Dedup_trans| |intros ?]
    | match goal with
      | |- respects _ (if ?b then _ else _) => destruct b
      | |- respects _ (match ?x with _ => _ end) => destruct x
      end ].

Lemma dedup_processSection (maxPages : nat) (s : Section) :
  dedup (processSection host backend maxPages s).
Proof.
  unfold processSection, sectionTry, sectionCatch, sectionFinally,
    sectionCheckpoint.
  dedup_tac.
Qed.

Lemma dedup_runSections (maxPages : nat) (todo : list Section) (tn : nat) :
  dedup (runSections host backend maxPages todo tn).
Proof.
  revert tn. induction todo as [|s rest IH]; intros tn; simpl.
  - apply respects_ret, Dedup_refl.
  - apply respects_bind; [apply Dedup_trans|apply dedup_processSection|].
    intros n. apply IH.
Qed.

End DedupFacts.

(** C4.  A URL of the shared set stays in it, and no detail extraction is
    issued for it again: not by the rest of the page on which it is listed
    once more, not by the later pages of the section, not by another section,
    not by the run as a whole, which starts from the URLs the store already
    has and hands the one set from section to section. *)
Theorem seen_url_never_extracted_again
        (host : Host) (backend : nat -> Response) (u : string) (w : World) :
  u ∈ seenUrls w ->
  (forall s summaries n,
      KeepsOut u w (snd (postsLoop host backend s summaries n w)))
  /\ (forall s remaining pageNum cur tn,
         KeepsOut u w (snd (pageLoop host backend remaining pageNum s cur tn w)))
  /\ (forall s maxPages,
         KeepsOut u w (snd (scrapeSection host backend s maxPages w)))
  /\ (forall maxPages s,
         KeepsOut u w (snd (processSection host backend maxPages s w)))
  /\ (forall maxPages todo tn,
         KeepsOut u w (snd (runSections host backend maxPages todo tn w)))
  /\ (forall maxPages existing,
         w = initialWorld existing ->
         seenUrls w = existing
         /\ KeepsOut u w (snd (mainCrawl host backend maxPages existing))).
Proof.
  intros Hu. split; [|split; [|split; [|split; [|split]]]]; intros.
  - apply Dedup_KeepsOut; [apply dedup_postsLoop|exact Hu].
  - apply Dedup_KeepsOut; [apply dedup_pageLoop|exact Hu].
  - apply Dedup_KeepsOut; [apply dedup_scrapeSection|exact Hu].
  - apply Dedup_KeepsOut; [apply dedup_processSection|exact Hu].
  - apply Dedup_KeepsOut; [apply dedup_runSections|exact Hu].
  - subst w. split; [reflexivity|]. unfold mainCrawl.
    apply Dedup_KeepsOut; [apply dedup_runSections|exact Hu].
Qed.

(* ===================================================================== *)
(** * The health flag                                                    *)
(* ===================================================================== *)

Section HealthFacts.
Variable host : Host.
Variable backend : nat -> Response.
Variable s : Section.



Lemma pageLoop_done (remaining pageNum tn : nat) (w : World) :
  pageLoop host backend remaining pageNum s None tn w = (Returned tn, w).
Proof. destruct remaining; reflexivity. Qed.

Lemma scrapeSection_fresh (maxPages : nat) (w : World) (h : Health) :
  scrapeSection host backend s maxPages (setHealthW h w)
  = scrapeSection host backend s maxPages w.
Proof. reflexivity. Qed.




Lemma quiet_sectionFinally : respects Quiet (sectionFinally backend).
Proof.
  unfold sectionFinally.
  repeat first
    [ apply quiet_external; intros; discriminate
    | apply respects_ret; apply Quiet_refl
    | apply respects_swallow; [apply Quiet_refl|apply Quiet_trans|]
    | apply respects_bind; [apply Quiet_trans| |intros ?] ].
Qed.

Lemma quiet_sectionCheckpoint : respects Quiet (sectionCheckpoint backend s).
Proof.
  unfold sectionCheckpoint.
  repeat first
    [ apply quiet_readSectionStats
    | apply quiet_external; intros; discriminate
    | apply respects_ret; apply Quiet_refl
    | apply respects_gets; apply Quiet_refl
    | apply respects_swallow; [apply Quiet_refl|apply Quiet_trans|]
    | apply respects_bind; [apply Quiet_trans| |intros ?]
    | progress cbv zeta ].
Qed.


End HealthFacts.

(* ===================================================================== *)
(** * One new URL in the posts loop                                      *)
(* ===================================================================== *)

Section NewUrlFacts.
Variable host : Host.
Variable backend : nat -> Response.
Variable s : Section.

Local Abbreviation attemptLoop := (attemptLoop host backend).
Local Abbreviation postsLoop := (postsLoop host backend).

(** A valid URL that is not in the set: it is put into the set, then the
    retry loop runs, then the flag is looked at before anything else. *)
Lemma postsLoop_new_url (summary : PostSummary) (rest : list PostSummary)
      (n : nat) (w : World) :
  let u := normalizePostUrl host (sm_url summary) (baseUrl s) in
  sessionHealthy (health w) = true ->
  isValidPostUrl (Some (sm_url summary)) = true ->
  u ∉ seenUrls w ->
  postsLoop s (summary :: rest) n w
  = (let (o, w2) := attemptLoop maxAttempts 1 s u (setSeen (fun x => {[u]} ∪ x) w) in
     match o with
     | Returned detail =>
         if sessionHealthy (health w2) then
           match detail with
           | None =>
               (updateSectionStats (slug s) addPostsFailed ;;
                updateTotals addPostsFailedT ;;
                postsLoop s rest n) w2
           | Some d =>
               (savePost host backend s d ;; postsLoop s rest (n + 1)) w2
           end
         else (Returned n, w2)
     | Thrown e => (Thrown e, w2)
     end).
Proof.
  intros u Hh Hv Hu. rewrite postsLoop_cons. fold u.
  unfold bind at 1. unfold gets at 1. rewrite Hh. simpl. rewrite Hv. simpl.
  unfold bind at 1. unfold gets at 1. rewrite (bool_decide_eq_false_2 _ Hu).
  unfold bind at 1. unfold modify at 1. unfold bind at 1.
  destruct (attemptLoop maxAttempts 1 s u (setSeen (fun x => {[u]} ∪ x) w))
    as [[detail|e] w2]; [|reflexivity].
  unfold bind at 1. unfold gets at 1.
  destruct (sessionHealthy (health w2)); simpl; [|reflexivity].
  destruct detail; reflexivity.
Qed.

(** The world after a failed URL was counted. *)
Lemma count_failed (st : SectionRunStats) (k : M nat) (w : World) :
  sections (runReport w) !! slug s = Some st ->
  (updateSectionStats (slug s) addPostsFailed ;;
   updateTotals addPostsFailedT ;; k) w
  = k (setReport (setTotals addPostsFailedT)
         (setReport (setSections (insert (slug s) (addPostsFailed st))) w)).
Proof.
  intros Hst. unfold bind, updateSectionStats, updateTotals, modify.
  rewrite Hst. reflexivity.
Qed.


End NewUrlFacts.

(* ===================================================================== *)
(** * The pagination cursor                                              *)
(* ===================================================================== *)

Section CursorFacts.
Variable host : Host.
Variable backend : nat -> Response.
Variable s : Section.

Lemma bind_Returned {A B} (m : M A) (k : A -> M B) (w w' : World) (b : B) :
  bind m k w = (Returned b, w') ->
  exists a w1, m w = (Returned a, w1) /\ k a w1 = (Returned b, w').
Proof.
  unfold bind. destruct (m w) as [[a|e] w1]; [eauto|discriminate].
Qed.

Lemma valid_pagination_truthy (hint : string) :
  isValidPaginationUrl (Some hint) = true -> JsString.truthy hint = true.
Proof.
  unfold isValidPaginationUrl, JsString.truthy.
  destruct (isEmpty hint); [discriminate|reflexivity].
Qed.

(** The decision table of the cursor. *)
Lemma nextPageTarget_table (pageNum : nat) (result : CategoryPageResult) :
  (forall hint,
      nextPageUrl result = Some hint ->
      isValidPaginationUrl (Some hint) = true ->
      nextPageTarget host s pageNum result
      = Some (normalizePostUrl host hint (baseUrl s)))
  /\ (isValidPaginationUrl (nextPageUrl result) = false ->
      posts result <> [] ->
      nextPageTarget host s pageNum result
      = Some (baseUrl s ++ "page/" ++ natToString (pageNum + 1) ++ "/"))
  /\ (isValidPaginationUrl (nextPageUrl result) = false ->
      posts result = [] ->
      nextPageTarget host s pageNum result = None).
Proof.
  unfold nextPageTarget. cbv zeta. repeat split.
  - intros hint -> Hv. now rewrite Hv, (valid_pagination_truthy hint Hv).
  - intros Hv Hp. rewrite Hv.
    assert ((0 <? length (posts result)) = true) as ->.
    { apply Nat.ltb_lt. destruct (posts result); [congruence|simpl; lia]. }
    destruct (nextPageUrl result); [now rewrite andb_false_r|reflexivity].
  - intros Hv Hp. rewrite Hv, Hp. simpl.
    destruct (nextPageUrl result); [now rewrite andb_false_r|reflexivity].
Qed.

(** A page whose [try] block runs to its end closes with the cursor's
    decision for the listing it extracted. *)
Lemma pageBody_returns (pageNum : nat) (url : string) (tn : nat)
      (w w' : World) (r : PageResult) :
  pageBody host backend s pageNum url tn w = (Returned r, w') ->
  exists raw tn',
    backend (tick w) = Resolves raw
    /\ r = PageNext (nextPageTarget host s pageNum (normalizeCategoryPage raw)) tn'.
Proof.
  unfold pageBody. intros H.
  apply bind_Returned in H as (result & w1 & H1 & H).
  unfold extractCategoryPage, bind, external in H1.
  destruct (backend (tick w)) as [raw|e]; [|discriminate].
  injection H1 as <- <-.
  apply bind_Returned in H as (? & w2 & _ & H).
  apply bind_Returned in H as (? & w3 & _ & H).
  apply bind_Returned in H as (? & w4 & _ & H).
  apply bind_Returned in H as (newThisPage & w5 & _ & H).
  injection H as <- <-. eauto.
Qed.

End CursorFacts.

(** C2.  A listing page whose iteration runs to its pagination step (the
    listing was extracted, and no store or file error cut the page short)
    sets the next target as follows: a hint that is present and passes the
    pagination validator gives its absolute form, whatever the number of
    summaries; with no accepted hint and at least one summary, the section
    base URL followed by [page/<n+1>/]; with no accepted hint and no summary,
    no target, which ends the page loop.  The page loop goes on with that
    target and the page number [n + 1]. *)
Theorem pagination_next_target
        (host : Host) (backend : nat -> Response) (s : Section)
        (pageNum : nat) (url : string) (totalNew : nat)
        (w w' : World) (r : PageResult) :
  pageBody host backend s pageNum url totalNew w = (Returned r, w') ->
  exists raw next totalNew',
    backend (tick w) = Resolves raw
    /\ r = PageNext next totalNew'
    /\ (forall hint,
           nextPageUrl (normalizeCategoryPage raw) = Some hint ->
           isValidPaginationUrl (Some hint) = true ->
           next = Some (normalizePostUrl host hint (baseUrl s)))
    /\ (isValidPaginationUrl (nextPageUrl (normalizeCategoryPage raw)) = false ->
        posts (normalizeCategoryPage raw) <> [] ->
        next = Some (baseUrl s ++ "page/" ++ natToString (pageNum + 1) ++ "/"))
    /\ (isValidPaginationUrl (nextPageUrl (normalizeCategoryPage raw)) = false ->
        posts (normalizeCategoryPage raw) = [] ->
        next = None)
    /\ (forall remaining w0,
           JsString.truthy url = true ->
           sessionHealthy (health w0) = true ->
           ((if 1 <? pageNum
             then _ <- external backend (CGoto url) ;; sleep 3000
             else ret tt) ;;
            updateTotals addCategoryPagesVisitedT ;;
            updateSectionStats (slug s) addPagesVisited) w0 = (Returned tt, w) ->
           pageLoop host backend (S remaining) pageNum s (Some url) totalNew w0
           = pageLoop host backend remaining (S pageNum) s next totalNew' w')
    /\ (forall remaining pageNum' tn w0,
           pageLoop host backend remaining pageNum' s None tn w0 = (Returned tn, w0)).
Proof.
  intros H.
  destruct (pageBody_returns host backend s pageNum url totalNew w w' r H)
    as (raw & tn' & B & ->).
  exists raw, (nextPageTarget host s pageNum (normalizeCategoryPage raw)), tn'.
  destruct (nextPageTarget_table host s pageNum (normalizeCategoryPage raw))
    as (T1 & T2 & T3).
  split; [exact B|]. split; [reflexivity|].
  split; [exact T1|]. split; [exact T2|]. split; [exact T3|]. split.
  - intros remaining w0 Hu Hh Hpre. rewrite pageLoop_S.
    unfold bind at 1. unfold gets at 1. rewrite Hu, Hh. simpl.
    unfold bind at 1.
    match type of Hpre with
    | (?a ;; ?b ;; ?c) w0 = _ =>
        apply bind_Returned in Hpre as ([] & w1 & Ha & Hpre);
        apply bind_Returned in Hpre as ([] & w2 & Hb & Hc)
    end.
    rewrite Ha. unfold bind at 1. rewrite Hb. unfold bind at 1. rewrite Hc.
    unfold bind at 1. unfold tryCatch. rewrite H. reflexivity.
  - intros. apply pageLoop_done.
Qed.

(* ===================================================================== *)
(** * The claims about the session health monitor and the retry loop     *)
(* ===================================================================== *)




(** C10, as the code has it.  A valid URL that is not in the set is put into
    the set before its first extraction attempt.  If all its attempts fail it
    is still in the set afterwards, nothing was issued for it but the
    attempts and the back-offs (no record went to the store), and no later
    listing, on this page, a later page or another section, has it attempted
    again.  If the monitor is still healthy after the attempts, the URL is
    counted as a failed detail and the loop goes on with the next URL; if
    the last session error dropped the flag, the loop stops there. *)
Theorem failed_url_stays_in_set
        (host : Host) (backend : nat -> Response) (s : Section)
        (summary : PostSummary) (rest : list PostSummary) (n : nat) (w : World) :
  let u := normalizePostUrl host (sm_url summary) (baseUrl s) in
  let w1 := setSeen (fun x => {[u]} ∪ x) w in
  let w2 := snd (attemptLoop host backend maxAttempts 1 s u w1) in
  sessionHealthy (health w) = true ->
  isValidPostUrl (Some (sm_url summary)) = true ->
  u ∉ seenUrls w ->
  (* in the set before the first attempt *)
  (u ∈ seenUrls w1 /\ trace w1 = trace w /\ tick w1 = tick w
   /\ exists k, postsLoop host backend s (summary :: rest) n w
                = bind (attemptLoop host backend maxAttempts 1 s u) k w1)
  /\ (fst (attemptLoop host backend maxAttempts 1 s u w1) = Returned None ->
      (* still in the set, and nothing but attempts and back-offs *)
      u ∈ seenUrls w2
      /\ (exists d, extends w w2 d /\ Forall (isAttemptOrBackoff u (slug s)) d)
      (* counted as failed when the flag is still up *)
      /\ (sessionHealthy (health w2) = true ->
          forall st, sections (runReport w) !! slug s = Some st ->
            exists w3,
              postsLoop host backend s (summary :: rest) n w
              = postsLoop host backend s rest n w3
              /\ sections (runReport w3) !! slug s = Some (addPostsFailed st)
              /\ totals (runReport w3) = addPostsFailedT (totals (runReport w))
              /\ seenUrls w3 = seenUrls w2
              /\ trace w3 = trace w2)
      (* the loop stops when the flag dropped *)
      /\ (sessionHealthy (health w2) = false ->
          postsLoop host backend s (summary :: rest) n w = (Returned n, w2))
      (* never attempted again *)
      /\ (forall w' : World,
             u ∈ seenUrls w' ->
             (forall s' summaries n',
                 KeepsOut u w' (snd (postsLoop host backend s' summaries n' w')))
             /\ (forall s' remaining pageNum cur tn,
                    KeepsOut u w'
                      (snd (pageLoop host backend remaining pageNum s' cur tn w')))
             /\ (forall maxPages todo tn,
                    KeepsOut u w'
                      (snd (runSections host backend maxPages todo tn w'))))).
Proof.
  intros u w1 w2 Hh Hv Hu.
  pose proof (postsLoop_new_url host backend s summary rest n w Hh Hv Hu) as Hstep.
  fold u w1 in Hstep.
  destruct (attemptLoop_spec host backend s maxAttempts 1 u w1) as [_ Ha].
  fold w2 in Ha.
  destruct Ha as [S1 C1 T1 K1 (d & E & F & L) M1 X1 Y1]. simpl in *.
  split.
  - split; [apply elem_of_union_l, elem_of_singleton; reflexivity|].
    split; [reflexivity|]. split; [reflexivity|].
    eexists. rewrite Hstep. unfold bind. reflexivity.
  - intros Hnone. split; [|split; [|split; [|split]]].
    + rewrite S1. apply elem_of_union_l, elem_of_singleton. reflexivity.
    + exists d. split; [exact E|].
      eapply Forall_impl; [exact F|]. now intros ev [_ H].
    + intros Hh2 st Hst. rewrite Hstep. subst w2.
      destruct (attemptLoop host backend maxAttempts 1 s u w1) as [o w2].
      simpl in *. subst o. rewrite Hh2.
      erewrite count_failed by (rewrite C1; exact Hst).
      eexists. split; [reflexivity|]. simpl.
      rewrite lookup_insert_eq, T1. repeat split.
    + intros Hh2. rewrite Hstep. subst w2.
      destruct (attemptLoop host backend maxAttempts 1 s u w1) as [o w2].
      simpl in *. subst o. now rewrite Hh2.
    + intros w' Hin. split; [|split]; intros.
      * apply Dedup_KeepsOut; [apply dedup_postsLoop|exact Hin].
      * apply Dedup_KeepsOut; [apply dedup_pageLoop|exact Hin].
      * apply Dedup_KeepsOut; [apply dedup_runSections|exact Hin].
Qed.

(* ===================================================================== *)
(** * The run report is written, never read for a decision               *)
(* ===================================================================== *)

Section ObliviousFacts.
Variable host : Host.
Variable backend : nat -> Response.

Lemma decisions_app (a b : list Event) :
  decisions (a ++ b) = (decisions a ++ decisions b)%list.
Proof. apply filter_app. Qed.

Lemma agree_ret {A} (a : A) : agree (ret a) (ret a).
Proof. intros w1 w2 H. split; [reflexivity|exact H]. Qed.

Lemma agree_throw {A} (e : JsError) : agree (@throw A e) (throw e).
Proof. intros w1 w2 H. split; [reflexivity|exact H]. Qed.

Lemma agree_bind {A B} (m1 m2 : M A) (k1 k2 : A -> M B) :
  agree m1 m2 -> (forall a, agree (k1 a) (k2 a)) -> agree (bind m1 k1) (bind m2 k2).
Proof.
  intros Hm Hk w1 w2 H. unfold bind. destruct (Hm w1 w2 H) as [Ho Hw].
  destruct (m1 w1) as [[a1|e1] w1'], (m2 w2) as [[a2|e2] w2']; simpl in *;
    try discriminate.
  - injection Ho as ->. now apply Hk.
  - injection Ho as ->. split; [reflexivity|exact Hw].
Qed.

Lemma agree_tryCatch {A} (m1 m2 : M A) (h1 h2 : JsError -> M A) :
  agree m1 m2 -> (forall e, agree (h1 e) (h2 e)) ->
  agree (tryCatch m1 h1) (tryCatch m2 h2).
Proof.
  intros Hm Hh w1 w2 H. unfold tryCatch. destruct (Hm w1 w2 H) as [Ho Hw].
  destruct (m1 w1) as [[a1|e1] w1'], (m2 w2) as [[a2|e2] w2']; simpl in *;
    try discriminate.
  - split; [exact Ho|exact Hw].
  - injection Ho as ->. now apply Hh.
Qed.

Lemma agree_swallow (m1 m2 : M unit) :
  agree m1 m2 -> agree (swallow m1) (swallow m2).
Proof. intros H. apply agree_tryCatch; [exact H|]. intros e. apply agree_ret. Qed.

(** A value read from the world that the report does not enter. *)
Lemma agree_gets {A} (f : World -> A) :
  (forall w1 w2, SameDecisions w1 w2 -> f w1 = f w2) -> agree (gets f) (gets f).
Proof. intros Hf w1 w2 H. unfold gets. simpl. split; [f_equal; auto|exact H]. Qed.

(** A value read from the report, whatever it is, when what follows does
    the same for every such value. *)
Lemma agree_gets_any {A B} (f : World -> A) (k1 k2 : A -> M B) :
  (forall a1 a2, agree (k1 a1) (k2 a2)) ->
  agree (bind (gets f) k1) (bind (gets f) k2).
Proof. intros Hk w1 w2 H. unfold bind, gets. now apply Hk. Qed.

Lemma agree_modify (f : World -> World) :
  (forall w1 w2, SameDecisions w1 w2 -> SameDecisions (f w1) (f w2)) ->
  agree (modify f) (modify f).
Proof. intros Hf w1 w2 H. unfold modify. simpl. split; [reflexivity|auto]. Qed.

Lemma Same_setReport (f1 f2 : RunReport -> RunReport) (w1 w2 : World) :
  SameDecisions w1 w2 ->
  dom (sections (f1 (runReport w1))) = dom (sections (runReport w1)) ->
  dom (sections (f2 (runReport w2))) = dom (sections (runReport w2)) ->
  SameDecisions (setReport f1 w1) (setReport f2 w2).
Proof. intros [S H K T D] D1 D2. split; simpl; congruence. Qed.

Lemma agree_updateTotals (f : Totals -> Totals) :
  agree (updateTotals f) (updateTotals f).
Proof.
  apply agree_modify. intros w1 w2 H. now apply Same_setReport.
Qed.

Lemma agree_countError (t : string) : agree (countError t) (countError t).
Proof.
  apply agree_modify. intros w1 w2 H. now apply Same_setReport.
Qed.

(** Setting a status, or leaving it: the same for the decisions. *)
Lemma agree_status_any (m1 m2 : M unit) :
  (forall w, (exists f, m1 w = (Returned tt, setReport (setStatus f) w))
             \/ m1 w = (Returned tt, w)) ->
  (forall w, (exists f, m2 w = (Returned tt, setReport (setStatus f) w))
             \/ m2 w = (Returned tt, w)) ->
  agree m1 m2.
Proof.
  intros H1 H2 w1 w2 H.
  destruct (H1 w1) as [[f1 ->]| ->], (H2 w2) as [[f2 ->]| ->]; simpl;
    (split; [reflexivity|]); destruct H as [S Hh K T D];
    split; simpl; congruence.
Qed.

Lemma agree_setSectionStatus (sl : string) (st : SectionStatus) :
  agree (setSectionStatus sl st) (setSectionStatus sl st).
Proof. apply agree_status_any; intros w; left; eexists; reflexivity. Qed.

Lemma agree_setSessionHealthy (b : bool) :
  agree (setSessionHealthy b) (setSessionHealthy b).
Proof.
  apply agree_modify. intros w1 w2 [S H K T D]. split; simpl; congruence.
Qed.

Lemma agree_setConsecutive (n : nat) :
  agree (setConsecutiveSessionErrors n) (setConsecutiveSessionErrors n).
Proof.
  apply agree_modify. intros w1 w2 [S H K T D]. split; simpl; congruence.
Qed.

Lemma agree_sleep (ms : nat) : agree (sleep ms) (sleep ms).
Proof.
  apply agree_modify. intros w1 w2 [S H K T D]. split; simpl; try congruence.
  rewrite !decisions_app, T, H. reflexivity.
Qed.

(** Two external calls that are the same call, or two telemetry writes. *)
Lemma agree_external_rel (c1 c2 : Call) :
  c1 = c2
  \/ (forall h, isTelemetry {| ev_healthy := h; ev_action := Called c1 |} = true
                /\ isTelemetry {| ev_healthy := h; ev_action := Called c2 |} = true) ->
  agree (external backend c1) (external backend c2).
Proof.
  intros Hc w1 w2 [S H K T D]. unfold external. rewrite K.
  assert (SameDecisions (advance (record (Called c1) w1))
                        (advance (record (Called c2) w2))) as Hs.
  { split; simpl; try congruence. rewrite !decisions_app, T, H.
    f_equal. destruct Hc as [->|Ht]; [reflexivity|].
    destruct (Ht (sessionHealthy (health w2))) as [T1 T2].
    unfold decisions.
    rewrite !filter_cons_False by (rewrite ?T1, ?T2; discriminate).
    reflexivity. }
  destruct (backend (tick w2)); simpl; split; auto.
Qed.

Lemma agree_external (c : Call) : agree (external backend c) (external backend c).
Proof. apply agree_external_rel. now left. Qed.

Lemma agree_updateSectionStats (sl : string) (f : SectionRunStats -> SectionRunStats) :
  agree (updateSectionStats sl f) (updateSectionStats sl f).
Proof.
  intros w1 w2 H. unfold updateSectionStats.
  assert (is_Some (sections (runReport w1) !! sl)
          <-> is_Some (sections (runReport w2) !! sl)) as Hd.
  { rewrite <- !elem_of_dom. now rewrite (sd_dom _ _ H). }
  destruct (sections (runReport w1) !! sl) as [st1|] eqn:E1,
           (sections (runReport w2) !! sl) as [st2|] eqn:E2; simpl.
  - split; [reflexivity|]. apply Same_setReport; [exact H| |]; simpl;
      rewrite dom_insert_L; apply subseteq_union_1_L, singleton_subseteq_l;
      apply elem_of_dom; eauto.
  - destruct Hd as [Hd _]. destruct (Hd (ex_intro _ _ eq_refl)). discriminate.
  - destruct Hd as [_ Hd]. destruct (Hd (ex_intro _ _ eq_refl)). discriminate.
  - split; [reflexivity|exact H].
Qed.

(** The statistics are read for the summary line only. *)
Lemma agree_readSectionStats_then {B} (sl : string) (k1 k2 : M B) :
  agree k1 k2 ->
  agree (bind (readSectionStats sl) (fun _ => k1))
        (bind (readSectionStats sl) (fun _ => k2)).
Proof.
  intros Hk w1 w2 H. unfold bind, readSectionStats.
  assert (is_Some (sections (runReport w1) !! sl)
          <-> is_Some (sections (runReport w2) !! sl)) as Hd.
  { rewrite <- !elem_of_dom. now rewrite (sd_dom _ _ H). }
  destruct (sections (runReport w1) !! sl) as [st1|] eqn:E1,
           (sections (runReport w2) !! sl) as [st2|] eqn:E2; simpl.
  - now apply Hk.
  - destruct Hd as [Hd _]. destruct (Hd (ex_intro _ _ eq_refl)). discriminate.
  - destruct Hd as [_ Hd]. destruct (Hd (ex_intro _ _ eq_refl)). discriminate.
  - split; [reflexivity|exact H].
Qed.

End ObliviousFacts.

Section ObliviousCrawl.
Variable host : Host.
Variable backend : nat -> Response.

Ltac agree_tac :=
  repeat first
    [ apply agree_ret | apply agree_throw
    | apply agree_external | apply agree_sleep
    | apply agree_updateTotals | apply agree_countError
    | apply agree_setSectionStatus | apply agree_setSessionHealthy
    | apply agree_setConsecutive | apply agree_updateSectionStats
    | apply agree_gets;
      let Hs := fresh "Hs" in let Hh := fresh "Hh" in
      intros ? ? [Hs Hh ? ? ?];
      first [ congruence | simpl; congruence | rewrite ?Hs, ?Hh; reflexivity ]
    | apply agree_modify; intros ? ? [? ? ? ? ?]; split; simpl; congruence
    | apply agree_swallow
    | apply agree_bind; [|intros ?]
    | apply agree_tryCatch; [|intros ?]
    | match goal with
      | |- agree (if ?b then _ else _) (if ?b then _ else _) => destruct b
      | |- agree (match ?x with _ => _ end) (match ?x with _ => _ end) => destruct x
      end
    | progress cbv zeta ].

Lemma agree_attemptBody (attempt : nat) (s : Section) (u : string) :
  agree (attemptBody host backend attempt s u) (attemptBody host backend attempt s u).
Proof.
  unfold attemptBody, extractPostDetail, attemptCatch. agree_tac.
Qed.

Lemma agree_attemptLoop (remaining attempt : nat) (s : Section) (u : string) :
  agree (attemptLoop host backend remaining attempt s u)
        (attemptLoop host backend remaining attempt s u).
Proof.
  revert attempt. induction remaining as [|remaining IH]; intros attempt.
  - apply agree_ret.
  - rewrite attemptLoop_S. apply agree_bind; [apply agree_attemptBody|].
    intros [detail|]; [apply agree_ret|apply IH].
Qed.

Lemma agree_savePost (s : Section) (d : PostDetail) :
  agree (savePost host backend s d) (savePost host backend s d).
Proof. unfold savePost. agree_tac. Qed.

Lemma agree_postsLoop (s : Section) (summaries : list PostSummary) (n : nat) :
  agree (postsLoop host backend s summaries n) (postsLoop host backend s summaries n).
Proof.
  revert n. induction summaries as [|summary rest IH]; intros n.
  - apply agree_ret.
  - rewrite postsLoop_cons.
    apply agree_bind; [agree_tac|]. intros healthy.
    destruct (negb healthy); [apply agree_ret|].
    destruct (negb (isValidPostUrl (Some (sm_url summary)))); [apply IH|].
    cbv zeta. apply agree_bind; [agree_tac|]. intros seen.
    destruct seen; [apply IH|].
    apply agree_bind; [agree_tac|]. intros _.
    apply agree_bind; [apply agree_attemptLoop|]. intros detail.
    apply agree_bind; [agree_tac|]. intros stillHealthy.
    destruct (negb stillHealthy); [apply agree_ret|].
    destruct detail as [d|].
    + apply agree_bind; [apply agree_savePost|]. intros _. apply IH.
    + apply agree_bind; [agree_tac|]. intros _.
      apply agree_bind; [agree_tac|]. intros _. apply IH.
Qed.

Lemma agree_pageBody (s : Section) (pageNum : nat) (url : string) (tn : nat) :
  agree (pageBody host backend s pageNum url tn) (pageBody host backend s pageNum url tn).
Proof.
  unfold pageBody, extractCategoryPage.
  apply agree_bind; [agree_tac|]. intros result.
  apply agree_bind.
  { destruct (length (posts result) =? 0); [|apply agree_ret].
    unfold debugExtract. agree_tac. }
  intros _. apply agree_bind; [agree_tac|]. intros _.
  apply agree_bind; [agree_tac|]. intros _.
  apply agree_bind; [apply agree_postsLoop|]. intros k. apply agree_ret.
Qed.

Lemma agree_pageCatch (s : Section) (e : JsError) :
  agree (pageCatch s e) (pageCatch s e).
Proof. unfold pageCatch. agree_tac. Qed.

Lemma agree_pageLoop (s : Section) (remaining pageNum : nat)
      (cur : option string) (tn : nat) :
  agree (pageLoop host backend remaining pageNum s cur tn)
        (pageLoop host backend remaining pageNum s cur tn).
Proof.
  revert pageNum cur tn. induction remaining as [|remaining IH]; intros pageNum cur tn.
  - apply agree_ret.
  - rewrite pageLoop_S. destruct cur as [url|]; [|apply agree_ret].
    apply agree_bind; [agree_tac|]. intros healthy.
    destruct (negb (JsString.truthy url && healthy)); [apply agree_ret|].
    apply agree_bind; [agree_tac|]. intros _.
    apply agree_bind; [agree_tac|]. intros _.
    apply agree_bind; [agree_tac|]. intros _.
    apply agree_bind.
    { apply agree_tryCatch; [apply agree_pageBody|]. intros e. apply agree_pageCatch. }
    intros [next tn'|]; [apply IH|apply agree_ret].
Qed.

Lemma agree_scrapeSection (s : Section) (maxPages : nat) :
  agree (scrapeSection host backend s maxPages) (scrapeSection host backend s maxPages).
Proof.
  unfold scrapeSection.
  apply agree_bind; [agree_tac|]. intros _.
  apply agree_bind; [agree_tac|]. intros _.
  apply agree_bind; [agree_tac|]. intros _. apply agree_pageLoop.
Qed.

(** The status is read only to decide which status to write. *)
Lemma agree_mark (sl : string) (st : SectionStatus) (a1 a2 : option SectionStatus) :
  agree (if isPending a1 then setSectionStatus sl st else ret tt)
        (if isPending a2 then setSectionStatus sl st else ret tt).
Proof.
  apply agree_status_any; intros w.
  - destruct (isPending a1); [left; eexists|right]; reflexivity.
  - destruct (isPending a2); [left; eexists|right]; reflexivity.
Qed.

Lemma agree_sectionTry (maxPages : nat) (s : Section) :
  agree (sectionTry host backend maxPages s) (sectionTry host backend maxPages s).
Proof.
  unfold sectionTry.
  apply agree_bind; [agree_tac|]. intros _.
  apply agree_bind; [agree_tac|]. intros page.
  destruct (negb (Js.truthy page)); [apply agree_throw|].
  apply agree_bind; [apply agree_scrapeSection|]. intros n.
  apply agree_gets_any. intros a1 a2.
  apply agree_bind; [apply agree_mark|]. intros _. apply agree_ret.
Qed.

Lemma agree_sectionCatch (s : Section) (e : JsError) :
  agree (sectionCatch s e) (sectionCatch s e).
Proof.
  unfold sectionCatch. apply agree_gets_any. intros a1 a2.
  apply agree_bind; [apply agree_mark|]. intros _. apply agree_ret.
Qed.

Lemma agree_sectionFinally :
  agree (sectionFinally backend) (sectionFinally backend).
Proof. unfold sectionFinally. agree_tac. Qed.

Lemma agree_sectionCheckpoint (s : Section) :
  agree (sectionCheckpoint backend s) (sectionCheckpoint backend s).
Proof.
  unfold sectionCheckpoint. apply agree_readSectionStats_then.
  apply agree_bind.
  { apply agree_swallow. apply agree_bind; [apply agree_external|]. intros _.
    apply agree_gets_any. intros r1 r2.
    apply agree_bind; [|intros _; apply agree_ret].
    apply agree_external_rel. right. intros h. split; reflexivity. }
  intros _. apply agree_swallow. apply agree_gets_any. intros r1 r2. cbv zeta.
  apply agree_bind; [|intros _; apply agree_ret].
  apply agree_external_rel. right. intros h. split; reflexivity.
Qed.

Lemma agree_processSection (maxPages : nat) (s : Section) :
  agree (processSection host backend maxPages s)
        (processSection host backend maxPages s).
Proof.
  unfold processSection.
  apply agree_bind; [agree_tac|]. intros _.
  apply agree_bind; [agree_tac|]. intros _.
  apply agree_bind.
  { apply agree_tryCatch; [apply agree_sectionTry|]. intros e.
    apply agree_sectionCatch. }
  intros n. apply agree_bind; [apply agree_sectionFinally|]. intros _.
  apply agree_bind; [apply agree_sectionCheckpoint|]. intros _. apply agree_ret.
Qed.

Lemma agree_runSections (maxPages : nat) (todo : list Section) (tn : nat) :
  agree (runSections host backend maxPages todo tn)
        (runSections host backend maxPages todo tn).
Proof.
  revert tn. induction todo as [|s rest IH]; intros tn; simpl.
  - apply agree_ret.
  - apply agree_bind; [apply agree_processSection|]. intros n. apply IH.
Qed.

End ObliviousCrawl.

(** C9.  Two crawls that get the same answers from the environment and start
    from worlds that differ in the run report only (its counters, its
    statistics, its statuses, its error histogram; the two reports having
    statistics for the same sections) end the same way, with the same set of
    seen URLs and the same monitor, after the same number of calls and the
    same decisions: the same pages visited, the same extractions, retries and
    back-offs, the same records handed to the store and to the Markdown
    writer.  This holds for the crawl of one section and for the section loop
    of [main]. *)
Theorem decisions_independent_of_report
        (host : Host) (backend : nat -> Response) (w : World) (other : RunReport) :
  dom (sections other) = dom (sections (runReport w)) ->
  let w2 := setReport (fun _ => other) w in
  (forall s maxPages,
      let r1 := scrapeSection host backend s maxPages w in
      let r2 := scrapeSection host backend s maxPages w2 in
      fst r1 = fst r2
      /\ seenUrls (snd r1) = seenUrls (snd r2)
      /\ health (snd r1) = health (snd r2)
      /\ tick (snd r1) = tick (snd r2)
      /\ decisions (trace (snd r1)) = decisions (trace (snd r2)))
  /\ (forall maxPages todo totalNew,
         let r1 := runSections host backend maxPages todo totalNew w in
         let r2 := runSections host backend maxPages todo totalNew w2 in
         fst r1 = fst r2
         /\ seenUrls (snd r1) = seenUrls (snd r2)
         /\ health (snd r1) = health (snd r2)
         /\ tick (snd r1) = tick (snd r2)
         /\ decisions (trace (snd r1)) = decisions (trace (snd r2))).
Proof.
  intros Hdom w2.
  assert (SameDecisions w w2) as Hs.
  { split; simpl; auto. }
  split; intros.
  - destruct (agree_scrapeSection host backend s maxPages w w2 Hs) as [Ho [S H K T D]].
    repeat split; assumption.
  - destruct (agree_runSections host backend maxPages todo totalNew w w2 Hs)
      as [Ho [S H K T D]].
    repeat split; assumption.
Qed.

(* ===================================================================== *)
(** * Worked examples                                                    *)
(* ===================================================================== *)

Import Scenario.


(** The first page of the quiet run: its hint is followed. *)
Lemma pagination_witness :
  let run := pageBody refHost quietBackend dietSection 1
               (baseUrl dietSection) 0 atFirstPage in
  run = (Returned (PageNext
                     (Some "https://www.paulcheksblog.com/category/diet/page/2/") 1),
         snd run)
  /\ exists raw next totalNew',
      quietBackend 1 = Resolves raw
      /\ fst run = Returned (PageNext next totalNew')
      /\ (forall hint,
             nextPageUrl (normalizeCategoryPage raw) = Some hint ->
             isValidPaginationUrl (Some hint) = true ->
             next = Some (normalizePostUrl refHost hint (baseUrl dietSection))).
Proof.
  intros run.
  assert (E : run = (Returned (PageNext
                     (Some "https://www.paulcheksblog.com/category/diet/page/2/") 1),
                     snd run)) by (vm_compute; reflexivity).
  split; [exact E|].
  destruct (pagination_next_target refHost quietBackend dietSection 1
              (baseUrl dietSection) 0 atFirstPage (snd run) _ E)
    as (raw & next & tn' & B & R & T1 & _).
  exists raw, next, tn'.
  split; [exact B|]. split; [|exact T1].
  rewrite E. simpl. f_equal. exact R.
Defined.


(** The post the store already has is not extracted by the quiet run. *)
Lemma seen_url_witness :
  oldPost ∈ seenUrls start
  /\ KeepsOut oldPost start
       (snd (runSections refHost quietBackend 2 SECTIONS 0 start)).
Proof.
  assert (H : oldPost ∈ seenUrls start).
  { change (oldPost ∈ ({[ oldPost ]} : gset string)).
    apply elem_of_singleton_2. reflexivity. }
  split; [exact H|].
  exact (proj1 (proj2 (proj2 (proj2 (proj2
           (seen_url_never_extracted_again refHost quietBackend oldPost start H)))))
           2 SECTIONS 0).
Defined.


(** The quiet run from two different reports. *)
Lemma decisions_witness :
  dom (sections otherReport) = dom (sections (runReport start))
  /\ (let r1 := runSections refHost quietBackend 2 SECTIONS 0 start in
      let r2 := runSections refHost quietBackend 2 SECTIONS 0 startOther in
      fst r1 = fst r2
      /\ seenUrls (snd r1) = seenUrls (snd r2)
      /\ health (snd r1) = health (snd r2)
      /\ tick (snd r1) = tick (snd r2)
      /\ decisions (trace (snd r1)) = decisions (trace (snd r2))).
Proof.
  assert (H : dom (sections otherReport) = dom (sections (runReport start))).
  { unfold otherReport. simpl. apply dom_fmap_L. }
  split; [exact H|].
  exact (proj2 (decisions_independent_of_report refHost quietBackend start
                  otherReport H) 2 SECTIONS 0).
Defined.

(** A URL whose attempts all fail on the dead session, the monitor still
    healthy afterwards: it is in the set, and it is counted. *)
Lemma failed_url_witness :
  let summary := {| sm_url := "/a/"; sm_title := "A post"; sm_date := None;
                    sm_categories := None; sm_tags := None |} in
  let u := "https://www.paulcheksblog.com/a/" in
  sessionHealthy (health midPage) = true
  /\ isValidPostUrl (Some (sm_url summary)) = true
  /\ (u ∉ seenUrls midPage)
  /\ (u ∈ seenUrls (snd (attemptLoop refHost deadBackend maxAttempts 1 dietSection u
                          (setSeen (fun x => {[u]} ∪ x) midPage))))
  /\ exists w3,
      postsLoop refHost deadBackend dietSection [summary] 0 midPage
      = postsLoop refHost deadBackend dietSection [] 0 w3
      /\ sections (runReport w3) !! "dr-diet" = Some (addPostsFailed zeroStats).
Proof.
  intros summary u.
  assert (Hh : sessionHealthy (health midPage) = true) by reflexivity.
  assert (Hv : isValidPostUrl (Some (sm_url summary)) = true) by reflexivity.
  assert (Hu : normalizePostUrl refHost (sm_url summary) (baseUrl dietSection)
               ∉ seenUrls midPage) by apply not_elem_of_empty.
  split; [exact Hh|]. split; [exact Hv|]. split; [exact Hu|].
  destruct (failed_url_stays_in_set refHost deadBackend dietSection summary [] 0
              midPage Hh Hv Hu) as [_ H].
  destruct (H eq_refl) as (Hin & _ & Hcount & _).
  split; [exact Hin|].
  destruct (Hcount eq_refl zeroStats eq_refl) as (w3 & E & S & _).
  exists w3. split; [exact E|exact S].
Defined.

(** A URL whose attempts all fail is not always counted.  On the dead
    session the three attempts of
    each of the URLs [a], [b] and [c] fail, nine attempts in all and nothing
    saved; the last failure of [c] takes the counter to the threshold, the
    section is abandoned before [c] is counted, and the report says two
    failed details, not three. *)
Lemma failed_count_counterexample :
  let w' := snd (scrapeSection refHost deadBackend dietSection 5 start) in
  map ev_action (filter (fun ev => isExtractPost ev = true) (trace w'))
  = [ Called (CExtractPost "https://www.paulcheksblog.com/a/" "dr-diet");
      Called (CExtractPost "https://www.paulcheksblog.com/a/" "dr-diet");
      Called (CExtractPost "https://www.paulcheksblog.com/a/" "dr-diet");
      Called (CExtractPost "https://www.paulcheksblog.com/b/" "dr-diet");
      Called (CExtractPost "https://www.paulcheksblog.com/b/" "dr-diet");
      Called (CExtractPost "https://www.paulcheksblog.com/b/" "dr-diet");
      Called (CExtractPost "https://www.paulcheksblog.com/c/" "dr-diet");
      Called (CExtractPost "https://www.paulcheksblog.com/c/" "dr-diet");
      Called (CExtractPost "https://www.paulcheksblog.com/c/" "dr-diet") ]
  /\ "https://www.paulcheksblog.com/c/" ∈ seenUrls w'
  /\ sections (runReport w') !! "dr-diet"
     = Some {| pagesVisited := 1; postsDiscovered := 4;
               postsSaved := 0; postsFailed := 2 |}
  /\ t_postsFailed (totals (runReport w')) = 2
  /\ sectionStatus (runReport w') !! "dr-diet" = Some SessionFailed.
Proof.
  intros w'. split; [reflexivity|]. split; [|repeat split; reflexivity].
  subst w'. vm_compute. reflexivity.
Qed.

(** X1.  The element-identifier check of the pagination validator rejects
    nothing that the prefix test would let through: a text made of digits,
    or of digits, a hyphen and digits, starts with no URL prefix.  So the
    two validators accept exactly the same arguments, and the post
    validator rejects every element identifier too. *)
Theorem element_id_check_is_redundant :
  (forall url : option string, isValidPaginationUrl url = isValidPostUrl url)
  /\ (forall s : string,
         isElementId (trim s) = true -> isValidPostUrl (Some s) = false).
Proof.
  split; [exact validators_coincide|].
  intros s H. rewrite <- validators_coincide, isValidPaginationUrl_unfold.
  destruct (isValidPostUrl (Some s)); [|reflexivity]. now rewrite H.
Qed.

(* ===================================================================== *)
(** * More on the date normaliser                                        *)
(* ===================================================================== *)

Section TrimFacts.

Lemma trimEnd_idem (s : string) : trimEnd (trimEnd s) = trimEnd s.
Proof.
  induction s as [|c r IH]; [reflexivity|].
  simpl. destruct (isWhiteSpace c && isEmpty (trimEnd r)) eqn:E; [reflexivity|].
  simpl. rewrite IH, E. reflexivity.
Qed.

Lemma trimStart_head (c : ascii) (r : string) :
  isWhiteSpace c = false -> trimStart (String c r) = String c r.
Proof. intros H. simpl. now rewrite H. Qed.

Lemma trimEnd_head (c : ascii) (r : string) :
  isWhiteSpace c = false -> trimEnd (String c r) = String c (trimEnd r).
Proof. intros H. simpl. now rewrite H. Qed.

(** What [trimStart] leaves is empty or starts with no white space. *)
Lemma trimStart_shape (s : string) :
  trimStart s = "" \/
  exists c r, trimStart s = String c r /\ isWhiteSpace c = false.
Proof.
  induction s as [|c r IH]; [now left|].
  simpl. destruct (isWhiteSpace c) eqn:E; [exact IH|].
  right. eauto.
Qed.

Lemma trim_idem (s : string) : trim (trim s) = trim s.
Proof.
  unfold trim. destruct (trimStart_shape s) as [-> | (c & r & -> & Hc)];
    [reflexivity|].
  rewrite (trimEnd_head c r Hc), (trimStart_head _ _ Hc).
  rewrite <- (trimEnd_head c r Hc). apply trimEnd_idem.
Qed.

Lemma trimEnd_snoc (a : string) (c : ascii) :
  isWhiteSpace c = false -> trimEnd (a ++ String c "") = a ++ String c "".
Proof.
  intros Hc. induction a as [|x r IH]; simpl.
  - now rewrite Hc.
  - rewrite IH. destruct r; simpl; now rewrite andb_false_r.
Qed.

End TrimFacts.

(** X2.  Leading and trailing white space never changes what the date normaliser
    answers, and an absent, empty or blank input gives no date. *)
Theorem normalizeDate_ignores_outer_space (host : Host) (s : string) :
  normalizeDate host (Some s) = normalizeDate host (Some (trim s))
  /\ (trim s = "" -> normalizeDate host (Some s) = None)
  /\ normalizeDate host None = None.
Proof.
  assert (Hblank : trim s = "" -> normalizeDate host (Some s) = None).
  { intros H. unfold normalizeDate. destruct (isEmpty s); [reflexivity|].
    cbv zeta. now rewrite H. }
  split; [|split; [exact Hblank|reflexivity]].
  destruct (isEmpty (trim s)) eqn:Et.
  - apply isEmpty_true in Et. rewrite (Hblank Et), Et. reflexivity.
  - unfold normalizeDate. rewrite trim_idem, Et.
    destruct (isEmpty s) eqn:Es; [|reflexivity].
    apply isEmpty_true in Es. subst s. discriminate.
Qed.

Section WrittenDateFacts.

Lemma lowerChar_letter (c : ascii) :
  isLowerLetter (lowerChar c) = true ->
  isDigit c = false /\ isWhiteSpace c = false /\ asciiLower c = lowerChar c.
Proof.
  destruct c as [[] [] [] [] [] [] [] []]; intros H; vm_compute in H;
    try discriminate H; repeat split; reflexivity.
Qed.

Lemma toLowerCase_letters (m n : string) :
  toLowerCase m = n ->
  allChars isLowerLetter n = true ->
  allChars (fun c => isLowerLetter (lowerChar c)) m = true.
Proof.
  revert n. induction m as [|c r IH]; intros n Hn Ha; [reflexivity|].
  simpl in Hn. subst n. simpl in Ha. apply andb_true_iff in Ha as [Hc Hr].
  simpl. rewrite Hc. simpl. now apply (IH (toLowerCase r)).
Qed.

Lemma toLowerCase_length (m : string) :
  String.length (toLowerCase m) = String.length m.
Proof. induction m as [|c r IH]; simpl; congruence. Qed.

Lemma eqbCI_lower (a c : ascii) :
  isLowerLetter (lowerChar c) = true -> eqbCI a (lowerChar c) = eqbCI a c.
Proof.
  intros H. destruct (lowerChar_letter c H) as (_ & _ & E).
  unfold eqbCI. rewrite <- E.
  replace (asciiLower (asciiLower c)) with (asciiLower c); [reflexivity|].
  clear. destruct c as [[] [] [] [] [] [] [] []]; reflexivity.
Qed.

Lemma differCI_lower (p m : string) :
  allChars (fun c => isLowerLetter (lowerChar c)) m = true ->
  differCI p (toLowerCase m) = differCI p m.
Proof.
  revert p. induction m as [|c r IH]; intros p Ha; [reflexivity|].
  simpl in Ha. apply andb_true_iff in Ha as [Hc Hr].
  destruct p as [|a p']; [reflexivity|]. simpl.
  rewrite (eqbCI_lower a c Hc), (IH p' Hr). reflexivity.
Qed.

Lemma stripPrefixCI_differ (p m rest : string) :
  differCI p m = true -> stripPrefixCI p (m ++ rest) = None.
Proof.
  revert m. induction p as [|a p' IH]; intros m H; [destruct m; discriminate|].
  destruct m as [|c r]; [discriminate|]. simpl in *.
  destruct (eqbCI a c); [now apply IH|reflexivity].
Qed.

Lemma stripPrefixCI_variant (m rest : string) :
  allChars (fun c => isLowerLetter (lowerChar c)) m = true ->
  stripPrefixCI (toLowerCase m) (m ++ rest) = Some rest.
Proof.
  induction m as [|c r IH]; intros Ha; [reflexivity|].
  simpl in Ha. apply andb_true_iff in Ha as [Hc Hr]. simpl.
  replace (eqbCI (lowerChar c) c) with true; [now apply IH|].
  clear - Hc. destruct c as [[] [] [] [] [] [] [] []]; vm_compute in Hc;
    try discriminate Hc; reflexivity.
Qed.

Lemma substring_prefix (m rest : string) :
  substring 0 (String.length m) (m ++ rest) = m.
Proof.
  induction m as [|c r IH]; simpl; [now destruct rest|]. now rewrite IH.
Qed.

Lemma matchMonthName_skip (n : string) (names : list string) (s : string) :
  stripPrefixCI n s = None ->
  matchMonthName (n :: names) s = matchMonthName names s.
Proof. intros H. simpl. now rewrite H. Qed.

Lemma matchMonthName_here (names : list string) (m rest : string) :
  allChars (fun c => isLowerLetter (lowerChar c)) m = true ->
  matchMonthName (toLowerCase m :: names) (m ++ rest) = Some (m, rest).
Proof.
  intros Ha. simpl. rewrite (stripPrefixCI_variant m rest Ha).
  now rewrite toLowerCase_length, substring_prefix.
Qed.

(** A month of the calendar, written in any mix of cases, is what the month
    pattern matches at the head of the text, and it has its index. *)
Lemma matchMonthName_month (i : nat) (name month rest : string) :
  monthNames !! i = Some name ->
  toLowerCase month = name ->
  allChars (fun c => isLowerLetter (lowerChar c)) month = true
  /\ month <> ""
  /\ matchMonthName monthNames (month ++ rest) = Some (month, rest)
  /\ indexOf name monthNames 0 = Some i.
Proof.
  intros Hi Hlow.
  assert (Hl : allChars isLowerLetter name = true /\ name <> ""
               /\ indexOf name monthNames 0 = Some i).
  { do 12 (destruct i as [|i];
           [injection Hi as <-;
            split; [reflexivity|split; [discriminate|reflexivity]]|]).
    discriminate Hi. }
  destruct Hl as (Hl & Hne & Hidx).
  pose proof (toLowerCase_letters month name Hlow Hl) as Ha.
  split; [exact Ha|]. split; [intros ->; now apply Hne|].
  split; [|exact Hidx].
  unfold monthNames.
  do 12 (destruct i as [|i];
         [injection Hi as Hi;
          repeat (rewrite matchMonthName_skip
                    by (apply stripPrefixCI_differ;
                        rewrite <- (differCI_lower _ month Ha), Hlow, <- Hi;
                        reflexivity));
          rewrite Hi, <- Hlow; apply (matchMonthName_here _ month rest Ha)|]).
  discriminate Hi.
Qed.

Lemma stripOrdinals_cons (b : bool) (c : ascii) (r : string) :
  stripOrdinals b (String c r)
  = if b && ordinalSuffixAt (String c r)
    then match r with
         | EmptyString => EmptyString
         | String _ r' => stripOrdinals false r'
         end
    else String c (stripOrdinals (isDigit c) r).
Proof. reflexivity. Qed.

Lemma ordinalSuffixAt_digit (c : ascii) (r : string) :
  isDigit c = true -> ordinalSuffixAt (String c r) = false.
Proof.
  destruct c as [[] [] [] [] [] [] [] []]; intros H; vm_compute in H;
    try discriminate H; destruct r; reflexivity.
Qed.

Lemma stripOrdinals_letters (m rest : string) :
  allChars (fun c => isLowerLetter (lowerChar c)) m = true ->
  stripOrdinals false (m ++ rest) = m ++ stripOrdinals false rest.
Proof.
  induction m as [|c r IH]; intros Ha; [reflexivity|].
  simpl in Ha. apply andb_true_iff in Ha as [Hc Hr].
  destruct (lowerChar_letter c Hc) as (Hd & _ & _).
  change (String c r ++ rest) with (String c (r ++ rest)).
  rewrite stripOrdinals_cons. simpl andb. cbv iota. rewrite Hd, (IH Hr).
  reflexivity.
Qed.

Lemma stripOrdinals_digits (b : bool) (ds rest : string) :
  allDigits ds = true -> ds <> "" ->
  stripOrdinals b (ds ++ rest) = ds ++ stripOrdinals true rest.
Proof.
  revert b. induction ds as [|c r IH]; intros b Ha Hne; [congruence|].
  simpl in Ha. apply andb_true_iff in Ha as [Hc Hr].
  change (String c r ++ rest) with (String c (r ++ rest)).
  rewrite stripOrdinals_cons, (ordinalSuffixAt_digit c _ Hc), andb_false_r, Hc.
  destruct r as [|c' r']; [reflexivity|].
  rewrite (IH true Hr); [reflexivity|discriminate].
Qed.

Lemma stripOrdinals_all_digits (b : bool) (ds : string) :
  allDigits ds = true -> stripOrdinals b ds = ds.
Proof.
  revert b. induction ds as [|c r IH]; intros b Ha; [reflexivity|].
  simpl in Ha. apply andb_true_iff in Ha as [Hc Hr].
  rewrite stripOrdinals_cons, (ordinalSuffixAt_digit c _ Hc), andb_false_r, Hc.
  now rewrite (IH true Hr).
Qed.

Lemma trimEnd_endsTight (s : string) : endsTight s = true -> trimEnd s = s.
Proof.
  induction s as [|c r IH]; [reflexivity|].
  intros H. destruct r as [|c' r'].
  - simpl in *. apply negb_true_iff in H. now rewrite H.
  - change (endsTight (String c' r') = true) in H.
    change (trimEnd (String c (String c' r')))
      with (let r1 := trimEnd (String c' r') in
            if isWhiteSpace c && isEmpty r1 then EmptyString else String c r1).
    rewrite (IH H). cbv zeta. simpl isEmpty. now rewrite andb_false_r.
Qed.

Lemma endsTight_app (a b : string) :
  b <> "" -> endsTight (a ++ b) = endsTight b.
Proof.
  intros Hb. induction a as [|c r IH]; [reflexivity|].
  change (String c r ++ b) with (String c (r ++ b)).
  destruct (r ++ b) as [|x y] eqn:E.
  - destruct r; simpl in E; [contradiction|discriminate].
  - exact IH.
Qed.

End WrittenDateFacts.

Section WrittenDates.

Lemma isIsoLike_head (c : ascii) (r : string) :
  isDigit c = false -> isIsoLike (String c r) = false.
Proof.
  intros H.
  destruct r as [|y2 [|y3 [|y4 [|h1 [|m1 [|m2 [|h2 [|d1 [|d2 rest]]]]]]]]];
    try reflexivity.
  unfold isIsoLike. now rewrite H.
Qed.

Lemma skipSpaces1_space (r : string) :
  skipSpaces1 (String " " r) = Some (trimStart r).
Proof. reflexivity. Qed.

Lemma takeDay_one (d c : ascii) (r : string) :
  isDigit d = true -> isDigit c = false ->
  takeDay (String d (String c r)) = Some (String d "", String c r).
Proof. intros Hd Hc. unfold takeDay. now rewrite Hd, Hc. Qed.

Lemma takeDay_two (d1 d2 : ascii) (r : string) :
  isDigit d1 = true -> isDigit d2 = true ->
  takeDay (String d1 (String d2 r)) = Some (String d1 (String d2 ""), r).
Proof. intros H1 H2. unfold takeDay. now rewrite H1, H2. Qed.

Lemma takeYear_four (y : string) :
  allDigits y = true -> String.length y = 4 -> takeYear y = Some y.
Proof.
  destruct y as [|a [|b [|c [|d [|e r]]]]]; try discriminate.
  intros H _. simpl in H. unfold takeYear.
  destruct (isDigit a), (isDigit b), (isDigit c), (isDigit d);
    try discriminate H; reflexivity.
Qed.

Lemma ordinalSuffixAt_space (r : string) : ordinalSuffixAt (String " " r) = false.
Proof. destruct r; reflexivity. Qed.

Lemma stripOrdinals_suffix (a b : ascii) (r : string) :
  ordinalSuffixAt (String a (String b "")) = true ->
  stripOrdinals true (String a (String b r)) = stripOrdinals false r.
Proof.
  intros H. rewrite stripOrdinals_cons.
  change (ordinalSuffixAt (String a (String b r)))
    with (ordinalSuffixAt (String a (String b ""))).
  now rewrite H.
Qed.

(** Stripping the ordinal suffix that follows the day. *)
Lemma stripOrdinals_after_day (suffix year : string) (comma : bool) :
  In suffix ("" :: ordinalSuffixes) ->
  allDigits year = true ->
  stripOrdinals true (suffix ++ (if comma then "," else "") ++ " " ++ year)
  = (if comma then "," else "") ++ " " ++ year.
Proof.
  intros Hsuf Hyear.
  assert (L : forall b, stripOrdinals b (String " " year) = String " " year).
  { intros b. rewrite stripOrdinals_cons, ordinalSuffixAt_space, andb_false_r.
    change (isDigit " ") with false.
    now rewrite (stripOrdinals_all_digits false year Hyear). }
  assert (Lc : forall b, stripOrdinals b (String "," (String " " year))
                         = String "," (String " " year)).
  { intros b. rewrite stripOrdinals_cons.
    change (ordinalSuffixAt (String "," (String " " year))) with false.
    rewrite andb_false_r. change (isDigit ",") with false. now rewrite L. }
  simpl in Hsuf.
  destruct Hsuf as [<- | [<- | [<- | [<- | [<- | []]]]]]; destruct comma;
    cbn [String.append];
    rewrite ?stripOrdinals_suffix by reflexivity; auto.
Qed.

(** The text that follows the month in a written date: what stays of it
    once the ordinal suffix is stripped, and how the rest of the pattern
    reads it. *)
Lemma written_tail (day suffix year : string) (comma : bool) :
  allDigits day = true ->
  (String.length day = 1 \/ String.length day = 2) ->
  In suffix ("" :: ordinalSuffixes) ->
  allDigits year = true ->
  String.length year = 4 ->
  let tail := " " ++ day ++ suffix ++ (if comma then "," else "") ++ " " ++ year in
  let stripped := " " ++ day ++ (if comma then "," else "") ++ " " ++ year in
  stripOrdinals false tail = stripped
  /\ endsTight tail = true
  /\ (exists r3, takeDay (day ++ (if comma then "," else "") ++ " " ++ year)
                 = Some (day, r3)
      /\ skipSpaces1 (skipComma r3) = Some year)
  /\ trimStart (day ++ (if comma then "," else "") ++ " " ++ year)
     = day ++ (if comma then "," else "") ++ " " ++ year.
Proof.
  intros Hday Hlen Hsuf Hyear Hylen tail stripped.
  assert (Hne : day <> "")
    by (destruct day; [destruct Hlen; discriminate|discriminate]).
  split.
  { subst tail stripped. change (" " ++ ?x) with (String " " x).
    rewrite stripOrdinals_cons. simpl andb. cbv iota.
    change (isDigit " ") with false.
    rewrite (stripOrdinals_digits false day _ Hday Hne).
    now rewrite (stripOrdinals_after_day suffix year comma Hsuf Hyear). }
  assert (Htight : endsTight year = true).
  { destruct year as [|y1 [|y2 [|y3 [|y4 [|y5 yr]]]]]; try discriminate Hylen.
    simpl in Hyear. repeat (apply andb_true_iff in Hyear as [? Hyear]).
    simpl. apply negb_true_iff. now apply digit_not_space. }
  assert (Hyr : trimStart year = year).
  { destruct year as [|y1 yr]; [reflexivity|].
    simpl in Hyear. apply andb_true_iff in Hyear as [E1 _].
    apply trimStart_head. now apply digit_not_space. }
  split.
  { subst tail.
    change (" " ++ day ++ suffix ++ (if comma then "," else "") ++ " " ++ year)
      with (String " " (day ++ suffix ++ (if comma then "," else "")
                        ++ String " " year)).
    assert (E : forall a b : string, endsTight b = true -> b <> "" ->
                                     endsTight (a ++ b) = true).
    { intros a b Hb Hn. now rewrite endsTight_app. }
    apply (E (String " " EmptyString)
             (day ++ suffix ++ (if comma then "," else "") ++ String " " year)).
    - apply E; [|destruct suffix, comma; discriminate].
      apply E; [|destruct comma; discriminate].
      apply E; [|discriminate].
      apply (E (String " " EmptyString) year Htight).
      destruct year; [discriminate Hylen|discriminate].
    - destruct day; [congruence|discriminate]. }
  destruct day as [|d1 [|d2 [|d3 dr]]]; try (destruct Hlen; discriminate).
  - simpl in Hday. destruct (isDigit d1) eqn:D1; [|discriminate Hday].
    pose proof (digit_not_space d1 D1) as S1.
    split.
    + destruct comma; cbn [String.append];
        (eexists; split; [apply takeDay_one; [exact D1|reflexivity]|]);
        [change (skipComma (String "," ?r)) with r
        |change (skipComma (String " " ?r)) with (String " " r)];
        now rewrite skipSpaces1_space, Hyr.
    + cbn [String.append]. now apply trimStart_head.
  - simpl in Hday. destruct (isDigit d1) eqn:D1; [|discriminate Hday].
    destruct (isDigit d2) eqn:D2; [|discriminate Hday].
    pose proof (digit_not_space d1 D1) as S1.
    split.
    + destruct comma; cbn [String.append];
        (eexists; split; [apply takeDay_two; [exact D1|exact D2]|]);
        [change (skipComma (String "," ?r)) with r
        |change (skipComma (String " " ?r)) with (String " " r)];
        now rewrite skipSpaces1_space, Hyr.
    + cbn [String.append]. now apply trimStart_head.
Qed.

End WrittenDates.

(** X3.  A date written the way the blog writes it is normalised by the calendar
    rule alone, for every month, day and year: the month in any mix of cases,
    one space, a day from 1 to 31 in one or two digits with or without its
    ordinal suffix, a comma or none, one space, a year in four digits.  The
    result is the year as a number (so without its leading zeros), the month
    number and the day, both in two digits, joined by hyphens; the host's
    [Date] is not consulted. *)
Theorem normalizeDate_written_date
        (host : Host) (i : nat) (name month day suffix year : string)
        (comma : bool) :
  monthNames !! i = Some name ->
  toLowerCase month = name ->
  allDigits day = true ->
  (String.length day = 1 \/ String.length day = 2) ->
  1 <= parseDigits day <= 31 ->
  In suffix ("" :: ordinalSuffixes) ->
  allDigits year = true ->
  String.length year = 4 ->
  normalizeDate host (Some (writtenDate month day suffix comma year))
  = Some (natToString (parseDigits year) ++ "-"
          ++ padStart2 (natToString (i + 1)) ++ "-"
          ++ padStart2 (natToString (parseDigits day))).
Proof.
  intros Hi Hlow Hday Hlen Hrange Hsuf Hyear Hylen.
  destruct (written_tail day suffix year comma Hday Hlen Hsuf Hyear Hylen)
    as (Hstrip & Htight & (r3 & H3 & H4) & Hts).
  set (tail := " " ++ day ++ suffix ++ (if comma then "," else "") ++ " " ++ year)
    in *.
  set (stripped := " " ++ day ++ (if comma then "," else "") ++ " " ++ year) in *.
  destruct (matchMonthName_month i name month stripped Hi Hlow)
    as (Ha & Hne & Hm & Hidx).
  change (writtenDate month day suffix comma year) with (month ++ tail).
  destruct month as [|c0 m']; [congruence|].
  pose proof Ha as Ha'. simpl in Ha'. apply andb_true_iff in Ha' as [Hc0 _].
  destruct (lowerChar_letter c0 Hc0) as (Hd0 & Hw0 & _).
  assert (Htrim : trim (String c0 m' ++ tail) = String c0 m' ++ tail).
  { unfold trim. change (String c0 m' ++ tail) with (String c0 (m' ++ tail)).
    rewrite (trimStart_head _ _ Hw0). apply trimEnd_endsTight.
    change (String c0 (m' ++ tail)) with (String c0 m' ++ tail).
    rewrite endsTight_app; [exact Htight|discriminate]. }
  assert (Hmatch : matchMonthDayYear (String c0 m' ++ stripped)
                   = Some (String c0 m', day, year)).
  { unfold matchMonthDayYear. rewrite Hm. unfold stripped.
    change (" " ++ ?x) with (String " " x) at 1.
    rewrite skipSpaces1_space, Hts, H3, H4.
    rewrite (takeYear_four year Hyear Hylen). reflexivity. }
  unfold normalizeDate.
  change (isEmpty (String c0 m' ++ tail)) with false. cbv iota zeta.
  rewrite Htrim.
  change (isEmpty (String c0 m' ++ tail)) with false. cbv iota.
  change (String c0 m' ++ tail) with (String c0 (m' ++ tail)) at 1.
  rewrite (isIsoLike_head _ _ Hd0).
  rewrite (stripOrdinals_letters _ tail Ha), Hstrip, Hmatch, Hlow, Hidx.
  destruct Hrange as [Hlo Hhi].
  apply Nat.leb_le in Hlo. apply Nat.leb_le in Hhi. now rewrite Hlo, Hhi.
Qed.

Lemma normalizeDate_written_date_witness :
  normalizeDate refHost (Some "December 26th, 2025") = Some "2025-12-26"
  /\ normalizeDate refHost (Some "march 1 0987") = Some "987-03-01".
Proof.
  split.
  - apply (normalizeDate_written_date refHost 11 "december" "December" "26" "th"
             "2025" true); try reflexivity.
    + now right.
    + vm_compute. split; lia.
    + simpl. tauto.
  - apply (normalizeDate_written_date refHost 2 "march" "march" "1" ""
             "0987" false); try reflexivity.
    + now left.
    + vm_compute. split; lia.
    + simpl. tauto.
Defined.

(* ===================================================================== *)
(** * The Markdown file of a post                                        *)
(* ===================================================================== *)

Section MarkdownFacts.

Lemma append_nil_r (s : string) : s ++ "" = s.
Proof. induction s as [|c r IH]; simpl; congruence. Qed.

Lemma append_assoc (a b c : string) : (a ++ b) ++ c = a ++ (b ++ c).
Proof. induction a as [|x r IH]; simpl; congruence. Qed.

Lemma allChars_app (p : ascii -> bool) (a b : string) :
  allChars p (a ++ b) = allChars p a && allChars p b.
Proof.
  induction a as [|c r IH]; simpl; [reflexivity|]. now rewrite IH, andb_assoc.
Qed.

Lemma allChars_trimStart (p : ascii -> bool) (s : string) :
  allChars p s = true -> allChars p (trimStart s) = true.
Proof.
  induction s as [|c r IH]; simpl; [easy|]. intros H.
  destruct (isWhiteSpace c); [|exact H].
  apply andb_true_iff in H as [_ H]. auto.
Qed.

Lemma allChars_trimEnd (p : ascii -> bool) (s : string) :
  allChars p s = true -> allChars p (trimEnd s) = true.
Proof.
  induction s as [|c r IH]; simpl; [easy|]. intros H.
  apply andb_true_iff in H as [Hc Hr].
  destruct (isWhiteSpace c && isEmpty (trimEnd r)); [reflexivity|].
  simpl. rewrite Hc. auto.
Qed.

Lemma allChars_trim (p : ascii -> bool) (s : string) :
  allChars p s = true -> allChars p (trim s) = true.
Proof. intros H. unfold trim. now apply allChars_trimEnd, allChars_trimStart. Qed.

Lemma flattenNewlines_bounded (n : nat) (s : string) :
  String.length s <= n -> noLineFeed (flattenNewlines s) = true.
Proof.
  revert s. induction n as [|n IH]; intros s Hn.
  - destruct s; [reflexivity|simpl in Hn; lia].
  - destruct s as [|c r]; [reflexivity|]. simpl in Hn.
    assert (Hr : noLineFeed (flattenNewlines r) = true) by (apply IH; lia).
    simpl. destruct (code c =? 10) eqn:E10; [exact Hr|].
    destruct (code c =? 13) eqn:E13.
    + destruct r as [|d r']; [unfold noLineFeed; simpl; now rewrite E10|].
      destruct (code d =? 10) eqn:D10.
      * apply IH. simpl in Hn. lia.
      * unfold noLineFeed. simpl. rewrite E10. exact Hr.
    + unfold noLineFeed. simpl. rewrite E10. exact Hr.
Qed.

Lemma flattenNewlines_noLineFeed (s : string) :
  noLineFeed (flattenNewlines s) = true.
Proof. now apply (flattenNewlines_bounded (String.length s)). Qed.

Lemma escapeQuotes_noLineFeed (s : string) :
  noLineFeed s = true -> noLineFeed (escapeQuotes s) = true.
Proof.
  unfold noLineFeed. induction s as [|c r IH]; simpl; [easy|]. intros H.
  apply andb_true_iff in H as [Hc Hr].
  destruct (code c =? 34); simpl; [now apply IH|]. rewrite Hc. now apply IH.
Qed.

Lemma escapeQuotes_escaped (b : bool) (s : string) :
  quotesEscaped b (escapeQuotes s) = true.
Proof.
  revert b. induction s as [|c r IH]; intros b; [reflexivity|].
  simpl. destruct (code c =? 34) eqn:E; simpl; [apply IH|].
  rewrite E. apply IH.
Qed.

Lemma escapeQuotes_no_special (s : string) :
  anyChar isYamlSpecial s = false -> escapeQuotes s = s.
Proof.
  induction s as [|c r IH]; simpl; [easy|]. intros H.
  apply orb_false_iff in H as [Hc Hr]. unfold isYamlSpecial in Hc.
  cbv zeta in Hc. apply orb_false_iff in Hc as [Hc _].
  apply orb_false_iff in Hc as [Hc _]. apply orb_false_iff in Hc as [_ Hc].
  rewrite Hc. now rewrite IH.
Qed.

Lemma yamlEscape_noLineFeed (v : string) : noLineFeed (yamlEscape v) = true.
Proof.
  unfold yamlEscape. cbv zeta.
  pose proof (allChars_trim _ _ (flattenNewlines_noLineFeed v)) as Ht.
  fold (noLineFeed (trim (flattenNewlines v))) in Ht.
  destruct (isEmpty _); [reflexivity|].
  destruct (anyChar _ _); [|exact Ht].
  unfold noLineFeed. simpl. rewrite allChars_app.
  apply escapeQuotes_noLineFeed in Ht. unfold noLineFeed in Ht. now rewrite Ht.
Qed.

End MarkdownFacts.

(** X4.  What [yamlEscape] gives is never empty, holds no line feed, and neither
    starts nor ends with white space; and when a colon, a quote or a hyphen
    is in it, it is wrapped in double quotes, every double quote in between
    coming right after a backslash. *)
Theorem yamlEscape_one_line (v : string) :
  yamlEscape v <> ""
  /\ noLineFeed (yamlEscape v) = true
  /\ trim (yamlEscape v) = yamlEscape v
  /\ (anyChar isYamlSpecial (yamlEscape v) = true ->
      exists body,
        yamlEscape v = String dquote (body ++ String dquote "")
        /\ quotesEscaped false body = true).
Proof.
  split; [|split; [apply yamlEscape_noLineFeed|]].
  { unfold yamlEscape. cbv zeta.
    destruct (isEmpty _) eqn:E; [discriminate|].
    destruct (anyChar _ _); [discriminate|]. now apply isEmpty_false. }
  assert (Hq : forall body,
             trim (String dquote (body ++ String dquote ""))
             = String dquote (body ++ String dquote "")).
  { intros body. unfold trim. rewrite trimStart_head by reflexivity.
    apply trimEnd_endsTight.
    change (String dquote (body ++ String dquote ""))
      with (String dquote body ++ String dquote "").
    now rewrite endsTight_app. }
  unfold yamlEscape. cbv zeta.
  destruct (isEmpty _) eqn:E.
  { split; [apply (Hq "")|]. intros _. exists "". split; reflexivity. }
  destruct (anyChar isYamlSpecial (trim (flattenNewlines v))) eqn:S.
  - split; [apply Hq|]. intros _. eexists. split; [reflexivity|].
    apply escapeQuotes_escaped.
  - split; [apply trim_idem|]. intros H. rewrite S in H. discriminate.
Qed.

Section FrontMatterFacts.

Lemma string_of_list_ascii_app (a b : list ascii) :
  string_of_list_ascii (a ++ b)%list
  = string_of_list_ascii a ++ string_of_list_ascii b.
Proof. induction a as [|c r IH]; simpl; congruence. Qed.

(** One line free of line feeds, then a line feed: the line is read back. *)
Lemma splitLinesAux_line (l rest : string) (cur : list ascii) :
  noLineFeed l = true ->
  splitLinesAux cur (l ++ String (ascii_of_nat 10) rest)
  = (string_of_list_ascii (rev cur) ++ l) :: splitLinesAux [] rest.
Proof.
  unfold noLineFeed. revert cur. induction l as [|c r IH]; intros cur H.
  - simpl. now rewrite append_nil_r.
  - simpl in H. apply andb_true_iff in H as [Hc Hr].
    apply negb_true_iff in Hc.
    change (String c r ++ String (ascii_of_nat 10) rest)
      with (String c (r ++ String (ascii_of_nat 10) rest)).
    simpl splitLinesAux. rewrite Hc, (IH (c :: cur) Hr). simpl rev.
    rewrite string_of_list_ascii_app, append_assoc. reflexivity.
Qed.

Lemma joinLines_cons (l : string) (rest : list string) :
  rest <> [] ->
  joinLines (l :: rest) = l ++ String (ascii_of_nat 10) (joinLines rest).
Proof. destruct rest; [congruence|reflexivity]. Qed.

(** Lines free of line feeds, joined in front of a last line, are read back
    as they were. *)
Lemma splitLines_joinLines (ls : list string) (m : string) :
  Forall (fun l => noLineFeed l = true) ls ->
  splitLines (joinLines (ls ++ [m])%list) = (ls ++ splitLines m)%list.
Proof.
  induction 1 as [|l ls Hl Hls IH]; [reflexivity|].
  change ((l :: ls) ++ [m])%list with (l :: (ls ++ [m]))%list.
  rewrite joinLines_cons by (destruct ls; discriminate).
  unfold splitLines at 1. rewrite (splitLinesAux_line l _ [] Hl).
  fold (splitLines (joinLines (ls ++ [m])%list)). now rewrite IH.
Qed.

Lemma field_noLineFeed (key value : string) :
  noLineFeed key = true -> noLineFeed (key ++ yamlEscape value) = true.
Proof.
  intros H. unfold noLineFeed in *. rewrite allChars_app, H.
  apply yamlEscape_noLineFeed.
Qed.

Lemma frontMatter_noLineFeed (s : Section) (p : PostDetail) :
  Forall (fun l => noLineFeed l = true) (frontMatter s p).
Proof.
  unfold frontMatter.
  repeat first
    [ apply Forall_nil_2
    | apply Forall_cons; split; [first [apply field_noLineFeed|idtac]; reflexivity|]
    | apply Forall_app; split
    | apply Forall_map, Forall_true; intros; apply field_noLineFeed; reflexivity
    | destruct (pd_date p) as [d|]
    | match goal with |- context [JsString.truthy ?d] => destruct (JsString.truthy d) end ].
Qed.

Lemma frontMatter_no_delimiter (s : Section) (p : PostDetail) :
  Forall (fun l => l <> "---") (frontMatter s p).
Proof.
  unfold frontMatter.
  repeat first
    [ apply Forall_nil_2
    | apply Forall_cons; split; [cbn [String.append]; discriminate|]
    | apply Forall_app; split
    | apply Forall_map, Forall_true; intros; cbn [String.append]; discriminate
    | destruct (pd_date p) as [d|]
    | match goal with |- context [JsString.truthy ?d] => destruct (JsString.truthy d) end ].
Qed.

End FrontMatterFacts.

(** X5.  The Markdown file of a post, read back line by line: the opening [---],
    the front-matter lines exactly as they were pushed, the closing [---], an
    empty line, then the lines of the body.  No title, URL, date, category or
    tag can add a line to the front matter or close it early: none of its
    lines is [---]. *)
Theorem post_markdown_front_matter (s : Section) (p : PostDetail) :
  splitLines (postMarkdown s p)
  = ("---" :: frontMatter s p ++ "---" :: "" :: splitLines (pd_markdown p))%list
  /\ Forall (fun l => l <> "---") (frontMatter s p).
Proof.
  split; [|apply frontMatter_no_delimiter].
  unfold postMarkdown, postMarkdownLines.
  change (["---"] ++ frontMatter s p ++ ["---"; ""; pd_markdown p])%list
    with ("---" :: frontMatter s p ++ ["---"; ""; pd_markdown p])%list.
  replace ("---" :: frontMatter s p ++ ["---"; ""; pd_markdown p])%list
    with (("---" :: frontMatter s p ++ ["---"; ""]) ++ [pd_markdown p])%list
    by (simpl; now rewrite <- app_assoc).
  rewrite splitLines_joinLines.
  - simpl. now rewrite <- app_assoc.
  - apply Forall_cons. split; [reflexivity|].
    apply Forall_app. split; [apply frontMatter_noLineFeed|].
    repeat (apply Forall_cons; split; [reflexivity|]). apply Forall_nil_2.
Qed.

(** X6.  The name of the Markdown file: the record's slug as it is when it has
    one; otherwise a slug taken from the record's URL, or the literal
    ["untitled"], and then made of code units of [[a-z0-9-_]] only.  It is
    never empty. *)
Theorem safeSlug_spec (host : Host) (p : PostDetail) :
  safeSlug host p <> ""
  /\ (pd_slug p <> "" -> safeSlug host p = pd_slug p)
  /\ (pd_slug p = "" -> allChars isSlugChar (safeSlug host p) = true).
Proof.
  unfold safeSlug. destruct (pd_slug p) as [|c r] eqn:E.
  - change (JsString.truthy "") with false. cbv iota.
    destruct (slugFromUrl host (JStr (pd_url p))) as [sl|] eqn:Es.
    + destruct (slugFromUrl_spec host _ sl Es)
        as (pathname & seg & _ & _ & _ & _ & _ & Hc & Hne).
      destruct sl as [|x y]; [congruence|].
      change (JsString.truthy (String x y)) with true. cbv iota.
      split; [discriminate|]. split; [congruence|]. intros _. exact Hc.
    + split; [discriminate|]. split; [congruence|]. intros _. reflexivity.
  - change (JsString.truthy (String c r)) with true. cbv iota.
    split; [discriminate|]. split; [reflexivity|discriminate].
Qed.

(* ===================================================================== *)
(** * The listing fallback, slugs and page URLs                          *)
(* ===================================================================== *)

Section ListingFacts.

Lemma allStrings_stringsOf (items : list JSValue) (l : list string) :
  Js.allStrings items = Some l -> Js.stringsOf items = l.
Proof.
  revert l. induction items as [|v rest IH]; intros l; simpl.
  - now intros [= <-].
  - destruct v; try discriminate.
    destruct (Js.allStrings rest) as [l'|]; [|discriminate].
    intros [= <-]. now rewrite (IH l').
Qed.

Lemma stringArray_fallback (v : JSValue) (o : option (list string)) :
  Js.zStringArrayOptional v = Some o ->
  match v with JArr cs => Some (Js.stringsOf cs) | _ => None end = o.
Proof.
  destruct v; simpl; try discriminate; [now intros [= <-]|].
  destruct (Js.allStrings items) as [l|] eqn:E; [|discriminate].
  intros [= <-]. now rewrite (allStrings_stringsOf items l E).
Qed.

Lemma fallbackSummaries_cons (v : JSValue) (rest : list JSValue) :
  fallbackSummaries (v :: rest)
  = match v with
    | JObj _ | JArr _ =>
        match Js.asString (Js.prop v "url"), Js.asString (Js.prop v "title") with
        | Some u, Some t =>
            {| sm_url := u; sm_title := t;
               sm_date := Js.asString (Js.prop v "date");
               sm_categories :=
                 match Js.prop v "categories" with
                 | JArr cs => Some (Js.stringsOf cs)
                 | _ => None
                 end;
               sm_tags :=
                 match Js.prop v "tags" with
                 | JArr ts => Some (Js.stringsOf ts)
                 | _ => None
                 end |} :: fallbackSummaries rest
        | _, _ => fallbackSummaries rest
        end
    | _ => fallbackSummaries rest
    end.
Proof. reflexivity. Qed.

(** A summary the schema accepts is read by the fallback the same way. *)
Lemma parsePostSummary_fallback (v : JSValue) (p : PostSummary)
      (rest : list JSValue) :
  parsePostSummary v = Some p ->
  fallbackSummaries (v :: rest) = p :: fallbackSummaries rest.
Proof.
  intros H. rewrite fallbackSummaries_cons. unfold parsePostSummary in H.
  destruct v as [| | | | | |fields]; try discriminate.
  unfold Js.zString in H.
  destruct (Js.asString (Js.prop (JObj fields) "url")) as [u|]; [|discriminate].
  destruct (Js.asString (Js.prop (JObj fields) "title")) as [t|];
    [|discriminate].
  destruct (Js.zStringOptional (Js.prop (JObj fields) "date")) as [d|] eqn:Ed;
    [|discriminate].
  destruct (Js.zStringArrayOptional (Js.prop (JObj fields) "categories"))
    as [c|] eqn:Ec; [|discriminate].
  destruct (Js.zStringArrayOptional (Js.prop (JObj fields) "tags"))
    as [g|] eqn:Eg; [|discriminate].
  injection H as <-.
  rewrite (stringArray_fallback _ _ Ec), (stringArray_fallback _ _ Eg).
  f_equal. f_equal.
  destruct (Js.prop (JObj fields) "date"); simpl in *; congruence.
Qed.

Lemma parsePostSummaries_fallback (items : list JSValue) (ps : list PostSummary) :
  parsePostSummaries items = Some ps -> fallbackSummaries items = ps.
Proof.
  revert ps. induction items as [|v rest IH]; intros ps; simpl parsePostSummaries.
  - now intros [= <-].
  - destruct (parsePostSummary v) as [p|] eqn:Ep; [|discriminate].
    destruct (parsePostSummaries rest) as [ps'|]; [|discriminate].
    intros [= <-]. rewrite (parsePostSummary_fallback v p rest Ep).
    now rewrite (IH ps').
Qed.

Lemma fallbackSummaries_app (a b : list JSValue) :
  fallbackSummaries (a ++ b) = (fallbackSummaries a ++ fallbackSummaries b)%list.
Proof.
  induction a as [|v rest IH]; [reflexivity|].
  change ((v :: rest) ++ b)%list with (v :: (rest ++ b))%list.
  rewrite !fallbackSummaries_cons, IH.
  destruct v; try reflexivity;
    destruct (Js.asString _); try reflexivity;
    destruct (Js.asString _); reflexivity.
Qed.

Lemma parsePostSummaries_broken (a b : list JSValue) (bad : JSValue) :
  parsePostSummary bad = None -> parsePostSummaries (a ++ bad :: b) = None.
Proof.
  intros H. induction a as [|v rest IH]; simpl.
  - now rewrite H.
  - rewrite IH. now destruct (parsePostSummary v).
Qed.

End ListingFacts.

(** X7.  The fallback of the listing extraction reads a list of summaries that
    the schema accepts exactly as the schema does; and when one element of
    the listing has no string for its URL or its title, so that the schema
    rejects the payload as a whole, the page still gives every other summary,
    in order. *)
Theorem listing_fallback_salvages
        (raw bad : JSValue) (before after : list JSValue)
        (pa pb : list PostSummary) :
  Js.prop (Js.orEmptyObject raw) "posts" = JArr (before ++ bad :: after) ->
  parsePostSummaries before = Some pa ->
  parsePostSummaries after = Some pb ->
  Js.asString (Js.prop bad "url") = None
  \/ Js.asString (Js.prop bad "title") = None ->
  fallbackSummaries (before ++ after) = (pa ++ pb)%list
  /\ parseCategoryPage raw = None
  /\ posts (normalizeCategoryPage raw) = (pa ++ pb)%list.
Proof.
  intros Hposts Ha Hb Hbad.
  assert (Hf : fallbackSummaries (before ++ after) = (pa ++ pb)%list).
  { rewrite fallbackSummaries_app.
    now rewrite (parsePostSummaries_fallback _ _ Ha),
      (parsePostSummaries_fallback _ _ Hb). }
  assert (Hnone : parsePostSummary bad = None).
  { unfold parsePostSummary, Js.zString.
    destruct bad; try reflexivity.
    destruct Hbad as [-> | E]; [reflexivity|].
    rewrite E. now destruct (Js.asString (Js.prop (JObj fields) "url")). }
  assert (Hp : parseCategoryPage raw = None).
  { unfold parseCategoryPage. destruct raw; try reflexivity.
    simpl in Hposts. change (Js.prop (JObj fields) "posts")
      with (Js.assoc "posts" fields).
    rewrite Hposts, (parsePostSummaries_broken _ _ _ Hnone). reflexivity. }
  split; [exact Hf|]. split; [exact Hp|].
  unfold normalizeCategoryPage. rewrite Hp. cbv zeta. simpl posts.
  rewrite Hposts, fallbackSummaries_app.
  change (bad :: after) with ([bad] ++ after)%list.
  rewrite fallbackSummaries_app, <- Hf, fallbackSummaries_app.
  replace (fallbackSummaries [bad]) with (@nil PostSummary); [reflexivity|].
  rewrite fallbackSummaries_cons. simpl fallbackSummaries.
  destruct bad; try reflexivity;
    destruct Hbad as [-> | E]; try reflexivity;
    rewrite E;
    match goal with
    | |- context [Js.asString (Js.prop ?v "url")] =>
        now destruct (Js.asString (Js.prop v "url"))
    end.
Qed.

Lemma listing_fallback_witness :
  let bad := JObj [("url", JNum 7); ("title", JStr "Broken")] in
  let raw := JObj [("posts", JArr [Scenario.summaryOf "/a/"; bad;
                                   Scenario.summaryOf "/b/"])] in
  parseCategoryPage raw = None
  /\ map sm_url (posts (normalizeCategoryPage raw)) = ["/a/"; "/b/"].
Proof.
  intros bad raw.
  destruct (listing_fallback_salvages raw bad [Scenario.summaryOf "/a/"]
              [Scenario.summaryOf "/b/"] _ _ eq_refl eq_refl eq_refl
              (or_introl eq_refl)) as (_ & Hp & Hposts).
  split; [exact Hp|]. rewrite Hposts. reflexivity.
Defined.

Section SlugStability.

Lemma lowerChar_slug (c : ascii) : isSlugChar c = true -> lowerChar c = c.
Proof.
  destruct c as [[] [] [] [] [] [] [] []]; intros H; vm_compute in H;
    try discriminate H; reflexivity.
Qed.

Lemma toLowerCase_slug (s : string) :
  allChars isSlugChar s = true -> toLowerCase s = s.
Proof.
  induction s as [|c r IH]; simpl; [easy|]. intros H.
  apply andb_true_iff in H as [Hc Hr]. now rewrite (lowerChar_slug c Hc), IH.
Qed.

Lemma replaceNonSlug_slug (b : bool) (s : string) :
  allChars isSlugChar s = true -> replaceNonSlug b s = s.
Proof.
  revert b. induction s as [|c r IH]; intros b; simpl; [easy|]. intros H.
  apply andb_true_iff in H as [Hc Hr]. now rewrite Hc, IH.
Qed.

End SlugStability.

(** X8.  A slug taken from a URL is stable: lower-casing it and replacing the
    runs outside [[a-z0-9-_]] gives it back, so that any URL whose last path
    segment is that slug has that slug. *)
Theorem slug_is_stable (host : Host) (url : JSValue) (s : string) :
  slugFromUrl host url = Some s ->
  replaceNonSlug false (toLowerCase s) = s
  /\ (forall url' pathname,
         Js.truthy url' = true ->
         urlPathname host (Js.toString url') = Some pathname ->
         last (pathSegments pathname) = Some s ->
         slugFromUrl host url' = Some s).
Proof.
  intros H.
  destruct (slugFromUrl_spec host url s H)
    as (p0 & seg & _ & _ & _ & _ & _ & Hc & _).
  assert (E : replaceNonSlug false (toLowerCase s) = s)
    by now rewrite (toLowerCase_slug s Hc), (replaceNonSlug_slug false s Hc).
  split; [exact E|]. intros url' pathname Ht Hp Hl.
  unfold slugFromUrl. rewrite Ht, Hp, Hl. simpl. now rewrite E.
Qed.

Lemma slug_is_stable_witness :
  slugFromUrl refHost (JStr "https://www.paulcheksblog.com/diet/water_as-medicine/")
  = Some "water_as-medicine"
  /\ replaceNonSlug false (toLowerCase "water_as-medicine") = "water_as-medicine".
Proof.
  split; [reflexivity|].
  apply (slug_is_stable refHost
           (JStr "https://www.paulcheksblog.com/diet/water_as-medicine/")).
  reflexivity.
Defined.

(* ===================================================================== *)
(** * Page URLs                                                          *)
(* ===================================================================== *)

Section PageUrlFacts.

Lemma digitValue_digitChar (n : nat) : n < 10 -> digitValue (digitChar n) = n.
Proof.
  intros H. do 10 (destruct n as [|n]; [reflexivity|]). lia.
Qed.

Lemma parse_natToStringAux (fuel n : nat) (acc : string) :
  n < fuel ->
  fold_left (fun a c => 10 * a + digitValue c)
            (list_ascii_of_string (natToStringAux fuel n acc)) 0
  = fold_left (fun a c => 10 * a + digitValue c) (list_ascii_of_string acc) n.
Proof.
  revert n acc. induction fuel as [|fuel IH]; intros n acc Hn; [lia|].
  cbn [natToStringAux]. cbv zeta. destruct (n <? 10) eqn:E.
  - apply Nat.ltb_lt in E. cbn [list_ascii_of_string fold_left].
    rewrite (Nat.mod_small n 10 E), (digitValue_digitChar n E).
    f_equal.
  - apply Nat.ltb_ge in E.
    assert (n / 10 < fuel).
    { apply Nat.Div0.div_lt_upper_bound. lia. }
    rewrite IH by assumption. cbn [list_ascii_of_string fold_left].
    rewrite digitValue_digitChar by (apply Nat.mod_upper_bound; lia).
    f_equal. pose proof (Nat.div_mod_eq n 10). lia.
Qed.

(** A number printed in decimal and parsed is the number. *)
Lemma parseDigits_natToString (n : nat) : parseDigits (natToString n) = n.
Proof.
  unfold parseDigits, natToString. rewrite parse_natToStringAux by lia.
  reflexivity.
Qed.

Lemma append_inj_l (a x y : string) : a ++ x = a ++ y -> x = y.
Proof. induction a as [|c r IH]; simpl; [easy|]. intros [= H]. auto. Qed.

Lemma append_inj_r (x y : string) (c : ascii) :
  x ++ String c "" = y ++ String c "" -> x = y.
Proof.
  revert y. induction x as [|a r IH]; intros [|b r']; simpl; intros H.
  - reflexivity.
  - injection H as _ H. destruct r'; discriminate.
  - injection H as _ H. destruct r; discriminate.
  - injection H as -> H. f_equal. now apply IH.
Qed.

End PageUrlFacts.

(** X9.  [buildPageUrl]: the pages 0 and 1 are the section's base URL; from the
    page 2 on, different page numbers give different URLs; and the URL of the
    page [n + 1] is the one the pagination step of the page [n] falls back to
    when the listing has summaries and no accepted hint. *)
Theorem buildPageUrl_pages
        (host : Host) (s : Section) (j k : nat) (result : CategoryPageResult) :
  buildPageUrl s 0 = baseUrl s
  /\ buildPageUrl s 1 = baseUrl s
  /\ (2 <= j -> 2 <= k -> buildPageUrl s j = buildPageUrl s k -> j = k)
  /\ (1 <= k ->
      isValidPaginationUrl (nextPageUrl result) = false ->
      posts result <> [] ->
      nextPageTarget host s k result = Some (buildPageUrl s (k + 1))).
Proof.
  split; [reflexivity|]. split; [reflexivity|]. split.
  - intros Hj Hk. unfold buildPageUrl.
    apply Nat.leb_gt in Hj. apply Nat.leb_gt in Hk. rewrite Hj, Hk.
    intros H. apply append_inj_l in H.
    change ("page/" ++ ?x) with (String "p" (String "a" (String "g"
             (String "e" (String "/" x))))) in H.
    injection H as H. apply append_inj_r in H.
    rewrite <- (parseDigits_natToString j), <- (parseDigits_natToString k).
    now rewrite H.
  - intros Hk Hv Hp.
    destruct (nextPageTarget_table host s k result) as (_ & -> & _); auto.
    unfold buildPageUrl.
    assert ((k + 1 <=? 1) = false) as -> by (apply Nat.leb_gt; lia).
    reflexivity.
Qed.

Lemma buildPageUrl_pages_witness :
  let result := normalizeCategoryPage Scenario.pageOfFour in
  isValidPaginationUrl (nextPageUrl result) = false
  /\ nextPageTarget refHost dietSection 1 result
     = Some "https://www.paulcheksblog.com/category/diet/page/2/"
  /\ (buildPageUrl dietSection 7 = buildPageUrl dietSection 7 -> 7 = 7).
Proof.
  intros result.
  destruct (buildPageUrl_pages refHost dietSection 7 1 result)
    as (_ & _ & _ & H).
  split; [reflexivity|]. split.
  - rewrite H; [reflexivity|lia|reflexivity|discriminate].
  - apply (buildPageUrl_pages refHost dietSection 7 7 result); lia.
Defined.

(* ===================================================================== *)
(** * The counters of the run report                                     *)
(* ===================================================================== *)

Section CountFacts.

Lemma count_nil (p : Event -> bool) : count p [] = 0.
Proof. reflexivity. Qed.

Lemma count_app (p : Event -> bool) (d1 d2 : list Event) :
  count p (d1 ++ d2) = count p d1 + count p d2.
Proof. unfold count. now rewrite filter_app, length_app. Qed.

Lemma count_cons (p : Event -> bool) (ev : Event) (d : list Event) :
  count p (ev :: d) = (if p ev then 1 else 0) + count p d.
Proof.
  unfold count. destruct (p ev) eqn:E.
  - rewrite filter_cons_True by exact E. reflexivity.
  - rewrite filter_cons_False by (rewrite E; discriminate). reflexivity.
Qed.

Lemma count_none (p : Event -> bool) (d : list Event) :
  Forall (fun ev => p ev = false) d -> count p d = 0.
Proof.
  induction 1 as [|ev d Hev Hd IH]; [reflexivity|].
  now rewrite count_cons, Hev, IH.
Qed.

Lemma count_le (p q : Event -> bool) (d : list Event) :
  (forall ev, p ev = true -> q ev = true) -> count p d <= count q d.
Proof.
  intros H. induction d as [|ev d IH]; [reflexivity|].
  rewrite !count_cons. destruct (p ev) eqn:E; [rewrite (H ev E); lia|].
  destruct (q ev); lia.
Qed.

End CountFacts.

Section StillFacts.
Variable host : Host.
Variable backend : nat -> Response.

Lemma Still_inert (w w' : World) :
  sections (runReport w') = sections (runReport w) ->
  totals (runReport w') = totals (runReport w) ->
  trace w' = trace w ->
  Still w w'.
Proof.
  intros Hs Ht Hd. split; [exact Hs|exact Ht|].
  exists []. split; [|constructor]. unfold extends. now rewrite app_nil_r.
Qed.

Lemma Still_refl (w : World) : Still w w.
Proof. now apply Still_inert. Qed.

Lemma Still_trans (w1 w2 w3 : World) : Still w1 w2 -> Still w2 w3 -> Still w1 w3.
Proof.
  intros [S1 T1 (d1 & E1 & F1)] [S2 T2 (d2 & E2 & F2)].
  split; [congruence|congruence|].
  exists (d1 ++ d2)%list. split.
  - unfold extends in *. now rewrite E2, E1, app_assoc.
  - apply Forall_app. now split.
Qed.

Local Abbreviation still := (respects Still).

Lemma still_external (c : Call) :
  isListing {| ev_healthy := true; ev_action := Called c |} = false ->
  isUpsert {| ev_healthy := true; ev_action := Called c |} = false ->
  isMarkdownWrite {| ev_healthy := true; ev_action := Called c |} = false ->
  still (external backend c).
Proof.
  intros H1 H2 H3 w. unfold external.
  assert (Still w (advance (record (Called c) w))) as H.
  { split; [reflexivity|reflexivity|]. eexists. split; [reflexivity|].
    constructor; [|constructor]. auto. }
  destruct (backend (tick w)); exact H.
Qed.

Lemma still_sleep (ms : nat) : still (sleep ms).
Proof.
  intros w. split; [reflexivity|reflexivity|]. eexists. split; [reflexivity|].
  constructor; [|constructor]. auto.
Qed.

Lemma still_modify (f : World -> World) :
  (forall w, sections (runReport (f w)) = sections (runReport w)) ->
  (forall w, totals (runReport (f w)) = totals (runReport w)) ->
  (forall w, trace (f w) = trace w) ->
  still (modify f).
Proof. intros H1 H2 H3 w. apply Still_inert; simpl; auto. Qed.

Ltac still_tac :=
  repeat first
    [ apply still_sleep
    | apply still_external; reflexivity
    | apply still_modify; reflexivity
    | apply respects_ret; apply Still_refl
    | apply respects_throw; apply Still_refl
    | apply respects_gets; apply Still_refl
    | apply respects_swallow; [apply Still_refl|apply Still_trans|]
    | apply respects_bind; [apply Still_trans| |intros ?]
    | apply respects_tryCatch; [apply Still_trans| |intros ?]
    | match goal with
      | |- respects _ (if ?b then _ else _) => destruct b
      | |- respects _ (match ?x with _ => _ end) => destruct x
      end ].

Lemma still_debugExtract (s : Section) (url : string) (n : nat) :
  still (debugExtract backend s url n).
Proof. unfold debugExtract. still_tac. Qed.

Lemma still_pageCatch (s : Section) (e : JsError) : still (pageCatch s e).
Proof.
  unfold pageCatch, setSectionStatus, setSessionHealthy. still_tac.
Qed.

Lemma still_attemptBody (s : Section) (attempt : nat) (u : string) :
  still (attemptBody host backend attempt s u).
Proof.
  unfold attemptBody, extractPostDetail, attemptCatch, countError,
    setConsecutiveSessionErrors, setSectionStatus, setSessionHealthy.
  cbv zeta. still_tac.
Qed.

Lemma still_attemptLoop (s : Section) (remaining attempt : nat) (u : string) :
  still (attemptLoop host backend remaining attempt s u).
Proof.
  revert attempt. induction remaining as [|remaining IH]; intros attempt.
  - apply respects_ret, Still_refl.
  - rewrite attemptLoop_S.
    apply respects_bind; [apply Still_trans|apply still_attemptBody|].
    intros [detail|]; [apply respects_ret, Still_refl|apply IH].
Qed.

End StillFacts.

Section TallyFacts.
Variable host : Host.
Variable backend : nat -> Response.
Variable s : Section.

Local Abbreviation Tal := (Tally (slug s)).

Lemma Tally_refl (w : World) : Tal 0 0 0 0 0 w w.
Proof.
  split; auto. exists []. split; [|split; [reflexivity|split; reflexivity]].
  unfold extends. now rewrite app_nil_r.
Qed.

Lemma Tally_trans (a b c d e a' b' c' d' e' : nat) (w1 w2 w3 : World) :
  Tal a b c d e w1 w2 -> Tal a' b' c' d' e' w2 w3 ->
  Tal (a + a') (b + b') (c + c') (d + d') (e + e') w1 w3.
Proof.
  intros [E1 P1 D1 S1 F1 TP1 TD1 TS1 TF1 TV1 O1 (d1 & X1 & L1 & M1 & U1)]
         [E2 P2 D2 S2 F2 TP2 TD2 TS2 TF2 TV2 O2 (d2 & X2 & L2 & M2 & U2)].
  split; try lia; auto.
  - intros other Hne. now rewrite (O2 other Hne), (O1 other Hne).
  - exists (d1 ++ d2)%list. rewrite !count_app. split; [|lia].
    unfold extends in *. now rewrite X2, X1, app_assoc.
Qed.

Lemma Tally_eq (a b c d e a' b' c' d' e' : nat) (w w' : World) :
  Tal a b c d e w w' ->
  a = a' -> b = b' -> c = c' -> d = d' -> e = e' ->
  Tal a' b' c' d' e' w w'.
Proof. intros H -> -> -> -> ->. exact H. Qed.

Lemma Still_Tally (w w' : World) : Still w w' -> Tal 0 0 0 0 0 w w'.
Proof.
  intros [Hs Ht (d & E & F)].
  split; unfold statsOf; rewrite ?Hs, ?Ht; auto.
  exists d. split; [exact E|].
  rewrite !count_none; [auto| | |];
    (eapply Forall_impl; [exact F|]); now intros ev (? & ? & ?).
Qed.

(** A step that rewrites the section's entry and the totals, and nothing
    else. *)
Lemma Tally_counted (st st' : SectionRunStats) (dp dd df : nat) (w w' : World) :
  sections (runReport w) !! slug s = Some st ->
  sections (runReport w') = <[slug s := st']> (sections (runReport w)) ->
  trace w' = trace w ->
  pagesVisited st' = pagesVisited st + dp ->
  postsDiscovered st' = postsDiscovered st + dd ->
  postsSaved st' = postsSaved st ->
  postsFailed st' = postsFailed st + df ->
  categoryPagesVisited (totals (runReport w'))
  = categoryPagesVisited (totals (runReport w)) + dp ->
  t_postsDiscovered (totals (runReport w'))
  = t_postsDiscovered (totals (runReport w)) + dd ->
  t_postsSaved (totals (runReport w')) = t_postsSaved (totals (runReport w)) ->
  t_postsFailed (totals (runReport w'))
  = t_postsFailed (totals (runReport w)) + df ->
  sectionsVisited (totals (runReport w')) = sectionsVisited (totals (runReport w)) ->
  Tal dp 0 dd 0 df w w'.
Proof.
  intros Hst Hs Ht. intros.
  split; unfold statsOf; rewrite ?Hs, ?Hst, ?lookup_insert_eq; simpl;
    try lia; auto.
  - intros other Hne. now rewrite lookup_insert_ne.
  - exists []. split; [|split; [reflexivity|split; reflexivity]].
    unfold extends. now rewrite app_nil_r.
Qed.

(** The two statements that count a failed post. *)
Lemma stats_then_totals {A} (st : SectionRunStats)
      (f : SectionRunStats -> SectionRunStats) (g : Totals -> Totals)
      (k : M A) (w : World) :
  sections (runReport w) !! slug s = Some st ->
  (updateSectionStats (slug s) f ;; updateTotals g ;; k) w
  = k (setReport (setTotals g)
         (setReport (setSections (insert (slug s) (f st))) w)).
Proof.
  intros Hst. unfold bind, updateSectionStats, updateTotals, modify.
  rewrite Hst. reflexivity.
Qed.

Lemma totals_then_stats {A} (st : SectionRunStats)
      (f : SectionRunStats -> SectionRunStats) (g : Totals -> Totals)
      (k : M A) (w : World) :
  sections (runReport w) !! slug s = Some st ->
  (updateTotals g ;; updateSectionStats (slug s) f ;; k) w
  = k (setReport (setSections (insert (slug s) (f st)))
         (setReport (setTotals g) w)).
Proof.
  intros Hst. unfold bind, updateSectionStats, updateTotals, modify. simpl.
  rewrite Hst. reflexivity.
Qed.

(** Handing a record to the store and to the Markdown writer: the post is
    counted as saved when both calls resolve, and only then. *)
Lemma tally_savePost (d : PostDetail) (w w' : World) (o : Outcome unit) :
  savePost host backend s d w = (o, w') ->
  is_Some (sections (runReport w) !! slug s) ->
  exists ds,
    Tal 0 0 0 ds 0 w w'
    /\ ds <= 1
    /\ (forall x, o = Returned x -> ds = 1).
Proof.
  intros E [st Hst]. unfold savePost in E. cbv zeta in E.
  unfold bind, external, updateSectionStats, updateTotals, modify in E.
  destruct (backend (tick w)) as [v1|e1]; simpl in E.
  - destruct (backend (S (tick w))) as [v2|e2]; simpl in E.
    + rewrite Hst in E. injection E as <- <-.
      exists 1. split; [|split; [lia|auto]].
      split; unfold statsOf; simpl; rewrite ?Hst, ?lookup_insert_eq; simpl;
        try lia; auto.
      * intros other Hne. now rewrite lookup_insert_ne.
      * eexists. split; [unfold extends; simpl; rewrite <- app_assoc; reflexivity|].
        vm_compute. lia.
    + injection E as <- <-.
      exists 0. split; [|split; [lia|intros x Hx; discriminate Hx]].
      split; unfold statsOf; simpl; try lia; auto.
      eexists. split; [unfold extends; simpl; rewrite <- app_assoc; reflexivity|].
      vm_compute. lia.
  - injection E as <- <-.
    exists 0. split; [|split; [lia|intros x Hx; discriminate Hx]].
    split; unfold statsOf; simpl; try lia; auto.
    eexists. split; [unfold extends; simpl; reflexivity|].
    vm_compute. lia.
Qed.

Lemma Tally_entry (a b c d e : nat) (w w' : World) :
  Tal a b c d e w w' ->
  is_Some (sections (runReport w) !! slug s) ->
  is_Some (sections (runReport w') !! slug s).
Proof. intros H. apply (ty_entry _ _ _ _ _ _ _ _ H). Qed.

(** The loop over the summaries of a page counts each summary at most once,
    as saved or as failed, and returns the number it saved on top of what it
    started with. *)
Lemma tally_postsLoop (summaries : list PostSummary) (n : nat) (w w' : World)
      (o : Outcome nat) :
  postsLoop host backend s summaries n w = (o, w') ->
  is_Some (sections (runReport w) !! slug s) ->
  exists ds df,
    Tal 0 0 0 ds df w w'
    /\ ds + df <= length summaries
    /\ (forall n', o = Returned n' -> n' = n + ds).
Proof.
  revert n w w' o. induction summaries as [|summary rest IH]; intros n w w' o E Hin.
  { injection E as <- <-. exists 0, 0. split; [apply Tally_refl|].
    split; [simpl; lia|]. intros n' [= <-]. lia. }
  assert (Hskip : forall w0 n0,
             postsLoop host backend s rest n0 w0 = (o, w') ->
             is_Some (sections (runReport w0) !! slug s) ->
             exists ds df,
               Tal 0 0 0 ds df w0 w'
               /\ ds + df <= length (summary :: rest)
               /\ (forall n', o = Returned n' -> n' = n0 + ds)).
  { intros w0 n0 E0 Hin0.
    destruct (IH n0 w0 w' o E0 Hin0) as (ds & df & HT & Hb & Hr).
    exists ds, df. split; [exact HT|]. split; [simpl; lia|exact Hr]. }
  assert (Hstop : forall w0,
             (@Returned nat n, w0) = (o, w') ->
             Tal 0 0 0 0 0 w w0 ->
             exists ds df,
               Tal 0 0 0 ds df w w'
               /\ ds + df <= length (summary :: rest)
               /\ (forall n', o = Returned n' -> n' = n + ds)).
  { intros w0 [= <- <-] HT. exists 0, 0. split; [exact HT|].
    split; [simpl; lia|]. intros n' [= <-]. lia. }
  rewrite postsLoop_cons in E. unfold bind at 1 in E. unfold gets at 1 in E.
  destruct (sessionHealthy (health w)) eqn:Hh; simpl in E;
    [|exact (Hstop w E (Tally_refl w))].
  destruct (isValidPostUrl (Some (sm_url summary))); simpl in E;
    [|exact (Hskip w n E Hin)].
  set (u := normalizePostUrl host (sm_url summary) (baseUrl s)) in E.
  unfold bind at 1 in E. unfold gets at 1 in E.
  destruct (bool_decide (u ∈ seenUrls w)); [exact (Hskip w n E Hin)|].
  unfold bind at 1 in E. unfold modify at 1 in E. unfold bind at 1 in E.
  pose proof (still_attemptLoop host backend s maxAttempts 1 u
                (setSeen (fun x => {[u]} ∪ x) w)) as Hs.
  destruct (attemptLoop_spec host backend s maxAttempts 1 u
              (setSeen (fun x => {[u]} ∪ x) w)) as [[detail Hd] _].
  destruct (attemptLoop host backend maxAttempts 1 s u
              (setSeen (fun x => {[u]} ∪ x) w)) as [o2 w2].
  simpl in Hd, Hs. subst o2.
  assert (HT2 : Tal 0 0 0 0 0 w w2).
  { apply Still_Tally. eapply Still_trans; [|exact Hs].
    now apply Still_inert. }
  pose proof (Tally_entry _ _ _ _ _ _ _ HT2 Hin) as Hin2.
  unfold bind at 1 in E. unfold gets at 1 in E.
  destruct (sessionHealthy (health w2)); simpl in E; [|exact (Hstop w2 E HT2)].
  destruct detail as [d|].
  - unfold bind at 1 in E.
    destruct (savePost host backend s d w2) as [o3 w3] eqn:E3.
    destruct (tally_savePost d w2 w3 o3 E3 Hin2) as (ds1 & HT3 & Hle & Hret).
    destruct o3 as [[]|e].
    + rewrite (Hret tt eq_refl) in HT3.
      pose proof (Tally_entry _ _ _ _ _ _ _ HT3 Hin2) as Hin3.
      destruct (IH (n + 1) w3 w' o E Hin3) as (ds & df & HT & Hb & Hr).
      exists (1 + ds), df. split; [|split; [simpl; lia|]].
      * eapply Tally_eq;
          [exact (Tally_trans _ _ _ _ _ _ _ _ _ _ _ _ _ HT2
                    (Tally_trans _ _ _ _ _ _ _ _ _ _ _ _ _ HT3 HT))|..]; lia.
      * intros n' Hn'. rewrite (Hr n' Hn'). lia.
    + injection E as <- <-.
      exists ds1, 0. split; [|split; [simpl; lia|discriminate]].
      eapply Tally_eq; [exact (Tally_trans _ _ _ _ _ _ _ _ _ _ _ _ _ HT2 HT3)|..];
        lia.
  - destruct Hin2 as [st2 Hst2].
    rewrite (stats_then_totals st2 _ _ _ w2 Hst2) in E.
    match type of E with
    | postsLoop host backend s rest n ?w0 = _ => set (w3 := w0) in E
    end.
    assert (HT3 : Tal 0 0 0 0 1 w2 w3).
    { apply (Tally_counted st2 (addPostsFailed st2)); auto. }
    assert (Hin3 : is_Some (sections (runReport w3) !! slug s)).
    { apply (Tally_entry _ _ _ _ _ _ _ HT3). eauto. }
    destruct (IH n w3 w' o E Hin3) as (ds & df & HT & Hb & Hr).
    exists ds, (1 + df). split; [|split; [simpl; lia|exact Hr]].
    eapply Tally_eq;
      [exact (Tally_trans _ _ _ _ _ _ _ _ _ _ _ _ _ HT2
                (Tally_trans _ _ _ _ _ _ _ _ _ _ _ _ _ HT3 HT))|..]; lia.
Qed.

End TallyFacts.

Section TallyLoops.
Variable host : Host.
Variable backend : nat -> Response.
Variable s : Section.

Local Abbreviation Tal := (Tally (slug s)).

Lemma extractCategoryPage_run (url : string) (w : World) :
  extractCategoryPage backend s url w
  = (match backend (tick w) with
     | Resolves v => Returned (normalizeCategoryPage v)
     | Rejects e => Thrown e
     end,
     advance (record (Called (CExtractCategory (name s) url)) w)).
Proof.
  unfold extractCategoryPage, bind, external.
  destruct (backend (tick w)); reflexivity.
Qed.

Lemma tally_listing (url : string) (w : World) :
  Tal 0 1 0 0 0 w (advance (record (Called (CExtractCategory (name s) url)) w)).
Proof.
  split; unfold statsOf; simpl; try lia; auto.
  eexists. split; [unfold extends; simpl; reflexivity|]. vm_compute. lia.
Qed.

Lemma swallow_returns (m : M unit) (w : World) :
  fst (swallow m w) = Returned tt.
Proof.
  unfold swallow, tryCatch. destruct (m w) as [[[]|e] w1]; reflexivity.
Qed.

Lemma tally_pageBody (pageNum : nat) (url : string) (tn : nat) (w w' : World)
      (o : Outcome PageResult) :
  pageBody host backend s pageNum url tn w = (o, w') ->
  is_Some (sections (runReport w) !! slug s) ->
  exists dd ds df,
    Tal 0 1 dd ds df w w'
    /\ ds + df <= dd
    /\ (forall r, o = Returned r -> exists next, r = PageNext next (tn + ds)).
Proof.
  intros E Hin. unfold pageBody in E. unfold bind at 1 in E.
  rewrite extractCategoryPage_run in E.
  pose proof (tally_listing url w) as HT1.
  pose proof (Tally_entry s _ _ _ _ _ _ _ HT1 Hin) as Hin1.
  set (w1 := advance (record (Called (CExtractCategory (name s) url)) w)) in *.
  destruct (backend (tick w)) as [v|e].
  2:{ injection E as <- <-. exists 0, 0, 0. split; [exact HT1|].
      split; [lia|discriminate]. }
  set (result := normalizeCategoryPage v) in E.
  unfold bind at 1 in E.
  set (dbg := if length (posts result) =? 0
              then debugExtract backend s url pageNum else ret tt) in E.
  assert (Hdbg : respects Still dbg /\ fst (dbg w1) = Returned tt).
  { subst dbg. destruct (length (posts result) =? 0).
    - split; [apply still_debugExtract|apply swallow_returns].
    - split; [apply respects_ret, Still_refl|reflexivity]. }
  destruct Hdbg as [Hs2 Hr2]. specialize (Hs2 w1).
  destruct (dbg w1) as [o2 w2]. simpl in Hs2, Hr2. subst o2.
  pose proof (Still_Tally s _ _ Hs2) as HT2.
  pose proof (Tally_entry s _ _ _ _ _ _ _ HT2 Hin1) as [st2 Hst2].
  rewrite (stats_then_totals s st2 _ _ _ w2 Hst2) in E.
  match type of E with
  | bind _ _ ?w0 = _ => set (w3 := w0) in E
  end.
  assert (HT3 : Tal 0 0 (length (posts result)) 0 0 w2 w3).
  { apply (Tally_counted s st2 (addPostsDiscovered (length (posts result)) st2));
      auto. }
  assert (Hin3 : is_Some (sections (runReport w3) !! slug s)).
  { apply (Tally_entry s _ _ _ _ _ _ _ HT3). eauto. }
  unfold bind at 1 in E.
  destruct (postsLoop host backend s (posts result) 0 w3) as [o4 w4] eqn:E4.
  destruct (tally_postsLoop host backend s _ _ _ _ _ E4 Hin3)
    as (ds & df & HT4 & Hb & Hr).
  exists (length (posts result)), ds, df.
  assert (HT : Tal 0 1 (length (posts result)) ds df w w4).
  { eapply Tally_eq;
      [exact (Tally_trans s _ _ _ _ _ _ _ _ _ _ _ _ _ HT1
                (Tally_trans s _ _ _ _ _ _ _ _ _ _ _ _ _ HT2
                   (Tally_trans s _ _ _ _ _ _ _ _ _ _ _ _ _ HT3 HT4)))|..]; lia. }
  destruct o4 as [k|e]; injection E as <- <-.
  - split; [exact HT|]. split; [exact Hb|].
    intros r [= <-]. rewrite (Hr k eq_refl). simpl. eauto.
  - split; [exact HT|]. split; [exact Hb|discriminate].
Qed.

Lemma tally_pageTry (pageNum : nat) (url : string) (tn : nat) (w w' : World)
      (o : Outcome PageResult) :
  tryCatch (pageBody host backend s pageNum url tn) (pageCatch s) w = (o, w') ->
  is_Some (sections (runReport w) !! slug s) ->
  exists dd ds df,
    Tal 0 1 dd ds df w w'
    /\ ds + df <= dd
    /\ exists r, o = Returned r
                 /\ (forall next tn', r = PageNext next tn' -> tn' = tn + ds).
Proof.
  intros E Hin. unfold tryCatch in E.
  destruct (pageBody host backend s pageNum url tn w) as [o1 w1] eqn:E1.
  destruct (tally_pageBody _ _ _ _ _ _ E1 Hin) as (dd & ds & df & HT & Hb & Hr).
  exists dd, ds, df. destruct o1 as [r|e].
  - injection E as <- <-. split; [exact HT|]. split; [exact Hb|].
    exists r. split; [reflexivity|]. intros next tn' ->.
    destruct (Hr _ eq_refl) as (next' & [= _ ->]). reflexivity.
  - pose proof (still_pageCatch s e w1) as Hs.
    assert (Hret : fst (pageCatch s e w1) = Returned PageBreak).
    { unfold pageCatch, bind. now destruct (isStagehandSessionError e). }
    rewrite E in Hs, Hret. simpl in Hs, Hret. subst o.
    split; [|split; [exact Hb|]].
    + eapply Tally_eq;
        [exact (Tally_trans s _ _ _ _ _ _ _ _ _ _ _ _ _ HT (Still_Tally s _ _ Hs))
        |..]; lia.
    + exists PageBreak. split; [reflexivity|discriminate].
Qed.

(** The page loop: each page it visits is counted once in the section's
    statistics and once in the totals, and has one listing extraction; it
    visits at most [remaining] pages. *)
Lemma tally_pageLoop (remaining pageNum : nat) (cur : option string) (tn : nat)
      (w w' : World) (o : Outcome nat) :
  pageLoop host backend remaining pageNum s cur tn w = (o, w') ->
  is_Some (sections (runReport w) !! slug s) ->
  exists dp dd ds df,
    Tal dp dp dd ds df w w'
    /\ dp <= remaining
    /\ ds + df <= dd
    /\ (forall n, o = Returned n -> tn <= n /\ n <= tn + ds).
Proof.
  revert pageNum cur tn w w' o.
  induction remaining as [|remaining IH]; intros pageNum cur tn w w' o E Hin.
  { injection E as <- <-. exists 0, 0, 0, 0. split; [apply Tally_refl|].
    repeat split; try lia; injection H as <-; lia. }
  assert (Hstop : forall w0,
             (@Returned nat tn, w0) = (o, w') ->
             Tal 0 0 0 0 0 w w0 ->
             exists dp dd ds df,
               Tal dp dp dd ds df w w'
               /\ dp <= S remaining
               /\ ds + df <= dd
               /\ (forall n, o = Returned n -> tn <= n /\ n <= tn + ds)).
  { intros w0 [= <- <-] HT. exists 0, 0, 0, 0. split; [exact HT|].
    repeat split; try lia; injection H as <-; lia. }
  rewrite pageLoop_S in E. destruct cur as [url|];
    [|exact (Hstop w E (Tally_refl s w))].
  unfold bind at 1 in E. unfold gets at 1 in E.
  destruct (JsString.truthy url); simpl in E;
    [|exact (Hstop w E (Tally_refl s w))].
  destruct (sessionHealthy (health w)); simpl in E;
    [|exact (Hstop w E (Tally_refl s w))].
  unfold bind at 1 in E.
  set (nav := if 1 <? pageNum
              then (_ <- external backend (CGoto url) ;; sleep 3000)
              else ret tt) in E.
  assert (Hnav : respects Still nav).
  { subst nav. destruct (1 <? pageNum); [|apply respects_ret, Still_refl].
    apply respects_bind; [apply Still_trans| |intros ?].
    - apply still_external; reflexivity.
    - apply still_sleep. }
  specialize (Hnav w). destruct (nav w) as [[[]|e] w1]; simpl in Hnav.
  2:{ injection E as <- <-. exists 0, 0, 0, 0.
      split; [now apply Still_Tally|]. repeat split; try lia; discriminate. }
  pose proof (Still_Tally s _ _ Hnav) as HT1.
  pose proof (Tally_entry s _ _ _ _ _ _ _ HT1 Hin) as [st1 Hst1].
  rewrite (totals_then_stats s st1 _ _ _ w1 Hst1) in E.
  match type of E with
  | bind _ _ ?w0 = _ => set (w2 := w0) in E
  end.
  assert (HT2 : Tal 1 0 0 0 0 w1 w2).
  { apply (Tally_counted s st1 (addPagesVisited st1)); auto. }
  assert (Hin2 : is_Some (sections (runReport w2) !! slug s)).
  { apply (Tally_entry s _ _ _ _ _ _ _ HT2). eauto. }
  unfold bind at 1 in E.
  destruct (tryCatch (pageBody host backend s pageNum url tn) (pageCatch s) w2)
    as [o3 w3] eqn:E3.
  destruct (tally_pageTry _ _ _ _ _ _ E3 Hin2)
    as (dd & ds & df & HT3 & Hb & r & -> & Hr).
  pose proof (Tally_entry s _ _ _ _ _ _ _ HT3 Hin2) as Hin3.
  assert (HT : Tal 1 1 dd ds df w w3).
  { eapply Tally_eq;
      [exact (Tally_trans s _ _ _ _ _ _ _ _ _ _ _ _ _ HT1
                (Tally_trans s _ _ _ _ _ _ _ _ _ _ _ _ _ HT2 HT3))|..]; lia. }
  destruct r as [next tn'|].
  - rewrite (Hr next tn' eq_refl) in E.
    destruct (IH _ _ _ _ _ _ E Hin3)
      as (dp' & dd' & ds' & df' & HT' & Hp' & Hb' & Hr').
    exists (1 + dp'), (dd + dd'), (ds + ds'), (df + df').
    split; [exact (Tally_trans s _ _ _ _ _ _ _ _ _ _ _ _ _ HT HT')|].
    split; [lia|]. split; [lia|].
    intros n Hn. destruct (Hr' n Hn). lia.
  - injection E as <- <-. exists 1, dd, ds, df.
    split; [exact HT|]. split; [lia|]. split; [exact Hb|].
    intros n [= <-]. lia.
Qed.

Lemma tally_scrapeSection (maxPages : nat) (w w' : World) (o : Outcome nat) :
  scrapeSection host backend s maxPages w = (o, w') ->
  is_Some (sections (runReport w) !! slug s) ->
  exists dp dd ds df,
    Tal dp dp dd ds df w w'
    /\ dp <= maxPages
    /\ ds + df <= dd
    /\ (forall n, o = Returned n -> n <= ds).
Proof.
  intros E Hin. unfold scrapeSection in E.
  unfold bind at 1 in E. unfold modify at 1 in E.
  unfold bind at 1 in E.
  pose proof (still_external backend (CNewPage (baseUrl s)) eq_refl eq_refl
                eq_refl (setHealthW freshHealth w)) as H1.
  destruct (external backend (CNewPage (baseUrl s)) (setHealthW freshHealth w))
    as [[v|e] w1]; simpl in H1.
  2:{ injection E as <- <-. exists 0, 0, 0, 0.
      split; [|repeat split; try lia; discriminate].
      apply Still_Tally. eapply Still_trans; [|exact H1]. now apply Still_inert. }
  unfold bind at 1 in E. unfold sleep at 1, modify at 1 in E.
  assert (HT1 : Tal 0 0 0 0 0 w (record (Slept 3000) w1)).
  { apply Still_Tally. eapply Still_trans; [|eapply Still_trans; [exact H1|]].
    - now apply Still_inert.
    - apply (still_sleep 3000 w1). }
  pose proof (Tally_entry s _ _ _ _ _ _ _ HT1 Hin) as Hin1.
  destruct (tally_pageLoop _ _ _ _ _ _ _ E Hin1)
    as (dp & dd & ds & df & HT & Hp & Hb & Hr).
  exists dp, dd, ds, df.
  split; [exact (Tally_trans s _ _ _ _ _ _ _ _ _ _ _ _ _ HT1 HT)|].
  split; [exact Hp|]. split; [exact Hb|].
  intros n Hn. destruct (Hr n Hn). lia.
Qed.

End TallyLoops.

(** X10.  The crawl of a section moves the section's statistics and the totals of
    the run in step: pages visited, summaries discovered, posts saved and
    posts failed grow by the same amounts in both; the count of sections
    visited and the statistics of the other sections are left alone.  This
    holds however the crawl ends, given that the report has an entry for the
    section. *)
Theorem section_statistics_match_totals
        (host : Host) (backend : nat -> Response) (s : Section)
        (maxPages : nat) (w : World) (st : SectionRunStats) :
  sections (runReport w) !! slug s = Some st ->
  let w' := snd (scrapeSection host backend s maxPages w) in
  exists st' dp dd ds df,
    sections (runReport w') !! slug s = Some st'
    /\ pagesVisited st' = pagesVisited st + dp
    /\ postsDiscovered st' = postsDiscovered st + dd
    /\ postsSaved st' = postsSaved st + ds
    /\ postsFailed st' = postsFailed st + df
    /\ categoryPagesVisited (totals (runReport w'))
       = categoryPagesVisited (totals (runReport w)) + dp
    /\ t_postsDiscovered (totals (runReport w'))
       = t_postsDiscovered (totals (runReport w)) + dd
    /\ t_postsSaved (totals (runReport w'))
       = t_postsSaved (totals (runReport w)) + ds
    /\ t_postsFailed (totals (runReport w'))
       = t_postsFailed (totals (runReport w)) + df
    /\ sectionsVisited (totals (runReport w'))
       = sectionsVisited (totals (runReport w))
    /\ (forall other, other <> slug s ->
           sections (runReport w') !! other = sections (runReport w) !! other).
Proof.
  intros Hst w'. subst w'.
  destruct (scrapeSection host backend s maxPages w) as [o w'] eqn:E.
  destruct (tally_scrapeSection host backend s maxPages w w' o E
              (ex_intro _ st Hst))
    as (dp & dd & ds & df & HT & _).
  destruct HT as [He P D S F TP TD TS TF TV O _].
  destruct (He (ex_intro _ st Hst)) as [st' Hst'].
  unfold statsOf in P, D, S, F. rewrite Hst, Hst' in P, D, S, F. simpl in *.
  exists st', dp, dd, ds, df. repeat split; auto.
Qed.

Lemma section_statistics_match_totals_witness :
  let w' := snd (scrapeSection refHost quietBackend dietSection 10 start) in
  sections (runReport start) !! slug dietSection = Some zeroStats
  /\ exists st',
       sections (runReport w') !! slug dietSection = Some st'
       /\ pagesVisited st' = categoryPagesVisited (totals (runReport w'))
       /\ postsSaved st' = t_postsSaved (totals (runReport w')).
Proof.
  intros w'. split; [reflexivity|].
  destruct (section_statistics_match_totals refHost quietBackend dietSection 10
              start zeroStats eq_refl)
    as (st' & dp & dd & ds & df & H1 & H2 & _ & H4 & _ & H6 & _ & H8 & _).
  exists st'. split; [exact H1|]. fold w' in H6, H8.
  rewrite H2, H4, H6, H8. split; reflexivity.
Defined.

(** X11.  The page budget: the crawl of a section issues at most
    [maxPagesPerSection] listing extractions, and the section's count of
    pages visited grows by exactly the number of listing extractions
    issued. *)
Theorem page_budget_respected
        (host : Host) (backend : nat -> Response) (s : Section)
        (maxPages : nat) (w : World) (st : SectionRunStats) :
  sections (runReport w) !! slug s = Some st ->
  let w' := snd (scrapeSection host backend s maxPages w) in
  exists d,
    trace w' = (trace w ++ d)%list
    /\ count isListing d <= maxPages
    /\ pagesVisited (statsOf (slug s) w') = pagesVisited st + count isListing d.
Proof.
  intros Hst w'. subst w'.
  destruct (scrapeSection host backend s maxPages w) as [o w'] eqn:E.
  destruct (tally_scrapeSection host backend s maxPages w w' o E
              (ex_intro _ st Hst))
    as (dp & dd & ds & df & HT & Hp & _).
  destruct HT as [_ P _ _ _ _ _ _ _ _ _ (d & X & L & _)].
  unfold statsOf in P at 2. rewrite Hst in P. simpl in *.
  exists d. split; [exact X|]. rewrite L. split; [exact Hp|exact P].
Qed.

Lemma page_budget_respected_witness :
  let w' := snd (scrapeSection refHost quietBackend dietSection 1 start) in
  sections (runReport start) !! slug dietSection = Some zeroStats
  /\ exists d, trace w' = (trace start ++ d)%list /\ count isListing d <= 1.
Proof.
  intros w'. split; [reflexivity|].
  destruct (page_budget_respected refHost quietBackend dietSection 1
              start zeroStats eq_refl) as (d & H1 & H2 & _).
  exists d. split; [exact H1|exact H2].
Defined.

(** X12.  What the crawl of a section counts: the posts saved and the posts failed
    together never exceed the summaries discovered; every post counted as
    saved has its Markdown write in the trace, and every Markdown write comes
    with an upsert; and the number the crawl returns never exceeds the posts
    it counted as saved. *)
Theorem saved_and_failed_accounted
        (host : Host) (backend : nat -> Response) (s : Section)
        (maxPages : nat) (w : World) (st : SectionRunStats) :
  sections (runReport w) !! slug s = Some st ->
  let w' := snd (scrapeSection host backend s maxPages w) in
  exists d dd ds df,
    trace w' = (trace w ++ d)%list
    /\ postsDiscovered (statsOf (slug s) w') = postsDiscovered st + dd
    /\ postsSaved (statsOf (slug s) w') = postsSaved st + ds
    /\ postsFailed (statsOf (slug s) w') = postsFailed st + df
    /\ ds + df <= dd
    /\ ds <= count isMarkdownWrite d
    /\ count isMarkdownWrite d <= count isUpsert d
    /\ (forall n, fst (scrapeSection host backend s maxPages w) = Returned n ->
                  n <= ds).
Proof.
  intros Hst w'. subst w'.
  destruct (scrapeSection host backend s maxPages w) as [o w'] eqn:E.
  destruct (tally_scrapeSection host backend s maxPages w w' o E
              (ex_intro _ st Hst))
    as (dp & dd & ds & df & HT & _ & Hb & Hr).
  destruct HT as [_ _ D S F _ _ _ _ _ _ (d & X & _ & M & U)].
  unfold statsOf in D at 2, S at 2, F at 2. rewrite Hst in D, S, F. simpl in *.
  exists d, dd, ds, df. repeat split; auto.
Qed.

Lemma saved_and_failed_accounted_witness :
  let w' := snd (scrapeSection refHost quietBackend dietSection 10 start) in
  sections (runReport start) !! slug dietSection = Some zeroStats
  /\ postsSaved (statsOf (slug dietSection) w')
     + postsFailed (statsOf (slug dietSection) w')
     <= postsDiscovered (statsOf (slug dietSection) w').
Proof.
  intros w'. split; [reflexivity|].
  destruct (saved_and_failed_accounted refHost quietBackend dietSection 10
              start zeroStats eq_refl)
    as (d & dd & ds & df & _ & H2 & H3 & H4 & H5 & _).
  fold w' in H2, H3, H4. rewrite H2, H3, H4. simpl. lia.
Defined.

Section BalanceFacts.
Variable host : Host.
Variable backend : nat -> Response.

Lemma still_sectionFinally : respects Still (sectionFinally backend).
Proof.
  unfold sectionFinally.
  repeat first
    [ apply still_external; reflexivity
    | apply respects_ret; apply Still_refl
    | apply respects_swallow; [apply Still_refl|apply Still_trans|]
    | apply respects_bind; [apply Still_trans| |intros ?] ].
Qed.

Lemma still_readSectionStats (sl : string) : respects Still (readSectionStats sl).
Proof.
  intros w. unfold readSectionStats.
  destruct (sections (runReport w) !! sl); apply Still_refl.
Qed.

Lemma still_sectionCheckpoint (s : Section) :
  respects Still (sectionCheckpoint backend s).
Proof.
  unfold sectionCheckpoint.
  repeat first
    [ apply still_readSectionStats
    | apply still_external; reflexivity
    | apply respects_ret; apply Still_refl
    | apply respects_gets; apply Still_refl
    | apply respects_swallow; [apply Still_refl|apply Still_trans|]
    | apply respects_bind; [apply Still_trans| |intros ?]
    | progress cbv zeta ].
Qed.

Lemma still_sectionCatch (s : Section) (e : JsError) :
  respects Still (sectionCatch s e).
Proof.
  unfold sectionCatch, setSectionStatus.
  repeat first
    [ apply still_modify; reflexivity
    | apply respects_ret; apply Still_refl
    | apply respects_gets; apply Still_refl
    | apply respects_bind; [apply Still_trans| |intros ?]
    | match goal with
      | |- respects _ (if ?b then _ else _) => destruct b
      end ].
Qed.

(** The [try] block of a section in [main], with its [catch] block. *)
Lemma tally_sectionTry (s : Section) (maxPages : nat) (w w' : World)
      (o : Outcome nat) :
  tryCatch (sectionTry host backend maxPages s) (sectionCatch s) w = (o, w') ->
  is_Some (sections (runReport w) !! slug s) ->
  exists dp dd ds df,
    Tally (slug s) dp dp dd ds df w w' /\ dp <= maxPages /\ ds + df <= dd
    /\ (forall n, o = Returned n -> n <= ds).
Proof.
  intros E Hin.
  assert (Hzero : forall e w1, fst (sectionCatch s e w1) = Returned 0).
  { intros e w1. unfold sectionCatch, bind, gets.
    now destruct (isPending _). }
  assert (Hcatch : forall e w1,
             sectionCatch s e w1 = (o, w') ->
             Still w w1 ->
             exists dp dd ds df,
               Tally (slug s) dp dp dd ds df w w'
               /\ dp <= maxPages /\ ds + df <= dd
               /\ (forall n, o = Returned n -> n <= ds)).
  { intros e w1 Ec Hs. pose proof (still_sectionCatch s e w1) as Hc.
    pose proof (Hzero e w1) as Hz.
    rewrite Ec in Hc, Hz. simpl in Hc, Hz. subst o. exists 0, 0, 0, 0.
    split; [|repeat split; try lia; intros n [= <-]; lia].
    apply Still_Tally. eapply Still_trans; eauto. }
  unfold tryCatch, sectionTry in E. unfold bind at 1 in E.
  pose proof (still_external backend CStagehandInit eq_refl eq_refl eq_refl w)
    as H1.
  destruct (external backend CStagehandInit w) as [[v1|e1] w1]; simpl in H1;
    [|exact (Hcatch e1 w1 E H1)].
  unfold bind at 1 in E.
  pose proof (still_external backend CGetPage eq_refl eq_refl eq_refl w1) as H2.
  destruct (external backend CGetPage w1) as [[page|e2] w2]; simpl in H2;
    [|exact (Hcatch e2 w2 E (Still_trans _ _ _ H1 H2))].
  pose proof (Still_trans _ _ _ H1 H2) as H12.
  destruct (Js.truthy page); simpl in E; [|exact (Hcatch _ w2 E H12)].
  unfold bind at 1 in E.
  pose proof (Still_Tally s _ _ H12) as HT0.
  pose proof (Tally_entry s _ _ _ _ _ _ _ HT0 Hin) as Hin2.
  destruct (scrapeSection host backend s maxPages w2) as [o3 w3] eqn:E3.
  destruct (tally_scrapeSection host backend s maxPages w2 w3 o3 E3 Hin2)
    as (dp & dd & ds & df & HT & Hp & Hb & Hr).
  assert (Hend : forall w4, Still w3 w4 ->
                            Tally (slug s) dp dp dd ds df w w4).
  { intros w4 Hs. eapply Tally_eq;
      [exact (Tally_trans s _ _ _ _ _ _ _ _ _ _ _ _ _ HT0
                (Tally_trans s _ _ _ _ _ _ _ _ _ _ _ _ _ HT (Still_Tally s _ _ Hs)))
      |..]; lia. }
  exists dp, dd, ds, df.
  destruct o3 as [n|e3].
  - unfold bind, gets in E.
    destruct (isPending (sectionStatus (runReport w3) !! slug s));
      simpl in E; injection E as <- <-;
      (split; [apply Hend; [now apply Still_inert || apply Still_refl]|]);
      (split; [exact Hp|]); (split; [exact Hb|]);
      intros k [= <-]; now apply Hr.
  - pose proof (still_sectionCatch s e3 w3) as Hc.
    pose proof (Hzero e3 w3) as Hz. rewrite E in Hc, Hz. simpl in Hz. subst o.
    split; [now apply Hend|]. split; [exact Hp|]. split; [exact Hb|].
    intros k [= <-]. lia.
Qed.

(** One pass of the section loop of [main]. *)
Lemma tally_processSection (s : Section) (maxPages : nat) (w w' : World)
      (o : Outcome nat) :
  processSection host backend maxPages s w = (o, w') ->
  is_Some (sections (runReport w) !! slug s) ->
  exists dp dd ds df,
    Tally (slug s) dp dp dd ds df
      (setReport (setTotals addSectionsVisitedT) w) w'
    /\ dp <= maxPages /\ ds + df <= dd
    /\ (forall n, o = Returned n -> n <= ds).
Proof.
  intros E Hin. unfold processSection in E.
  unfold bind at 1 in E. unfold updateTotals, modify at 1 in E.
  set (w0 := setReport (setTotals addSectionsVisitedT) w) in *.
  unfold bind at 1 in E.
  pose proof (still_external backend CNewStagehand eq_refl eq_refl eq_refl w0)
    as H1.
  destruct (external backend CNewStagehand w0) as [[v1|e1] w1]; simpl in H1.
  2:{ injection E as <- <-. exists 0, 0, 0, 0.
      split; [now apply Still_Tally|]. repeat split; try lia; discriminate. }
  unfold bind at 1 in E.
  destruct (tryCatch (sectionTry host backend maxPages s) (sectionCatch s) w1)
    as [o2 w2] eqn:E2.
  pose proof (Still_Tally s _ _ H1) as HT1.
  assert (Hin1 : is_Some (sections (runReport w1) !! slug s)).
  { apply (Tally_entry s _ _ _ _ _ _ _ HT1). exact Hin. }
  destruct (tally_sectionTry s maxPages w1 w2 o2 E2 Hin1)
    as (dp & dd & ds & df & HT & Hp & Hb & Hr).
  exists dp, dd, ds, df.
  assert (Hrest : forall k : nat,
             respects Still (sectionFinally backend ;;
                             sectionCheckpoint backend s ;; ret k)).
  { intros k. apply respects_bind; [apply Still_trans|apply still_sectionFinally|].
    intros _. apply respects_bind;
      [apply Still_trans|apply still_sectionCheckpoint|].
    intros _. apply respects_ret, Still_refl. }
  assert (Hkeep : forall k x : nat, fst ((sectionFinally backend ;;
                                     sectionCheckpoint backend s ;; ret k) w2)
                                = Returned x -> x = k).
  { intros k x. unfold bind.
    destruct (sectionFinally backend w2) as [[[]|ef] wf]; [|discriminate].
    destruct (sectionCheckpoint backend s wf) as [[[]|ec] wc]; [|discriminate].
    now intros [= <-]. }
  destruct o2 as [k|e2].
  - pose proof (Hkeep k) as Hk. specialize (Hrest k w2).
    rewrite E in Hrest, Hk. simpl in Hrest, Hk.
    split; [|split; [exact Hp|split; [exact Hb|]]].
    + eapply Tally_eq;
        [exact (Tally_trans s _ _ _ _ _ _ _ _ _ _ _ _ _ HT1
                  (Tally_trans s _ _ _ _ _ _ _ _ _ _ _ _ _ HT
                     (Still_Tally s _ _ Hrest)))|..]; lia.
    + intros n ->. rewrite (Hk n eq_refl). now apply Hr.
  - injection E as <- <-.
    split; [|split; [exact Hp|split; [exact Hb|discriminate]]].
    eapply Tally_eq; [exact (Tally_trans s _ _ _ _ _ _ _ _ _ _ _ _ _ HT1 HT)|..];
      lia.
Qed.

Lemma sumStats_cons (f : SectionRunStats -> nat) (x : string)
      (rest : list string) (w : World) :
  sumStats f (x :: rest) w = f (statsOf x w) + sumStats f rest w.
Proof. reflexivity. Qed.

Lemma statsOf_same (x : string) (w w' : World) :
  sections (runReport w') !! x = sections (runReport w) !! x ->
  statsOf x w' = statsOf x w.
Proof. intros H. unfold statsOf. now rewrite H. Qed.

Lemma sumStats_others (f : SectionRunStats -> nat) (slugs : list string)
      (sl : string) (w w' : World) :
  sl ∉ slugs ->
  (forall other, other <> sl ->
      sections (runReport w') !! other = sections (runReport w) !! other) ->
  sumStats f slugs w' = sumStats f slugs w.
Proof.
  intros Hn Ho. induction slugs as [|x rest IH]; [reflexivity|].
  apply not_elem_of_cons in Hn as [Hx Hrest].
  rewrite !sumStats_cons, (statsOf_same x w w') by (apply Ho; congruence).
  now rewrite IH.
Qed.

Lemma sumStats_step (f : SectionRunStats -> nat) (slugs : list string)
      (sl : string) (delta : nat) (w w' : World) :
  NoDup slugs -> sl ∈ slugs ->
  f (statsOf sl w') = f (statsOf sl w) + delta ->
  (forall other, other <> sl ->
      sections (runReport w') !! other = sections (runReport w) !! other) ->
  sumStats f slugs w' = sumStats f slugs w + delta.
Proof.
  intros Hnd Hin Hf Ho. induction Hnd as [|x rest Hx Hnd IH];
    [now apply elem_of_nil in Hin|].
  rewrite !sumStats_cons. apply elem_of_cons in Hin as [<- | Hin].
  - rewrite Hf, (sumStats_others f rest sl w w' Hx Ho). lia.
  - assert (x <> sl) by (intros ->; contradiction).
    rewrite (statsOf_same x w w') by now apply Ho.
    rewrite (IH Hin). lia.
Qed.

Lemma Balanced_Tally (slugs : list string) (sl : string)
      (dp dl dd ds df : nat) (w w' : World) :
  NoDup slugs -> sl ∈ slugs ->
  Balanced slugs w -> Tally sl dp dl dd ds df w w' -> Balanced slugs w'.
Proof.
  intros Hnd Hin [B0 B1 B2 B3 B4]
         [E1 P1 D1 S1 F1 TP1 TD1 TS1 TF1 TV1 O1 _].
  split.
  - eapply Forall_impl; [exact B0|]. intros x Hx. simpl in *.
    destruct (decide (x = sl)) as [->|Hne]; [auto|]. now rewrite (O1 x Hne).
  - rewrite TP1, B1. symmetry. now apply (sumStats_step _ slugs sl).
  - rewrite TD1, B2. symmetry. now apply (sumStats_step _ slugs sl).
  - rewrite TS1, B3. symmetry. now apply (sumStats_step _ slugs sl).
  - rewrite TF1, B4. symmetry. now apply (sumStats_step _ slugs sl).
Qed.

Lemma balanced_processSection (slugs : list string) (s : Section)
      (maxPages : nat) (w : World) :
  NoDup slugs -> slug s ∈ slugs ->
  Balanced slugs w ->
  Balanced slugs (snd (processSection host backend maxPages s w)).
Proof.
  intros Hnd Hin Hb.
  assert (Hentry : is_Some (sections (runReport w) !! slug s)).
  { destruct Hb as [B0 _ _ _ _]. rewrite Forall_forall in B0. now apply B0. }
  destruct (processSection host backend maxPages s w) as [o w'] eqn:E.
  destruct (tally_processSection s maxPages w w' o E Hentry)
    as (dp & dd & ds & df & HT & _).
  apply (Balanced_Tally slugs (slug s) _ _ _ _ _ _ w' Hnd Hin) in HT;
    [exact HT|].
  destruct Hb as [B0 B1 B2 B3 B4]. split; auto.
Qed.

Lemma balanced_runSections (slugs : list string) (todo : list Section)
      (maxPages tn : nat) (w : World) :
  NoDup slugs -> Forall (fun s => slug s ∈ slugs) todo ->
  Balanced slugs w ->
  Balanced slugs (snd (runSections host backend maxPages todo tn w)).
Proof.
  intros Hnd Htodo. revert tn w.
  induction Htodo as [|s rest Hs Hrest IH]; intros tn w Hb; [exact Hb|].
  simpl. unfold bind.
  pose proof (balanced_processSection slugs s maxPages w Hnd Hs Hb) as H1.
  destruct (processSection host backend maxPages s w) as [[k|e] w1];
    simpl in H1; [|exact H1].
  now apply IH.
Qed.

Lemma Tally_keeps_entries (sl x : string) (dp dl dd ds df : nat) (w w' : World) :
  Tally sl dp dl dd ds df w w' ->
  is_Some (sections (runReport w) !! x) ->
  is_Some (sections (runReport w') !! x).
Proof.
  intros HT. destruct (decide (x = sl)) as [->|Hne].
  - apply (ty_entry _ _ _ _ _ _ _ _ HT).
  - now rewrite (ty_others _ _ _ _ _ _ _ _ HT x Hne).
Qed.

(** The number the section loop returns is what it started with plus, at
    most, the posts that were counted as saved on the way. *)
Lemma saved_runSections (todo : list Section) (maxPages tn : nat)
      (w w' : World) (n : nat) :
  Forall (fun s => is_Some (sections (runReport w) !! slug s)) todo ->
  runSections host backend maxPages todo tn w = (Returned n, w') ->
  n + t_postsSaved (totals (runReport w))
  <= tn + t_postsSaved (totals (runReport w')).
Proof.
  revert tn w. induction todo as [|s rest IH]; intros tn w Hin E.
  - injection E as <- <-. lia.
  - apply Forall_cons in Hin as [Hs Hrest]. simpl in E. unfold bind in E.
    destruct (processSection host backend maxPages s w) as [o1 w1] eqn:E1.
    destruct (tally_processSection s maxPages w w1 o1 E1 Hs)
      as (dp & dd & ds & df & HT & _ & _ & Hr).
    destruct o1 as [k|e]; [|discriminate E].
    assert (Hrest1 : Forall (fun s => is_Some (sections (runReport w1) !! slug s))
                            rest).
    { eapply Forall_impl; [exact Hrest|]. intros x Hx.
      exact (Tally_keeps_entries _ _ _ _ _ _ _ _ _ HT Hx). }
    specialize (IH (tn + k) w1 Hrest1 E).
    pose proof (ty_tsaved _ _ _ _ _ _ _ _ HT) as Hsaved. simpl in Hsaved.
    specialize (Hr k eq_refl). lia.
Qed.

End BalanceFacts.

(** X13.  When the section loop of [main] ends, however it ends, the totals of the
    run report are the sums of the statistics of the configured sections:
    pages visited, summaries discovered, posts saved, posts failed. *)
Theorem totals_are_sums_of_sections
        (host : Host) (backend : nat -> Response) (maxPages : nat)
        (existing : gset string) :
  Balanced (map slug SECTIONS) (snd (mainCrawl host backend maxPages existing)).
Proof.
  unfold mainCrawl. apply balanced_runSections.
  - unfold SECTIONS. simpl. repeat (apply NoDup_cons; split);
      [..|apply NoDup_nil_2]; rewrite ?elem_of_cons, elem_of_nil;
      intros H; repeat (destruct H as [H|H]; [discriminate H|]); exact H.
  - unfold SECTIONS. repeat (apply Forall_cons; split);
      [..|apply Forall_nil_2]; simpl; rewrite ?elem_of_cons; tauto.
  - split; [|reflexivity..].
    unfold SECTIONS. simpl. repeat (apply Forall_cons; split);
      [..|apply Forall_nil_2]; vm_compute; eauto.
Qed.

(** X14.  The number of new posts that [main] reports at the end of a run never
    exceeds the posts saved that the totals of the run report count. *)
Theorem reported_total_bounded
        (host : Host) (backend : nat -> Response) (maxPages : nat)
        (existing : gset string) (n : nat) :
  fst (mainCrawl host backend maxPages existing) = Returned n ->
  n <= t_postsSaved (totals (runReport
                       (snd (mainCrawl host backend maxPages existing)))).
Proof.
  unfold mainCrawl.
  destruct (runSections host backend maxPages SECTIONS 0 (initialWorld existing))
    as [o w'] eqn:E.
  simpl. intros ->.
  apply (saved_runSections host backend SECTIONS maxPages 0 (initialWorld existing) w' n) in E.
  - simpl in E. lia.
  - unfold SECTIONS. repeat (apply Forall_cons; split); [..|apply Forall_nil_2];
      vm_compute; eauto.
Qed.

Lemma reported_total_witness :
  let backend := fun n : nat => match n with
                                | 2 => Resolves (JBool true)
                                | 4 => Resolves pageOne
                                | 5 => Resolves newPostDetail
                                | _ => Resolves JNull
                                end in
  let r := mainCrawl refHost backend 10 {[ oldPost ]} in
  fst r = Returned 1
  /\ 1 <= t_postsSaved (totals (runReport (snd r))).
Proof.
  intros backend r.
  assert (H : fst r = Returned 1) by (vm_compute; reflexivity).
  split; [exact H|].
  exact (reported_total_bounded refHost backend 10 {[ oldPost ]} 1 H).
Defined.

(* ===================================================================== *)
(** * Properties of the trace that every part of the crawl keeps          *)
(* ===================================================================== *)

(** A relation between worlds that looks at the set and at the trace only,
    that every step outside the retry logic keeps, and that the retry loop
    keeps for a valid link that was not in the set: the whole crawl keeps
    it. *)
Section CrawlInduction.
Variable host : Host.
Variable backend : nat -> Response.
Variable R : World -> World -> Prop.
Variable scope : Section -> Prop.

Hypothesis R_trans : forall w1 w2 w3, R w1 w2 -> R w2 w3 -> R w1 w3.
Hypothesis R_inert :
  forall w w', seenUrls w' = seenUrls w -> trace w' = trace w -> R w w'.
Hypothesis R_quiet : forall w w', Quiet w w' -> R w w'.
Hypothesis R_attempt :
  forall s link w w2,
    scope s ->
    isValidPostUrl (Some link) = true ->
    normalizePostUrl host link (baseUrl s) ∉ seenUrls w ->
    Attempted (slug s) (normalizePostUrl host link (baseUrl s)) maxAttempts
      (setSeen (fun x => {[ normalizePostUrl host link (baseUrl s) ]} ∪ x) w) w2 ->
    R w w2.

Lemma R_refl (w : World) : R w w.
Proof. now apply R_inert. Qed.

Lemma keeps_quiet {A} (m : M A) : respects Quiet m -> respects R m.
Proof. intros H w. apply R_quiet, H. Qed.

Lemma keeps_modify (f : World -> World) :
  (forall w, seenUrls (f w) = seenUrls w) ->
  (forall w, trace (f w) = trace w) ->
  respects R (modify f).
Proof. intros H1 H2 w. apply R_inert; simpl; auto. Qed.

Lemma keeps_postsLoop (s : Section) (summaries : list PostSummary) (n : nat) :
  scope s -> respects R (postsLoop host backend s summaries n).
Proof.
  intros Hs. revert n. induction summaries as [|summary rest IH]; intros n w.
  - apply R_refl.
  - rewrite postsLoop_cons. unfold bind at 1. unfold gets at 1.
    destruct (sessionHealthy (health w)); simpl; [|apply R_refl].
    destruct (isValidPostUrl (Some (sm_url summary))) eqn:Hv; simpl; [|apply IH].
    set (u := normalizePostUrl host (sm_url summary) (baseUrl s)).
    unfold bind at 1. unfold gets at 1.
    destruct (bool_decide (u ∈ seenUrls w)) eqn:Hseen; [apply IH|].
    apply bool_decide_eq_false in Hseen.
    unfold bind at 1. unfold modify at 1. unfold bind at 1.
    destruct (attemptLoop_spec host backend s maxAttempts 1 u
                (setSeen (fun x => {[u]} ∪ x) w)) as [[detail Hd] Ha].
    destruct (attemptLoop host backend maxAttempts 1 s u
                (setSeen (fun x => {[u]} ∪ x) w)) as [o w2].
    simpl in Hd, Ha. subst o.
    pose proof (R_attempt s (sm_url summary) w w2 Hs Hv Hseen Ha) as Hr.
    unfold bind at 1. unfold gets at 1.
    destruct (sessionHealthy (health w2)); simpl; [|exact Hr].
    eapply R_trans; [exact Hr|].
    destruct detail as [d|].
    + apply (respects_bind R R_trans); [apply keeps_quiet, quiet_savePost|].
      intros _. apply IH.
    + apply (respects_bind R R_trans);
        [apply keeps_quiet, quiet_updateSectionStats|].
      intros _. apply (respects_bind R R_trans);
        [apply keeps_quiet, quiet_updateTotals|].
      intros _. apply IH.
Qed.

Ltac keeps_tac :=
  repeat first
    [ apply keeps_postsLoop; assumption
    | apply keeps_quiet; apply quiet_extractCategoryPage
    | apply keeps_quiet; apply quiet_debugExtract
    | apply keeps_quiet; apply quiet_updateSectionStats
    | apply keeps_quiet; apply quiet_updateTotals
    | apply keeps_quiet; apply quiet_readSectionStats
    | apply keeps_quiet; apply quiet_sleep
    | apply keeps_quiet; apply quiet_external; intros; discriminate
    | apply keeps_modify; reflexivity
    | apply respects_ret; apply R_refl
    | apply respects_throw; apply R_refl
    | apply respects_gets; apply R_refl
    | apply respects_swallow; [apply R_refl|apply R_trans|]
    | apply respects_bind; [apply R_trans| |intros ?]
    | apply respects_tryCatch; [apply R_trans| |intros ?]
    | progress cbv zeta
    | match goal with
      | |- respects _ (if ?b then _ else _) => destruct b
      | |- respects _ (match ?x with _ => _ end) => destruct x
      end ].

Lemma keeps_pageTry (s : Section) (pageNum : nat) (url : string) (tn : nat) :
  scope s ->
  respects R (tryCatch (pageBody host backend s pageNum url tn) (pageCatch s)).
Proof.
  intros Hs. unfold pageBody, pageCatch, setSectionStatus, setSessionHealthy.
  keeps_tac.
Qed.

Lemma keeps_pageLoop (s : Section) (remaining pageNum : nat)
      (cur : option string) (tn : nat) :
  scope s -> respects R (pageLoop host backend remaining pageNum s cur tn).
Proof.
  intros Hs. revert pageNum cur tn.
  induction remaining as [|remaining IH]; intros pageNum cur tn;
    [apply respects_ret, R_refl|].
  rewrite pageLoop_S. destruct cur as [url|]; [|apply respects_ret, R_refl].
  apply (respects_bind R R_trans); [apply respects_gets, R_refl|].
  intros healthy.
  destruct (negb (JsString.truthy url && healthy)); [apply respects_ret, R_refl|].
  apply (respects_bind R R_trans); [keeps_tac|]. intros _.
  apply (respects_bind R R_trans); [keeps_tac|]. intros _.
  apply (respects_bind R R_trans); [keeps_tac|]. intros _.
  apply (respects_bind R R_trans); [now apply keeps_pageTry|].
  intros [next tn'|]; [apply IH|apply respects_ret, R_refl].
Qed.

Lemma keeps_scrapeSection (s : Section) (maxPages : nat) :
  scope s -> respects R (scrapeSection host backend s maxPages).
Proof.
  intros Hs. unfold scrapeSection.
  apply (respects_bind R R_trans); [keeps_tac|]. intros _.
  apply (respects_bind R R_trans); [keeps_tac|]. intros _.
  apply (respects_bind R R_trans); [keeps_tac|]. intros _.
  now apply keeps_pageLoop.
Qed.

Lemma keeps_processSection (maxPages : nat) (s : Section) :
  scope s -> respects R (processSection host backend maxPages s).
Proof.
  intros Hs.
  unfold processSection, sectionTry, sectionCatch, sectionFinally,
    sectionCheckpoint, setSectionStatus, updateTotals.
  repeat first
    [ apply keeps_scrapeSection; assumption
    | apply keeps_quiet; apply quiet_readSectionStats
    | apply keeps_quiet; apply quiet_external; intros; discriminate
    | apply keeps_modify; reflexivity
    | apply respects_ret; apply R_refl
    | apply respects_throw; apply R_refl
    | apply respects_gets; apply R_refl
    | apply respects_swallow; [apply R_refl|apply R_trans|]
    | apply respects_bind; [apply R_trans| |intros ?]
    | apply respects_tryCatch; [apply R_trans| |intros ?]
    | progress cbv zeta
    | match goal with
      | |- respects _ (if ?b then _ else _) => destruct b
      | |- respects _ (match ?x with _ => _ end) => destruct x
      end ].
Qed.

Lemma keeps_runSections (maxPages : nat) (todo : list Section) (tn : nat) :
  Forall scope todo -> respects R (runSections host backend maxPages todo tn).
Proof.
  intros Hs. revert tn. induction Hs as [|s rest Hs Hrest IH]; intros tn; simpl.
  - apply respects_ret, R_refl.
  - apply (respects_bind R R_trans); [now apply keeps_processSection|].
    intros n. apply IH.
Qed.

End CrawlInduction.

Section OnceFacts.
Variable host : Host.
Variable backend : nat -> Response.

Lemma count_pos (p : Event -> bool) (d : list Event) :
  0 < count p d -> exists ev, ev ∈ d /\ p ev = true.
Proof.
  induction d as [|ev d IH]; [rewrite count_nil; lia|].
  rewrite count_cons. destruct (p ev) eqn:E.
  - intros _. exists ev. split; [left|exact E].
  - intros H. destruct (IH H) as (ev' & Hin & Hp).
    exists ev'. split; [now right|exact Hp].
Qed.

Lemma Once_inert (w w' : World) :
  seenUrls w' = seenUrls w -> trace w' = trace w -> Once w w'.
Proof.
  intros Hs Ht. split; [now rewrite Hs|].
  exists []. split; [unfold extends; now rewrite app_nil_r|].
  split; intros u; rewrite count_nil; [unfold maxAttempts|]; lia.
Qed.

Lemma Once_trans (w1 w2 w3 : World) : Once w1 w2 -> Once w2 w3 -> Once w1 w3.
Proof.
  intros [S1 (d1 & E1 & B1 & N1)] [S2 (d2 & E2 & B2 & N2)].
  split; [now transitivity (seenUrls w2)|].
  exists (d1 ++ d2)%list.
  split; [unfold extends in *; now rewrite E2, E1, app_assoc|].
  assert (Hx : forall u, count (extractsUrl u) d1 = 0
                         \/ count (extractsUrl u) d2 = 0).
  { intros u. destruct (count (extractsUrl u) d1) as [|k] eqn:C1; [now left|].
    destruct (count (extractsUrl u) d2) as [|k'] eqn:C2; [now right|].
    destruct (N1 u) as [_ Hin]; [lia|]. destruct (N2 u) as [Hout _]; [lia|].
    contradiction. }
  split; intros u; rewrite count_app.
  - specialize (B1 u). specialize (B2 u). destruct (Hx u); lia.
  - intros Hpos. destruct (Hx u) as [C1|C2].
    + destruct (N2 u) as [Hout Hin]; [lia|]. split; [|exact Hin].
      intros H. apply Hout, S1, H.
    + destruct (N1 u) as [Hout Hin]; [lia|]. split; [exact Hout|].
      apply S2, Hin.
Qed.

Lemma Quiet_Once (w w' : World) : Quiet w w' -> Once w w'.
Proof.
  intros [S1 _ _ _ _ (d & E & F)]. split; [now rewrite S1|].
  exists d. split; [exact E|].
  assert (Hz : forall u, count (extractsUrl u) d = 0).
  { intros u. apply count_none. eapply Forall_impl; [exact F|].
    intros ev [_ Hx]. unfold isExtractPost in Hx. unfold extractsUrl.
    destruct (ev_action ev) as [[]|]; try reflexivity; discriminate. }
  split; intros u; rewrite Hz; [unfold maxAttempts|]; lia.
Qed.

Lemma Attempted_Once (sl u : string) (w w2 : World) :
  u ∉ seenUrls w ->
  Attempted sl u maxAttempts (setSeen (fun x => {[u]} ∪ x) w) w2 ->
  Once w w2.
Proof.
  intros Hu [S1 _ _ _ (d & E & F & L) _ _ _]. simpl in *.
  split; [rewrite S1; apply union_subseteq_r|].
  exists d. split; [exact E|]. split.
  - intros u'. etransitivity; [|exact L].
    apply (count_le (extractsUrl u') isExtractPost).
    intros ev. unfold extractsUrl, isExtractPost.
    destruct (ev_action ev) as [[]|]; auto.
  - intros u' Hpos. apply count_pos in Hpos as (ev & Hin & Hp).
    rewrite Forall_forall in F. destruct (F ev Hin) as [_ [Ha|[ms Ha]]];
      unfold extractsUrl in Hp; rewrite Ha in Hp; [|discriminate].
    apply String.eqb_eq in Hp. subst u'. split; [exact Hu|].
    rewrite S1. apply elem_of_union_l, elem_of_singleton_2. reflexivity.
Qed.

Lemma Validated_inert (scope : Section -> Prop) (w w' : World) :
  seenUrls w' = seenUrls w -> trace w' = trace w -> Validated host scope w w'.
Proof.
  intros _ Ht. exists []. split; [|constructor].
  unfold extends. now rewrite app_nil_r.
Qed.

Lemma Validated_trans (scope : Section -> Prop) (w1 w2 w3 : World) :
  Validated host scope w1 w2 -> Validated host scope w2 w3 ->
  Validated host scope w1 w3.
Proof.
  intros (d1 & E1 & F1) (d2 & E2 & F2). exists (d1 ++ d2)%list. split.
  - unfold extends in *. now rewrite E2, E1, app_assoc.
  - apply Forall_app. now split.
Qed.

Lemma Quiet_Validated (scope : Section -> Prop) (w w' : World) :
  Quiet w w' -> Validated host scope w w'.
Proof.
  intros [_ _ _ _ _ (d & E & F)]. exists d. split; [exact E|].
  eapply Forall_impl; [exact F|]. intros ev [_ Hx] u sl Ha.
  unfold isExtractPost in Hx. rewrite Ha in Hx. discriminate.
Qed.

Lemma Attempted_Validated (scope : Section -> Prop) (s : Section)
      (link : string) (w w2 : World) :
  scope s ->
  isValidPostUrl (Some link) = true ->
  Attempted (slug s) (normalizePostUrl host link (baseUrl s)) maxAttempts
    (setSeen (fun x => {[ normalizePostUrl host link (baseUrl s) ]} ∪ x) w) w2 ->
  Validated host scope w w2.
Proof.
  intros Hs Hv [_ _ _ _ (d & E & F & _) _ _ _]. exists d. split; [exact E|].
  eapply Forall_impl; [exact F|]. intros ev [_ Ha] u sl Hact.
  destruct Ha as [Ha|[ms Ha]]; rewrite Ha in Hact; [|discriminate].
  injection Hact as <- <-. exists s, link. auto.
Qed.

End OnceFacts.

(** X15.  Over the whole run, and over the crawl of one section, no URL is handed
    to the detail extraction more than three times, and a URL that is handed
    to it was not in the set of seen URLs before and is in it afterwards.
    For the run that [main] starts: a URL the store already had is never
    extracted, and every other URL at most three times. *)
Theorem each_url_extracted_at_most_thrice
        (host : Host) (backend : nat -> Response) (maxPages : nat) :
  (forall s w, Once w (snd (scrapeSection host backend s maxPages w)))
  /\ (forall todo tn w, Once w (snd (runSections host backend maxPages todo tn w)))
  /\ (forall existing u,
         let w' := snd (mainCrawl host backend maxPages existing) in
         count (extractsUrl u) (trace w') <= 3
         /\ (0 < count (extractsUrl u) (trace w') ->
             (u ∉ existing) /\ (u ∈ seenUrls w'))).
Proof.
  assert (Hrun : forall todo tn w,
             Once w (snd (runSections host backend maxPages todo tn w))).
  { intros todo tn.
    apply (keeps_runSections host backend Once (fun _ => True));
      [exact Once_trans|exact Once_inert|exact Quiet_Once| |].
    - intros s link w w2 _ _. apply Attempted_Once.
    - apply Forall_true. auto. }
  split; [|split; [exact Hrun|]].
  - intros s.
    apply (keeps_scrapeSection host backend Once (fun _ => True));
      [exact Once_trans|exact Once_inert|exact Quiet_Once| |exact I].
    intros s' link w w2 _ _. apply Attempted_Once.
  - intros existing u w'. subst w'. unfold mainCrawl.
    destruct (Hrun SECTIONS 0 (initialWorld existing)) as [_ (d & E & B & N)].
    unfold extends in E.
    change (trace (initialWorld existing) ++ d)%list with d in E. rewrite E.
    split; [apply B|]. intros Hpos. apply (N u Hpos).
Qed.

(** X16.  Every detail extraction of the run is for a link that the post
    validator accepted, made absolute against the base URL of one of the
    configured sections, and it carries the slug of that section; within the
    crawl of one section, of that section. *)
Theorem only_valid_links_extracted
        (host : Host) (backend : nat -> Response) (maxPages : nat) :
  (forall s w,
      Validated host (fun s' => s' = s) w
        (snd (scrapeSection host backend s maxPages w)))
  /\ (forall existing,
         Forall (fromValidLink host (fun s => In s SECTIONS))
           (trace (snd (mainCrawl host backend maxPages existing)))).
Proof.
  split.
  - intros s.
    apply (keeps_scrapeSection host backend
             (Validated host (fun s' => s' = s)) (fun s' => s' = s));
      [apply Validated_trans|apply Validated_inert|apply Quiet_Validated
      | |reflexivity].
    intros s' link w w2 Hs Hv _. now apply Attempted_Validated.
  - intros existing. unfold mainCrawl.
    assert (Hall : Forall (fun s => In s SECTIONS) SECTIONS).
    { unfold SECTIONS. repeat constructor; simpl; tauto. }
    destruct (keeps_runSections host backend
                (Validated host (fun s => In s SECTIONS))
                (fun s => In s SECTIONS)
                (Validated_trans host _) (Validated_inert host _)
                (Quiet_Validated host _)
                (fun s link w w2 Hs Hv _ =>
                   Attempted_Validated host _ s link w w2 Hs Hv)
                maxPages SECTIONS 0 Hall (initialWorld existing))
      as (d & E & F).
    unfold extends in E.
    change (trace (initialWorld existing) ++ d)%list with d in E.
    now rewrite E.
Qed.

(* ===================================================================== *)
(** * How a section and the run end                                      *)
(* ===================================================================== *)

Section SettledFacts.
Variable host : Host.
Variable backend : nat -> Response.

Lemma Settled_inert (w w' : World) :
  dom (sections (runReport w')) = dom (sections (runReport w)) ->
  sectionStatus (runReport w') = sectionStatus (runReport w) ->
  Settled w w'.
Proof. intros Hd Hs. split; [exact Hd|now rewrite Hs..]. Qed.

Lemma Settled_refl (w : World) : Settled w w.
Proof. now apply Settled_inert. Qed.

Lemma Settled_trans (w1 w2 w3 : World) :
  Settled w1 w2 -> Settled w2 w3 -> Settled w1 w3.
Proof. intros [D1 S1 K1] [D2 S2 K2]. split; [congruence|auto..]. Qed.

Local Abbreviation settled := (respects Settled).

Lemma settled_quiet {A} (m : M A) : respects Quiet m -> settled m.
Proof.
  intros H w. destruct (H w) as [_ _ Hs Hd _ _]. now apply Settled_inert.
Qed.

Lemma settled_external (c : Call) : settled (external backend c).
Proof.
  intros w. unfold external.
  destruct (backend (tick w)); now apply Settled_inert.
Qed.

Lemma settled_modify (f : World -> World) :
  (forall w, runReport (f w) = runReport w) -> settled (modify f).
Proof. intros H w. simpl. apply Settled_inert; now rewrite H. Qed.

Lemma settled_setSectionStatus (sl : string) (st : SectionStatus) :
  st <> Pending -> settled (setSectionStatus sl st).
Proof.
  intros Hst w. split; simpl; [reflexivity| |]; intros x.
  - destruct (decide (x = sl)) as [->|Hne].
    + rewrite lookup_insert_eq. congruence.
    + now rewrite lookup_insert_ne.
  - destruct (decide (x = sl)) as [->|Hne].
    + rewrite lookup_insert_eq. eauto.
    + now rewrite lookup_insert_ne.
Qed.

Ltac settled_tac :=
  repeat first
    [ apply settled_external
    | apply settled_setSectionStatus; discriminate
    | apply settled_quiet; apply quiet_sleep
    | apply settled_quiet; apply quiet_updateTotals
    | apply settled_quiet; apply quiet_countError
    | apply settled_quiet; apply quiet_updateSectionStats
    | apply settled_quiet; apply quiet_readSectionStats
    | apply settled_modify; reflexivity
    | apply respects_ret; apply Settled_refl
    | apply respects_throw; apply Settled_refl
    | apply respects_gets; apply Settled_refl
    | apply respects_swallow; [apply Settled_refl|apply Settled_trans|]
    | apply respects_bind; [apply Settled_trans| |intros ?]
    | apply respects_tryCatch; [apply Settled_trans| |intros ?]
    | progress cbv zeta
    | match goal with
      | |- respects _ (if ?b then _ else _) => destruct b
      | |- respects _ (match ?x with _ => _ end) => destruct x
      end ].

Lemma settled_attemptLoop (s : Section) (remaining attempt : nat) (u : string) :
  settled (attemptLoop host backend remaining attempt s u).
Proof.
  revert attempt. induction remaining as [|remaining IH]; intros attempt.
  - apply respects_ret, Settled_refl.
  - rewrite attemptLoop_S.
    apply respects_bind; [apply Settled_trans| |].
    + unfold attemptBody, extractPostDetail, attemptCatch,
        setConsecutiveSessionErrors, setSessionHealthy.
      settled_tac.
    + intros [detail|]; [apply respects_ret, Settled_refl|apply IH].
Qed.

Lemma settled_postsLoop (s : Section) (summaries : list PostSummary) (n : nat) :
  settled (postsLoop host backend s summaries n).
Proof.
  revert n. induction summaries as [|summary rest IH]; intros n.
  - apply respects_ret, Settled_refl.
  - rewrite postsLoop_cons. unfold savePost.
    repeat first
      [ apply IH
      | apply settled_attemptLoop
      | apply settled_external
      | apply settled_quiet; apply quiet_updateTotals
      | apply settled_quiet; apply quiet_updateSectionStats
      | apply settled_modify; reflexivity
      | apply respects_ret; apply Settled_refl
      | apply respects_gets; apply Settled_refl
      | apply respects_bind; [apply Settled_trans| |intros ?]
      | progress cbv zeta
      | match goal with
        | |- respects _ (if ?b then _ else _) => destruct b
        | |- respects _ (match ?x with _ => _ end) => destruct x
        end ].
Qed.

Lemma settled_pageTry (s : Section) (pageNum : nat) (url : string) (tn : nat) :
  settled (tryCatch (pageBody host backend s pageNum url tn) (pageCatch s)).
Proof.
  unfold pageBody, pageCatch, extractCategoryPage, debugExtract,
    setSessionHealthy.
  repeat first
    [ apply settled_postsLoop
    | apply settled_external
    | apply settled_setSectionStatus; discriminate
    | apply settled_quiet; apply quiet_updateTotals
    | apply settled_quiet; apply quiet_updateSectionStats
    | apply settled_modify; reflexivity
    | apply respects_ret; apply Settled_refl
    | apply respects_swallow; [apply Settled_refl|apply Settled_trans|]
    | apply respects_bind; [apply Settled_trans| |intros ?]
    | apply respects_tryCatch; [apply Settled_trans| |intros ?]
    | match goal with
      | |- respects _ (if ?b then _ else _) => destruct b
      end ].
Qed.

Lemma settled_pageLoop (s : Section) (remaining pageNum : nat)
      (cur : option string) (tn : nat) :
  settled (pageLoop host backend remaining pageNum s cur tn).
Proof.
  revert pageNum cur tn.
  induction remaining as [|remaining IH]; intros pageNum cur tn;
    [apply respects_ret, Settled_refl|].
  rewrite pageLoop_S. destruct cur as [url|]; [|apply respects_ret, Settled_refl].
  apply respects_bind; [apply Settled_trans|apply respects_gets, Settled_refl|].
  intros healthy.
  destruct (negb (JsString.truthy url && healthy));
    [apply respects_ret, Settled_refl|].
  apply respects_bind; [apply Settled_trans|settled_tac|]. intros _.
  apply respects_bind; [apply Settled_trans|settled_tac|]. intros _.
  apply respects_bind; [apply Settled_trans|settled_tac|]. intros _.
  apply respects_bind; [apply Settled_trans|apply settled_pageTry|].
  intros [next tn'|]; [apply IH|apply respects_ret, Settled_refl].
Qed.

Lemma settled_scrapeSection (s : Section) (maxPages : nat) :
  settled (scrapeSection host backend s maxPages).
Proof.
  unfold scrapeSection.
  apply respects_bind; [apply Settled_trans|settled_tac|]. intros _.
  apply respects_bind; [apply Settled_trans|settled_tac|]. intros _.
  apply respects_bind; [apply Settled_trans|settled_tac|]. intros _.
  apply settled_pageLoop.
Qed.

Lemma settled_sectionTry (s : Section) (maxPages : nat) :
  settled (tryCatch (sectionTry host backend maxPages s) (sectionCatch s)).
Proof.
  unfold sectionTry, sectionCatch.
  repeat first
    [ apply settled_scrapeSection
    | apply settled_external
    | apply settled_setSectionStatus; discriminate
    | apply respects_ret; apply Settled_refl
    | apply respects_throw; apply Settled_refl
    | apply respects_gets; apply Settled_refl
    | apply respects_bind; [apply Settled_trans| |intros ?]
    | apply respects_tryCatch; [apply Settled_trans| |intros ?]
    | match goal with
      | |- respects _ (if ?b then _ else _) => destruct b
      end ].
Qed.

Lemma settled_processSection (s : Section) (maxPages : nat) :
  settled (processSection host backend maxPages s).
Proof.
  unfold processSection.
  apply respects_bind; [apply Settled_trans|settled_tac|]. intros _.
  apply respects_bind; [apply Settled_trans|settled_tac|]. intros _.
  apply respects_bind; [apply Settled_trans|apply settled_sectionTry|].
  intros k.
  apply respects_bind;
    [apply Settled_trans|apply settled_quiet, quiet_sectionFinally|].
  intros _.
  apply respects_bind;
    [apply Settled_trans|apply settled_quiet, quiet_sectionCheckpoint|].
  intros _. apply respects_ret, Settled_refl.
Qed.

Lemma settled_runSections (maxPages : nat) (todo : list Section) (tn : nat) :
  settled (runSections host backend maxPages todo tn).
Proof.
  revert tn. induction todo as [|s rest IH]; intros tn; simpl.
  - apply respects_ret, Settled_refl.
  - apply respects_bind; [apply Settled_trans|apply settled_processSection|].
    intros n. apply IH.
Qed.

Lemma Settled_entry (sl : string) (w w' : World) :
  Settled w w' ->
  is_Some (sections (runReport w) !! sl) ->
  is_Some (sections (runReport w') !! sl).
Proof.
  intros [Hd _ _] H. apply elem_of_dom. rewrite Hd. now apply elem_of_dom.
Qed.

(** The [try] block of a section with its [catch] block: it returns, and
    the section is not pending afterwards. *)
Lemma sectionTry_not_pending (s : Section) (maxPages : nat) (w : World) :
  (exists k, fst (tryCatch (sectionTry host backend maxPages s)
                           (sectionCatch s) w) = Returned k)
  /\ sectionStatus
       (runReport (snd (tryCatch (sectionTry host backend maxPages s)
                                 (sectionCatch s) w))) !! slug s
     <> Some Pending.
Proof.
  assert (Hmark : forall (st : SectionStatus) (k : nat) (w1 : World),
             st <> Pending ->
             let r := (x <- gets (fun w => sectionStatus (runReport w) !! slug s) ;;
                       (if isPending x then setSectionStatus (slug s) st
                        else ret tt) ;; ret k) w1 in
             fst r = Returned k
             /\ sectionStatus (runReport (snd r)) !! slug s <> Some Pending).
  { intros st k w1 Hst. unfold bind, gets. simpl.
    destruct (sectionStatus (runReport w1) !! slug s) as [[| |]|] eqn:E; simpl;
      rewrite ?lookup_insert_eq, ?E; split; congruence. }
  unfold tryCatch.
  destruct (sectionTry host backend maxPages s w) as [[n|e] w2] eqn:E.
  - unfold sectionTry in E.
    apply bind_Returned in E as (v1 & w0 & _ & E).
    apply bind_Returned in E as (page & w1 & _ & E).
    destruct (negb (Js.truthy page)); [discriminate E|].
    apply bind_Returned in E as (k & w3 & _ & E).
    destruct (Hmark SectionComplete k w3) as [H1 H2]; [discriminate|].
    cbv zeta in H1, H2. rewrite E in H1, H2. simpl in *. split; [eauto|exact H2].
  - destruct (Hmark SessionFailed 0 w2) as [H1 H2]; [discriminate|].
    unfold sectionCatch. split; [eauto|exact H2].
Qed.

Lemma sectionFinally_returns (w : World) :
  fst (sectionFinally backend w) = Returned tt.
Proof.
  unfold sectionFinally, bind.
  pose proof (swallow_returns (_ <- external backend CMetrics ;;
                               _ <- external backend CHistory ;; ret tt) w) as H.
  destruct (swallow _ w) as [o w1]. simpl in H. subst o.
  apply swallow_returns.
Qed.

Lemma sectionCheckpoint_returns (s : Section) (w : World) :
  is_Some (sections (runReport w) !! slug s) ->
  fst (sectionCheckpoint backend s w) = Returned tt.
Proof.
  intros [st Hst]. unfold sectionCheckpoint, bind at 1, readSectionStats.
  rewrite Hst. unfold bind.
  match goal with
  | |- context [swallow ?m w] =>
      pose proof (swallow_returns m w) as H; destruct (swallow m w) as [o w1]
  end.
  simpl in H. subst o. apply swallow_returns.
Qed.

(** One pass of the section loop of [main] throws when the construction of
    the Stagehand client throws, and then only; otherwise it returns, and
    leaves the section marked complete or failed. *)
Lemma processSection_outcome (s : Section) (maxPages : nat) (w : World) :
  is_Some (sections (runReport w) !! slug s) ->
  match backend (tick w) with
  | Rejects e =>
      processSection host backend maxPages s w
      = (Thrown e,
         advance (record (Called CNewStagehand)
                    (setReport (setTotals addSectionsVisitedT) w)))
  | Resolves _ =>
      (exists n, fst (processSection host backend maxPages s w) = Returned n)
      /\ sectionStatus
           (runReport (snd (processSection host backend maxPages s w))) !! slug s
         <> Some Pending
  end.
Proof.
  intros Hin. destruct (backend (tick w)) as [v|e] eqn:B.
  2:{ unfold processSection. unfold bind at 1. unfold updateTotals, modify.
      unfold bind at 1. unfold external. simpl tick. now rewrite B. }
  destruct (processSection host backend maxPages s w) as [o w'] eqn:E.
  simpl. unfold processSection in E.
  unfold bind at 1 in E. unfold updateTotals, modify in E.
  set (w0 := setReport (setTotals addSectionsVisitedT) w) in E.
  unfold bind at 1 in E. unfold external at 1 in E.
  change (tick w0) with (tick w) in E. rewrite B in E.
  set (w1 := advance (record (Called CNewStagehand) w0)) in E.
  assert (Hin1 : is_Some (sections (runReport w1) !! slug s)) by exact Hin.
  unfold bind at 1 in E.
  destruct (sectionTry_not_pending s maxPages w1) as [[k Hk] Hnp].
  pose proof (settled_sectionTry s maxPages w1) as Hs.
  destruct (tryCatch (sectionTry host backend maxPages s) (sectionCatch s) w1)
    as [o2 w2]. simpl in Hk, Hnp, Hs. subst o2.
  unfold bind at 1 in E.
  pose proof (sectionFinally_returns w2) as Hf.
  pose proof (quiet_sectionFinally backend w2) as Hq.
  destruct (sectionFinally backend w2) as [o3 w3]. simpl in Hf, Hq. subst o3.
  assert (Hin3 : is_Some (sections (runReport w3) !! slug s)).
  { apply (Settled_entry _ w2); [|now apply (Settled_entry _ w1)].
    destruct Hq as [_ _ Hst Hd _ _]. now apply Settled_inert. }
  unfold bind in E.
  pose proof (sectionCheckpoint_returns s w3 Hin3) as Hc.
  pose proof (quiet_sectionCheckpoint backend s w3) as Hq2.
  destruct (sectionCheckpoint backend s w3) as [o4 w4]. simpl in Hc, Hq2.
  subst o4. injection E as <- <-. split; [eauto|].
  rewrite (q_status _ _ Hq2), (q_status _ _ Hq). exact Hnp.
Qed.

End SettledFacts.

Section RunEnd.
Variable host : Host.
Variable backend : nat -> Response.

Lemma entries_kept (todo : list Section) (w w' : World) :
  Settled w w' ->
  Forall (fun s => is_Some (sections (runReport w) !! slug s)) todo ->
  Forall (fun s => is_Some (sections (runReport w') !! slug s)) todo.
Proof.
  intros Hs H. eapply Forall_impl; [exact H|].
  intros s. now apply Settled_entry.
Qed.

Lemma runSections_thrown (maxPages : nat) (todo : list Section) (tn : nat)
      (w w' : World) (e : JsError) :
  Forall (fun s => is_Some (sections (runReport w) !! slug s)) todo ->
  runSections host backend maxPages todo tn w = (Thrown e, w') ->
  backend (pred (tick w')) = Rejects e
  /\ exists h, last (trace w') = Some (constructorEvent h).
Proof.
  revert tn w. induction todo as [|s rest IH]; intros tn w Hin E;
    [discriminate E|].
  apply Forall_cons in Hin as [Hs Hrest].
  simpl in E. unfold bind in E.
  pose proof (processSection_outcome host backend s maxPages w Hs) as Ho.
  pose proof (settled_processSection host backend s maxPages w) as Hk.
  destruct (backend (tick w)) as [v|e0] eqn:B.
  - destruct Ho as [[n Hn] _].
    destruct (processSection host backend maxPages s w) as [o w1].
    simpl in Hn, Hk. subst o.
    apply (IH (tn + n) w1); [|exact E]. now apply (entries_kept rest w).
  - rewrite Ho in E. injection E as <- <-. simpl. split; [exact B|].
    eexists. apply last_snoc.
Qed.

Lemma runSections_returned (maxPages : nat) (todo : list Section) (tn n : nat)
      (w w' : World) :
  Forall (fun s => is_Some (sections (runReport w) !! slug s)) todo ->
  runSections host backend maxPages todo tn w = (Returned n, w') ->
  Forall (fun s => sectionStatus (runReport w') !! slug s <> Some Pending) todo.
Proof.
  revert tn w. induction todo as [|s rest IH]; intros tn w Hin E;
    [constructor|].
  apply Forall_cons in Hin as [Hs Hrest].
  simpl in E. unfold bind in E.
  pose proof (processSection_outcome host backend s maxPages w Hs) as Ho.
  pose proof (settled_processSection host backend s maxPages w) as Hk.
  destruct (backend (tick w)) as [v|e0] eqn:B.
  - destruct Ho as [[k Hn] Hnp].
    destruct (processSection host backend maxPages s w) as [o w1].
    simpl in Hn, Hk, Hnp. subst o.
    apply Forall_cons. split.
    + pose proof (settled_runSections host backend maxPages rest (tn + k) w1)
        as Hr. rewrite E in Hr. simpl in Hr.
      intros H. apply Hnp. now apply (se_status _ _ Hr).
    + apply (IH (tn + k) w1); [|exact E]. now apply (entries_kept rest w).
  - rewrite Ho in E. discriminate E.
Qed.

Lemma initial_entries (existing : gset string) :
  Forall (fun s => is_Some (sections (runReport (initialWorld existing)) !! slug s)
                   /\ is_Some (sectionStatus (runReport (initialWorld existing))
                                 !! slug s))
         SECTIONS.
Proof.
  unfold SECTIONS. repeat (apply Forall_cons; split); [..|apply Forall_nil_2];
    vm_compute; eauto.
Qed.

End RunEnd.

(** X17.  The section loop of [main] is aborted by one thing only: the
    construction of a Stagehand client that throws.  When the loop throws,
    the last action of the trace is that construction, and the value thrown
    is the one it threw; no failure inside a section (a backend that does
    not start, a crawl that breaks, telemetry that cannot be written) ends
    the run. *)
Theorem run_aborted_by_constructor_only
        (host : Host) (backend : nat -> Response) (maxPages : nat)
        (existing : gset string) (e : JsError) :
  fst (mainCrawl host backend maxPages existing) = Thrown e ->
  let w' := snd (mainCrawl host backend maxPages existing) in
  backend (pred (tick w')) = Rejects e
  /\ exists h, last (trace w') = Some (constructorEvent h).
Proof.
  intros H w'. subst w'. unfold mainCrawl in *.
  destruct (runSections host backend maxPages SECTIONS 0 (initialWorld existing))
    as [o w'] eqn:E.
  simpl in H. subst o.
  apply (runSections_thrown host backend maxPages SECTIONS 0
           (initialWorld existing)); [|exact E].
  eapply Forall_impl; [apply (initial_entries existing)|]. now intros s [Hs _].
Qed.

Lemma run_aborted_witness :
  let down := fun _ : nat => Rejects sessionError in
  fst (mainCrawl refHost down 10 ∅) = Thrown sessionError
  /\ tick (snd (mainCrawl refHost down 10 ∅)) = 1
  /\ exists h, last (trace (snd (mainCrawl refHost down 10 ∅)))
               = Some (constructorEvent h).
Proof.
  intros down.
  assert (H : fst (mainCrawl refHost down 10 ∅) = Thrown sessionError)
    by reflexivity.
  split; [exact H|]. split; [reflexivity|].
  exact (proj2 (run_aborted_by_constructor_only refHost down 10 ∅ sessionError H)).
Defined.

(** X18.  When the section loop of [main] runs to its end, no configured section
    is left pending: each is marked complete or failed. *)
Theorem no_section_left_pending
        (host : Host) (backend : nat -> Response) (maxPages : nat)
        (existing : gset string) (n : nat) :
  fst (mainCrawl host backend maxPages existing) = Returned n ->
  let w' := snd (mainCrawl host backend maxPages existing) in
  forall s, In s SECTIONS ->
    sectionStatus (runReport w') !! slug s = Some SectionComplete
    \/ sectionStatus (runReport w') !! slug s = Some SessionFailed.
Proof.
  intros H w' s Hs. subst w'. unfold mainCrawl in *.
  pose proof (settled_runSections host backend maxPages SECTIONS 0
                (initialWorld existing)) as Hk.
  destruct (runSections host backend maxPages SECTIONS 0 (initialWorld existing))
    as [o w'] eqn:E.
  simpl in H, Hk |- *. subst o.
  pose proof (initial_entries existing) as Hinit.
  assert (Hnp : Forall (fun s => sectionStatus (runReport w') !! slug s
                                 <> Some Pending) SECTIONS).
  { apply (runSections_returned host backend maxPages SECTIONS 0 n
             (initialWorld existing)); [|exact E].
    eapply Forall_impl; [exact Hinit|]. now intros x [Hx _]. }
  rewrite Forall_forall in Hnp, Hinit.
  apply list_elem_of_In in Hs.
  specialize (Hnp s Hs). destruct (Hinit s Hs) as [_ Hsome].
  apply (se_keep _ _ Hk) in Hsome as [[| |] Hst]; auto. contradiction.
Qed.

Lemma no_section_left_pending_witness :
  fst (mainCrawl refHost quietBackend 10 {[ oldPost ]}) = Returned 0
  /\ sectionStatus (runReport (snd (mainCrawl refHost quietBackend 10 {[ oldPost ]})))
       !! "dr-quiet" <> Some Pending.
Proof.
  assert (H : fst (mainCrawl refHost quietBackend 10 {[ oldPost ]}) = Returned 0)
    by (vm_compute; reflexivity).
  split; [exact H|].
  destruct (no_section_left_pending refHost quietBackend 10 {[ oldPost ]} 0 H
              {| name := "Dr. Quiet"; slug := "dr-quiet";
                 baseUrl := "https://www.paulcheksblog.com/category/quiet/" |})
    as [E|E]; [simpl; tauto| |]; simpl in E; rewrite E; discriminate.
Defined.

(* ===================================================================== *)
(** * Failures inside a section                                          *)
(* ===================================================================== *)

(** X19.  The diagnostic extraction of a page without summaries: whatever the
    environment answers, it returns, it issues one to three calls (the
    extraction, the directory, the file; it stops at the first that fails),
    and it leaves the set, the monitor and the run report as they were. *)
Theorem debug_extraction_is_harmless
        (backend : nat -> Response) (s : Section) (url : string)
        (pageNum : nat) (w : World) :
  let r := debugExtract backend s url pageNum w in
  let h := sessionHealthy (health w) in
  fst r = Returned tt
  /\ seenUrls (snd r) = seenUrls w
  /\ health (snd r) = health w
  /\ runReport (snd r) = runReport w
  /\ exists k, 1 <= k <= 3
               /\ tick (snd r) = tick w + k
               /\ trace (snd r)
                  = (trace w ++ take k [ callEvent h (CExtractDebug url);
                                         callEvent h CEnsureDir;
                                         callEvent h (CWriteDebugFile (slug s) pageNum) ])%list.
Proof.
  intros r h. subst r h.
  unfold debugExtract, swallow, tryCatch, bind, external. simpl.
  destruct (backend (tick w)); simpl;
    [destruct (backend (S (tick w))); simpl;
     [destruct (backend (S (S (tick w)))); simpl|]|];
    (split; [reflexivity|]); (split; [reflexivity|]);
    (split; [reflexivity|]); (split; [reflexivity|]).
  1,2: exists 3. 3: exists 2. 4: exists 1.
  all: split; [lia|]; split; [lia|]; unfold callEvent; simpl;
    rewrite <- ?app_assoc; reflexivity.
Qed.

(** X20.  A listing extraction that fails on the first page of a section: the
    crawl of the section ends there with no new post, after one page opened,
    one pause and one listing extraction, and nothing is retried.  The page
    is counted as visited.  When the failure is a session error the section
    is marked failed and the flag drops; for any other failure the status and
    the flag stay as they were, so that [main] goes on to mark the section
    complete. *)
Theorem listing_failure_ends_section
        (host : Host) (backend : nat -> Response) (s : Section)
        (maxPages : nat) (w : World) (st : SectionRunStats)
        (v : JSValue) (e : JsError) :
  sections (runReport w) !! slug s = Some st ->
  JsString.truthy (baseUrl s) = true ->
  1 <= maxPages ->
  backend (tick w) = Resolves v ->
  backend (S (tick w)) = Rejects e ->
  let r := scrapeSection host backend s maxPages w in
  fst r = Returned 0
  /\ trace (snd r)
     = (trace w ++ [ callEvent true (CNewPage (baseUrl s));
                     {| ev_healthy := true; ev_action := Slept 3000 |};
                     callEvent true (CExtractCategory (name s) (baseUrl s)) ])%list
  /\ seenUrls (snd r) = seenUrls w
  /\ sessionHealthy (health (snd r)) = negb (isStagehandSessionError e)
  /\ sectionStatus (runReport (snd r))
     = (if isStagehandSessionError e
        then <[slug s := SessionFailed]> (sectionStatus (runReport w))
        else sectionStatus (runReport w))
  /\ sections (runReport (snd r)) !! slug s = Some (addPagesVisited st).
Proof.
  intros Hst Hbase Hmax B1 B2 r. subst r.
  destruct maxPages as [|m]; [lia|].
  destruct (scrapeSection host backend s (S m) w) as [o w'] eqn:E.
  unfold scrapeSection in E.
  unfold bind at 1 in E. unfold modify at 1 in E.
  unfold bind at 1 in E. unfold external at 1 in E. simpl tick in E.
  rewrite B1 in E.
  unfold bind at 1 in E. unfold sleep, modify at 1 in E.
  rewrite pageLoop_S in E.
  unfold bind at 1 in E. unfold gets at 1 in E. rewrite Hbase in E.
  simpl in E. change (1 <? 1) with false in E. cbv iota in E.
  unfold bind at 1 in E. unfold ret at 1 in E.
  rewrite (totals_then_stats s st) in E by exact Hst.
  unfold bind at 1 in E. unfold tryCatch at 1 in E.
  unfold pageBody in E. unfold bind at 1 in E.
  rewrite extractCategoryPage_run in E. simpl tick in E. rewrite B2 in E.
  unfold pageCatch, bind, setSectionStatus, setSessionHealthy, modify, ret in E.
  destruct (isStagehandSessionError e); simpl in E; injection E as <- <-;
    simpl; rewrite <- ?app_assoc, ?lookup_insert_eq; simpl; repeat split.
Qed.

Lemma listing_failure_witness :
  let crash := {| isErrorObject := true; errName := "TypeError";
                  errMessage := "fetch failed" |} in
  let backend := fun n : nat => match n with
                                | 1 => Rejects crash
                                | _ => Resolves JNull
                                end in
  let r := scrapeSection refHost backend dietSection 10 start in
  isStagehandSessionError crash = false
  /\ fst r = Returned 0
  /\ sessionHealthy (health (snd r)) = true
  /\ sectionStatus (runReport (snd r)) !! "dr-diet" = Some Pending.
Proof.
  intros crash backend r.
  destruct (listing_failure_ends_section refHost backend dietSection 10 start
              zeroStats JNull crash eq_refl eq_refl
              (le_S _ _ (le_S _ _ (le_S _ _ (le_S _ _ (le_S _ _ (le_S _ _
                 (le_S _ _ (le_S _ _ (le_S _ _ (le_n 1))))))))))
              eq_refl eq_refl)
    as (H1 & _ & _ & H4 & H5 & _).
  split; [reflexivity|]. split; [exact H1|]. split; [exact H4|].
  fold r in H5. rewrite H5. reflexivity.
Defined.

(** X21.  A store that rejects a record ends the crawl of the section: on the
    first page, when the upsert of the first new post throws, the page loop
    returns at once with the count it had.  The listing was extracted, the
    post was extracted, the upsert was tried, and nothing follows: no
    Markdown file, none of the remaining summaries, no later page.  The URL
    stays in the set of seen URLs, and the post is counted neither as saved
    nor as failed. *)
Theorem store_failure_ends_section
        (host : Host) (backend : nat -> Response) (s : Section)
        (remaining tn : nat) (url : string) (w : World) (st : SectionRunStats)
        (raw v : JSValue) (e : JsError)
        (summary : PostSummary) (rest : list PostSummary) :
  sections (runReport w) !! slug s = Some st ->
  sessionHealthy (health w) = true ->
  JsString.truthy url = true ->
  backend (tick w) = Resolves raw ->
  posts (normalizeCategoryPage raw) = summary :: rest ->
  isValidPostUrl (Some (sm_url summary)) = true ->
  normalizePostUrl host (sm_url summary) (baseUrl s) ∉ seenUrls w ->
  backend (S (tick w)) = Resolves v ->
  backend (S (S (tick w))) = Rejects e ->
  let u := normalizePostUrl host (sm_url summary) (baseUrl s) in
  let r := pageLoop host backend (S remaining) 1 s (Some url) tn w in
  fst r = Returned tn
  /\ (exists record,
         trace (snd r)
         = (trace w ++ [ callEvent true (CExtractCategory (name s) url);
                         callEvent true (CExtractPost u (slug s));
                         callEvent true (CUpsertPost record) ])%list)
  /\ seenUrls (snd r) = {[ u ]} ∪ seenUrls w
  /\ sections (runReport (snd r)) !! slug s
     = Some (addPostsDiscovered (S (length rest)) (addPagesVisited st))
  /\ sessionHealthy (health (snd r)) = negb (isStagehandSessionError e).
Proof.
  intros Hst Hh Hurl B1 Hposts Hv Hu B2 B3 u r. subst r.
  destruct (pageLoop host backend (S remaining) 1 s (Some url) tn w)
    as [o w'] eqn:E.
  rewrite pageLoop_S in E.
  unfold bind at 1 in E. unfold gets at 1 in E. rewrite Hurl, Hh in E.
  simpl in E. change (1 <? 1) with false in E. cbv iota in E.
  unfold bind at 1 in E. unfold ret at 1 in E.
  rewrite (totals_then_stats s st) in E by exact Hst.
  unfold bind at 1 in E. unfold tryCatch at 1 in E.
  unfold pageBody in E. unfold bind at 1 in E.
  rewrite extractCategoryPage_run in E. simpl tick in E. rewrite B1 in E.
  rewrite Hposts in E.
  change (length (summary :: rest) =? 0) with false in E. cbv iota in E.
  unfold bind at 1 in E. unfold ret at 1 in E.
  match type of E with
  | context [bind (updateSectionStats _ _) _ ?w0] =>
      rewrite (stats_then_totals s (addPagesVisited st) _ _ _ w0) in E
        by (simpl; apply lookup_insert_eq)
  end.
  unfold bind at 1 in E.
  match type of E with
  | context [postsLoop host backend s (summary :: rest) 0 ?w0] =>
      rewrite (postsLoop_new_url host backend s summary rest 0 w0 Hh Hv Hu) in E;
      unfold maxAttempts in E;
      rewrite (attemptLoop_success host backend s _ 1 _ _ v) in E by exact B2
  end.
  simpl sessionHealthy in E. rewrite Hh in E.
  unfold normalizePostDetail in E.
  unfold bind at 1 in E. unfold savePost in E. cbv zeta in E.
  unfold bind at 1 in E. unfold external at 1 in E. simpl tick in E.
  rewrite B3 in E.
  unfold pageCatch, bind, setSectionStatus, setSessionHealthy, modify, ret in E.
  fold u in E.
  destruct (isStagehandSessionError e); simpl in E; injection E as <- <-;
    simpl; rewrite Hh, <- ?app_assoc; simpl;
    rewrite ?lookup_insert_eq, ?insert_insert_eq; simpl;
    (split; [reflexivity|]); (split; [eexists; reflexivity|]);
    (split; [reflexivity|]); (split; [reflexivity|reflexivity]).
Qed.

Lemma store_failure_witness :
  let crash := {| isErrorObject := true; errName := "Error";
                  errMessage := "connection refused" |} in
  let backend := fun n : nat => match n with
                                | 1 => Resolves pageOne
                                | 2 => Resolves newPostDetail
                                | 3 => Rejects crash
                                | _ => Resolves JNull
                                end in
  let w := setSeen (fun _ => ∅) atFirstPage in
  let r := pageLoop refHost backend 10 1 dietSection
             (Some (baseUrl dietSection)) 0 w in
  backend (S (S (tick w))) = Rejects crash
  /\ fst r = Returned 0
  /\ seenUrls (snd r) = {[ oldPost ]} ∪ ∅
  /\ sections (runReport (snd r)) !! "dr-diet"
     = Some {| pagesVisited := 1; postsDiscovered := 2;
               postsSaved := 0; postsFailed := 0 |}.
Proof.
  intros crash backend w r.
  destruct (store_failure_ends_section refHost backend dietSection 9 0
              (baseUrl dietSection) w zeroStats pageOne newPostDetail crash
              {| sm_url := "/old-post/"; sm_title := "A post"; sm_date := None;
                 sm_categories := None; sm_tags := None |}
              [ {| sm_url := "/new-post/"; sm_title := "A post"; sm_date := None;
                   sm_categories := None; sm_tags := None |} ]
              eq_refl eq_refl eq_refl eq_refl eq_refl eq_refl
              (not_elem_of_empty _) eq_refl eq_refl)
    as (H1 & _ & H3 & H4 & _).
  split; [reflexivity|]. split; [exact H1|]. split; [exact H3|exact H4].
Defined.

(* ===================================================================== *)
(** * Accounting for the detail extractions                              *)
(* ===================================================================== *)

Section HistogramFacts.

Lemma histogramSum_insert (e : gmap string ErrorTally) (key : string)
      (v : ErrorTally) :
  histogramSum (<[key := v]> e) + from_option tallyValue 0 (e !! key)
  = histogramSum e + tallyValue v.
Proof.
  unfold histogramSum.
  set (f := fun (_ : string) (v : ErrorTally) (acc : nat) => tallyValue v + acc).
  assert (Hf : forall (m : gmap string ErrorTally) (j1 j2 : string)
                      (z1 z2 : ErrorTally) (y : nat),
             j1 <> j2 -> m !! j1 = Some z1 -> m !! j2 = Some z2 ->
             f j1 z1 (f j2 z2 y) = f j2 z2 (f j1 z1 y)).
  { intros. unfold f. lia. }
  destruct (e !! key) as [x|] eqn:E; simpl.
  - rewrite <- (insert_delete_eq e key v).
    rewrite (map_fold_insert_L f 0 key v (delete key e)
               (Hf _) (lookup_delete_eq e key)).
    rewrite (map_fold_delete_L f 0 key x e (Hf _) E). unfold f. lia.
  - rewrite (map_fold_insert_L f 0 key v e (Hf _) E). unfold f. lia.
Qed.

(** Counting an error never takes the sum down, and takes it up by one at
    most. *)
Lemma histogramSum_bumpError (key : string) (e : gmap string ErrorTally) :
  histogramSum e <= histogramSum (bumpError key e) <= histogramSum e + 1.
Proof.
  unfold bumpError. destruct (e !! key) as [[n|text]|] eqn:E.
  - pose proof (histogramSum_insert e key (Counted (n + 1))) as H.
    rewrite E in H. cbn [from_option tallyValue] in H. lia.
  - pose proof (histogramSum_insert e key (Garbled (text ++ "1"))) as H.
    rewrite E in H. cbn [from_option tallyValue] in H. lia.
  - destruct (String.eqb key "__proto__"); [lia|].
    destruct (isObjectPrototypeKey key).
    + pose proof (histogramSum_insert e key
                    (Garbled (nativeFunctionText key ++ "1"))) as H.
      rewrite E in H. cbn [from_option tallyValue] in H. lia.
    + pose proof (histogramSum_insert e key (Counted 1)) as H.
      rewrite E in H. cbn [from_option tallyValue] in H. lia.
Qed.

(** Under a name that [Object.prototype] does not hold, in a histogram of
    counts, the error is counted. *)
Lemma histogramSum_bumpError_plain (key : string) (e : gmap string ErrorTally) :
  isObjectPrototypeKey key = false ->
  (forall k v, e !! k = Some v -> exists n, v = Counted n) ->
  histogramSum (bumpError key e) = histogramSum e + 1
  /\ (forall k v, bumpError key e !! k = Some v -> exists n, v = Counted n).
Proof.
  intros Hk He.
  assert (Hp : String.eqb key "__proto__" = false).
  { destruct (String.eqb_spec key "__proto__") as [->|]; [discriminate Hk|auto]. }
  assert (Hins : forall n k v,
             <[key := Counted n]> e !! k = Some v -> exists n', v = Counted n').
  { intros n k v. destruct (decide (k = key)) as [->|Hne].
    - rewrite lookup_insert_eq. intros [= <-]. eauto.
    - rewrite lookup_insert_ne by congruence. apply He. }
  unfold bumpError. destruct (e !! key) as [[n|text]|] eqn:E.
  - pose proof (histogramSum_insert e key (Counted (n + 1))) as H.
    rewrite E in H. cbn [from_option tallyValue] in H. split; [lia|apply Hins].
  - destruct (He key _ E) as [n Hn]. discriminate Hn.
  - rewrite Hp, Hk.
    pose proof (histogramSum_insert e key (Counted 1)) as H.
    rewrite E in H. cbn [from_option tallyValue] in H. split; [lia|apply Hins].
Qed.

(** What the histogram makes of three names, from the empty object: an
    error name is counted; [__proto__] leaves no trace; the name of a method
    leaves a text, which the next error of that name makes longer. *)
Lemma bumpError_examples :
  bumpError "Error" (bumpError "Error" ∅) = {[ "Error" := Counted 2 ]}
  /\ bumpError "__proto__" ∅ = ∅
  /\ bumpError "toString" ∅
     = {[ "toString" := Garbled "function toString() { [native code] }1" ]}
  /\ bumpError "constructor" (bumpError "constructor" ∅)
     = {[ "constructor" := Garbled "function Object() { [native code] }11" ]}.
Proof.
  unfold bumpError. rewrite !lookup_empty. simpl.
  rewrite !lookup_insert_eq, !insert_insert_eq. repeat split.
Qed.

End HistogramFacts.

Section ChargedFacts.
Variable host : Host.
Variable backend : nat -> Response.

Local Abbreviation plain := (plainErrorNames backend).

Lemma Uncharged_inert (w w' : World) :
  errors (runReport w') = errors (runReport w) ->
  t_postsFailed (totals (runReport w')) = t_postsFailed (totals (runReport w)) ->
  trace w' = trace w ->
  Uncharged w w'.
Proof.
  intros He Hf Ht. split; [exact He|exact Hf|].
  exists []. split; [|constructor]. unfold extends. now rewrite app_nil_r.
Qed.

Lemma Uncharged_refl (w : World) : Uncharged w w.
Proof. now apply Uncharged_inert. Qed.

Lemma Uncharged_trans (w1 w2 w3 : World) :
  Uncharged w1 w2 -> Uncharged w2 w3 -> Uncharged w1 w3.
Proof.
  intros [S1 T1 (d1 & E1 & F1)] [S2 T2 (d2 & E2 & F2)].
  split; [congruence|congruence|].
  exists (d1 ++ d2)%list. split.
  - unfold extends in *. now rewrite E2, E1, app_assoc.
  - apply Forall_app. now split.
Qed.

Local Abbreviation uncharged := (respects Uncharged).

Lemma uncharged_external (c : Call) :
  isExtractPost {| ev_healthy := true; ev_action := Called c |} = false ->
  isUpsert {| ev_healthy := true; ev_action := Called c |} = false ->
  uncharged (external backend c).
Proof.
  intros H1 H2 w. unfold external.
  assert (Uncharged w (advance (record (Called c) w))) as H.
  { split; [reflexivity|reflexivity|]. eexists. split; [reflexivity|].
    constructor; [|constructor]. auto. }
  destruct (backend (tick w)); exact H.
Qed.

Lemma uncharged_sleep (ms : nat) : uncharged (sleep ms).
Proof.
  intros w. split; [reflexivity|reflexivity|]. eexists. split; [reflexivity|].
  constructor; [|constructor]. auto.
Qed.

Lemma uncharged_modify (f : World -> World) :
  (forall w, errors (runReport (f w)) = errors (runReport w)) ->
  (forall w, t_postsFailed (totals (runReport (f w)))
             = t_postsFailed (totals (runReport w))) ->
  (forall w, trace (f w) = trace w) ->
  uncharged (modify f).
Proof. intros H1 H2 H3 w. apply Uncharged_inert; simpl; auto. Qed.

Lemma uncharged_updateSectionStats (sl : string)
      (f : SectionRunStats -> SectionRunStats) :
  uncharged (updateSectionStats sl f).
Proof.
  intros w. unfold updateSectionStats.
  destruct (sections (runReport w) !! sl); now apply Uncharged_inert.
Qed.

Lemma uncharged_readSectionStats (sl : string) : uncharged (readSectionStats sl).
Proof.
  intros w. unfold readSectionStats.
  destruct (sections (runReport w) !! sl); apply Uncharged_refl.
Qed.

Ltac uncharged_tac :=
  repeat first
    [ apply uncharged_sleep
    | apply uncharged_external; reflexivity
    | apply uncharged_updateSectionStats
    | apply uncharged_readSectionStats
    | apply uncharged_modify; reflexivity
    | apply respects_ret; apply Uncharged_refl
    | apply respects_throw; apply Uncharged_refl
    | apply respects_gets; apply Uncharged_refl
    | apply respects_swallow; [apply Uncharged_refl|apply Uncharged_trans|]
    | apply respects_bind; [apply Uncharged_trans| |intros ?]
    | apply respects_tryCatch; [apply Uncharged_trans| |intros ?]
    | progress cbv zeta
    | match goal with
      | |- respects _ (if ?b then _ else _) => destruct b
      | |- respects _ (match ?x with _ => _ end) => destruct x
      end ].

(** What follows the counting of a failed attempt: the counter of
    consecutive session errors, the flag, the section status and a back-off
    move; the histogram does not. *)
Lemma uncharged_afterError (attempt : nat) (s : Section) (isSessionError : bool) :
  uncharged
    (bailedOut <-
       (if isSessionError && (attempt =? maxAttempts) then
          c <- gets (fun w => consecutiveSessionErrors (health w)) ;;
          setConsecutiveSessionErrors (c + 1) ;;
          if SESSION_ERROR_POST_THRESHOLD <=? c + 1 then
            setSectionStatus (slug s) SessionFailed ;;
            setSessionHealthy false ;;
            ret true
          else ret false
        else ret false) ;;
     if (bailedOut : bool) then ret (AttemptBreak None)
     else if negb isSessionError || (attempt =? maxAttempts)
     then ret (AttemptBreak None)
     else sleep (attempt * 1000) ;; ret AttemptRetry).
Proof.
  unfold setConsecutiveSessionErrors, setSectionStatus, setSessionHealthy.
  uncharged_tac.
Qed.

Lemma Uncharged_count (w w' : World) :
  Uncharged w w' ->
  errors (runReport w') = errors (runReport w)
  /\ t_postsFailed (totals (runReport w')) = t_postsFailed (totals (runReport w))
  /\ exists d, extends w w' d
               /\ count isExtractPost d = 0 /\ count isUpsert d = 0.
Proof.
  intros [He Hf (d & E & F)]. split; [exact He|].
  split; [exact Hf|]. exists d. split; [exact E|].
  split; apply count_none; (eapply Forall_impl; [exact F|]); now intros ev [? ?].
Qed.

Lemma allCounted_same (w w' : World) :
  errors (runReport w') = errors (runReport w) -> allCounted w -> allCounted w'.
Proof. unfold allCounted. now intros ->. Qed.

Lemma errorTotal_same (w w' : World) :
  errors (runReport w') = errors (runReport w) -> errorTotal w' = errorTotal w.
Proof. unfold errorTotal. now intros ->. Qed.

Lemma Uncharged_Charged (P : Prop) (w w' : World) :
  Uncharged w w' -> Charged P w w'.
Proof.
  intros H. destruct (Uncharged_count w w' H) as (He & Hf & d & E & Hx & Hu).
  pose proof (errorTotal_same w w' He) as Ht.
  split; [lia| |intros; lia|intros _; now apply allCounted_same].
  exists d. split; [exact E|]. split; [lia|intros; lia].
Qed.

Lemma Charged_refl (P : Prop) (w : World) : Charged P w w.
Proof. apply Uncharged_Charged, Uncharged_refl. Qed.

Lemma Charged_trans (P : Prop) (w1 w2 w3 : World) :
  Charged P w1 w2 -> Charged P w2 w3 -> Charged P w1 w3.
Proof.
  intros [M1 (d1 & E1 & L1 & C1) F1 K1] [M2 (d2 & E2 & L2 & C2) F2 K2].
  split; [lia| | |auto].
  - exists (d1 ++ d2)%list. rewrite !count_app.
    split; [unfold extends in *; now rewrite E2, E1, app_assoc|].
    split; [lia|]. intros HP H1.
    specialize (C1 HP H1). specialize (C2 HP (K1 HP H1)). lia.
  - intros HP H1. specialize (F1 HP H1). specialize (F2 HP (K1 HP H1)). lia.
Qed.

Local Abbreviation charged := (respects (Charged plain)).

Lemma charged_uncharged {A} (m : M A) : uncharged m -> charged m.
Proof. intros H w. apply Uncharged_Charged, H. Qed.

(** Counting the error of a failed attempt. *)
Lemma countError_total (e : JsError) (w : World) :
  let w' := snd (countError (errorTypeOf e (isStagehandSessionError e)) w) in
  errorTotal w <= errorTotal w' <= errorTotal w + 1
  /\ (isObjectPrototypeKey (errorTypeOf e (isStagehandSessionError e)) = false ->
      allCounted w ->
      errorTotal w' = errorTotal w + 1 /\ allCounted w').
Proof.
  unfold countError, modify, errorTotal, allCounted. simpl.
  split; [apply histogramSum_bumpError|].
  intros Hk Hc. now apply histogramSum_bumpError_plain.
Qed.

(** One attempt: a detail extraction, which either gives the detail, with
    the flag and the histogram as they were, or is counted in the
    histogram. *)
Lemma charged_attemptBody (attempt : nat) (s : Section) (u : string)
      (w w' : World) (o : Outcome AttemptResult) :
  attemptBody host backend attempt s u w = (o, w') ->
  exists d,
    extends w w' d
    /\ count isExtractPost d = 1
    /\ count isUpsert d = 0
    /\ t_postsFailed (totals (runReport w')) = t_postsFailed (totals (runReport w))
    /\ match o with
       | Returned (AttemptBreak (Some _)) =>
           errors (runReport w') = errors (runReport w)
           /\ sessionHealthy (health w') = sessionHealthy (health w)
       | _ =>
           errorTotal w <= errorTotal w' <= errorTotal w + 1
           /\ (plain -> allCounted w ->
               errorTotal w' = errorTotal w + 1 /\ allCounted w')
       end.
Proof.
  intros E. unfold attemptBody, tryCatch, extractPostDetail in E.
  unfold bind at 1 2 in E. unfold external in E.
  destruct (backend (tick w)) as [v|e] eqn:B; simpl in E.
  - injection E as <- <-. simpl.
    exists [ {| ev_healthy := sessionHealthy (health w);
                ev_action := Called (CExtractPost u (slug s)) |} ].
    repeat split.
  - unfold attemptCatch in E. cbv zeta in E. unfold bind at 1 in E.
    set (w1 := advance (record (Called (CExtractPost u (slug s))) w)) in E.
    pose proof (countError_total e w1) as H1. cbv zeta in H1.
    destruct (countError (errorTypeOf e (isStagehandSessionError e)) w1)
      as [o1 w2] eqn:E1.
    assert (o1 = Returned tt) as -> by (now injection E1).
    assert (Hw2 : trace w2 = trace w1
                  /\ t_postsFailed (totals (runReport w2))
                     = t_postsFailed (totals (runReport w1)))
      by (injection E1 as <-; split; reflexivity).
    destruct Hw2 as [T2 F2]. simpl in H1.
    change (errorTotal w1) with (errorTotal w) in H1.
    change (allCounted w1) with (allCounted w) in H1.
    destruct H1 as [Hle Hex].
    pose proof (uncharged_afterError attempt s (isStagehandSessionError e) w2) as H.
    apply Uncharged_count in H. rewrite E in H. simpl in H.
    destruct H as (He & Hf & d & Hd & Hx & Hu).
    exists ({| ev_healthy := sessionHealthy (health w);
               ev_action := Called (CExtractPost u (slug s)) |} :: d).
    split; [unfold extends in *; rewrite Hd, T2; simpl;
            now rewrite <- app_assoc|].
    rewrite !count_cons, Hx, Hu. simpl.
    split; [reflexivity|]. split; [reflexivity|].
    split; [rewrite Hf, F2; reflexivity|].
    assert (Het : errorTotal w <= errorTotal w' <= errorTotal w + 1
                  /\ (plain -> allCounted w ->
                      errorTotal w' = errorTotal w + 1 /\ allCounted w')).
    { rewrite (errorTotal_same w2 w' He). split; [exact Hle|].
      intros HP Hc. destruct (Hex (HP _ _ B) Hc) as [H1 H2].
      split; [exact H1|now apply (allCounted_same w2)]. }
    destruct o as [[[d0|]|]|e0]; auto.
    exfalso. clear - E. unfold bind, gets, setConsecutiveSessionErrors,
      setSectionStatus, setSessionHealthy, modify, sleep, ret in E.
    destruct (isStagehandSessionError e && (attempt =? maxAttempts));
      simpl in E;
      repeat match type of E with
             | context [if ?b then _ else _] => destruct b; simpl in E
             end; discriminate E.
Qed.

(** The retry loop: every attempt but a successful last one may be counted
    in the histogram, and is when the names are plain; after a success the
    flag is as it was. *)
Lemma charged_attemptLoop (remaining attempt : nat) (s : Section) (u : string)
      (w w' : World) (o : Outcome (option PostDetail)) :
  attemptLoop host backend remaining attempt s u w = (o, w') ->
  let won := match o with Returned (Some _) => 1 | _ => 0 end in
  exists d,
    extends w w' d
    /\ count isUpsert d = 0
    /\ t_postsFailed (totals (runReport w')) = t_postsFailed (totals (runReport w))
    /\ (0 < remaining -> 0 < count isExtractPost d)
    /\ errorTotal w <= errorTotal w'
    /\ errorTotal w' + won <= count isExtractPost d + errorTotal w
    /\ (plain -> allCounted w ->
        count isExtractPost d + errorTotal w = errorTotal w' + won
        /\ allCounted w')
    /\ (won = 1 -> sessionHealthy (health w') = sessionHealthy (health w)).
Proof.
  revert attempt w w' o.
  induction remaining as [|remaining IH]; intros attempt w w' o E won.
  { injection E as <- <-. exists []. rewrite !count_nil. subst won.
    split; [unfold extends; now rewrite app_nil_r|].
    repeat (split; [first [reflexivity|lia|auto]|]). discriminate. }
  rewrite attemptLoop_S in E. unfold bind at 1 in E.
  destruct (attemptBody host backend attempt s u w) as [o1 w1] eqn:E1.
  destruct (charged_attemptBody attempt s u w w1 o1 E1)
    as (d1 & X1 & C1 & U1 & F1 & H1).
  destruct o1 as [[detail|]|e1].
  - injection E as <- <-. exists d1. subst won.
    split; [exact X1|]. split; [exact U1|]. split; [exact F1|].
    split; [lia|]. destruct detail as [d0|].
    + destruct H1 as [He Hh]. pose proof (errorTotal_same w w1 He) as Ht.
      split; [lia|]. split; [lia|]. split; [|auto].
      intros _ Hc. split; [lia|now apply (allCounted_same w)].
    + destruct H1 as [Hle Hex]. split; [lia|]. split; [lia|].
      split; [|discriminate]. intros HP Hc. destruct (Hex HP Hc). split; [lia|auto].
  - destruct H1 as [Hle Hex].
    destruct (IH (S attempt) w1 w' o E)
      as (d2 & X2 & U2 & F2 & _ & M2 & L2 & P2 & W2).
    fold won in L2, P2, W2.
    exists (d1 ++ d2)%list. rewrite !count_app.
    split; [unfold extends in *; now rewrite X2, X1, app_assoc|].
    split; [lia|]. split; [congruence|]. split; [lia|].
    split; [lia|]. split; [lia|]. split.
    + intros HP Hc. destruct (Hex HP Hc) as [Q1 Q2].
      destruct (P2 HP Q2) as [Q3 Q4]. split; [lia|exact Q4].
    + intros Hw. rewrite (W2 Hw).
      destruct (attemptBody_spec host backend s attempt u w) as (r & Hr & _ & Hh).
      rewrite E1 in Hr, Hh. simpl in Hr, Hh. injection Hr as <-.
      destruct (Hh eq_refl) as [Hh' _]. now rewrite Hh'.
  - injection E as <- <-. exists d1. subst won. destruct H1 as [Hle Hex].
    split; [exact X1|]. split; [exact U1|]. split; [exact F1|].
    split; [lia|]. split; [lia|]. split; [lia|]. split; [|discriminate].
    intros HP Hc. destruct (Hex HP Hc). split; [lia|auto].
Qed.

(** Saving a post issues the upsert that accounts for its extraction. *)
Lemma charged_savePost (s : Section) (d : PostDetail) (w w' : World)
      (o : Outcome unit) :
  savePost host backend s d w = (o, w') ->
  exists dd,
    extends w w' dd
    /\ count isExtractPost dd = 0
    /\ count isUpsert dd = 1
    /\ errors (runReport w') = errors (runReport w)
    /\ t_postsFailed (totals (runReport w')) = t_postsFailed (totals (runReport w)).
Proof.
  intros E. unfold savePost in E. cbv zeta in E.
  unfold bind, external, updateSectionStats, updateTotals, modify in E.
  destruct (backend (tick w)) as [v1|e1]; simpl in E.
  - destruct (backend (S (tick w))) as [v2|e2]; simpl in E.
    + destruct (sections (runReport w) !! slug s); injection E as <- <-;
        (eexists; split;
         [unfold extends; simpl; rewrite <- app_assoc; reflexivity|]);
        repeat split.
    + injection E as <- <-.
      eexists. split; [unfold extends; simpl; rewrite <- app_assoc; reflexivity|].
      repeat split.
  - injection E as <- <-.
    eexists. split; [unfold extends; simpl; reflexivity|]. repeat split.
Qed.

(** The loop over the summaries of a page: each extraction is followed by
    the upsert of the post or, the names being plain, counted in the
    histogram, and a post is counted as failed only after an error was
    counted. *)
Lemma charged_postsLoop (s : Section) (summaries : list PostSummary) (n : nat) :
  charged (postsLoop host backend s summaries n).
Proof.
  revert n. induction summaries as [|summary rest IH]; intros n w;
    [apply Charged_refl|].
  rewrite postsLoop_cons. unfold bind at 1. unfold gets at 1.
  destruct (sessionHealthy (health w)) eqn:Hh; simpl; [|apply Charged_refl].
  destruct (isValidPostUrl (Some (sm_url summary))); simpl; [|apply IH].
  set (u := normalizePostUrl host (sm_url summary) (baseUrl s)).
  unfold bind at 1. unfold gets at 1.
  destruct (bool_decide (u ∈ seenUrls w)); [apply IH|].
  unfold bind at 1. unfold modify at 1. unfold bind at 1.
  set (w1 := setSeen (fun x => {[u]} ∪ x) w).
  destruct (attemptLoop host backend maxAttempts 1 s u w1) as [o2 w2] eqn:E2.
  destruct (charged_attemptLoop maxAttempts 1 s u w1 w2 o2 E2)
    as (d2 & X2 & U2 & F2 & P2 & M2 & L2 & Q2 & W2).
  specialize (P2 ltac:(unfold maxAttempts; lia)).
  change (errorTotal w1) with (errorTotal w) in M2, L2, Q2.
  change (allCounted w1) with (allCounted w) in Q2.
  unfold extends in X2. change (trace w1) with (trace w) in X2.
  change (t_postsFailed (totals (runReport w1)))
    with (t_postsFailed (totals (runReport w))) in F2.
  change (sessionHealthy (health w1)) with (sessionHealthy (health w)) in W2.
  assert (Hend : match o2 with Returned (Some _) => False | _ => True end ->
                 Charged plain w w2).
  { intros Ho.
    assert (Hw : match o2 with Returned (Some _) => 1 | _ => 0 end = 0)
      by (destruct o2 as [[?|]|?]; [contradiction|reflexivity..]).
    rewrite Hw in L2, Q2.
    split; [lia| |intros HP Hc; destruct (Q2 HP Hc); lia
           |intros HP Hc; now destruct (Q2 HP Hc)].
    exists d2. split; [exact X2|]. split; [lia|].
    intros HP Hc. destruct (Q2 HP Hc). lia. }
  destruct o2 as [detail|e2]; simpl; [|now apply Hend].
  unfold bind at 1. unfold gets at 1.
  destruct detail as [d|].
  - rewrite (W2 eq_refl), Hh. simpl.
    unfold bind at 1.
    destruct (savePost host backend s d w2) as [o3 w3] eqn:E3.
    destruct (charged_savePost s d w2 w3 o3 E3) as (d3 & X3 & C3 & U3 & T3 & F3).
    pose proof (errorTotal_same w2 w3 T3) as T3'.
    assert (H13 : Charged plain w w3).
    { split; [lia| |intros HP Hc; destruct (Q2 HP Hc); lia
             |intros HP Hc; destruct (Q2 HP Hc);
              now apply (allCounted_same w2)].
      exists (d2 ++ d3)%list. rewrite !count_app.
      split; [unfold extends in *; now rewrite X3, X2, app_assoc|].
      split; [lia|]. intros HP Hc. destruct (Q2 HP Hc). lia. }
    destruct o3 as [[]|e3]; simpl; [|exact H13].
    eapply Charged_trans; [exact H13|apply IH].
  - specialize (Hend I).
    destruct (sessionHealthy (health w2)); simpl; [|exact Hend].
    assert (H12 : forall w3,
               errors (runReport w3) = errors (runReport w2) ->
               trace w3 = trace w2 ->
               t_postsFailed (totals (runReport w3))
               <= t_postsFailed (totals (runReport w2)) + 1 ->
               Charged plain w w3).
    { intros w3 He Ht Hf. pose proof (errorTotal_same w2 w3 He) as He'.
      simpl in L2, Q2.
      split; [lia| |intros HP Hc; destruct (Q2 HP Hc); lia
             |intros HP Hc; destruct (Q2 HP Hc);
              now apply (allCounted_same w2)].
      exists d2. split; [unfold extends; congruence|]. split; [lia|].
      intros HP Hc. destruct (Q2 HP Hc). lia. }
    unfold bind at 1. unfold updateSectionStats at 1.
    destruct (sections (runReport w2) !! slug s) as [st|]; simpl;
      [|apply H12; auto; lia].
    unfold bind at 1. unfold updateTotals at 1. unfold modify at 1.
    eapply Charged_trans; [|apply IH].
    apply H12; simpl; auto; lia.
Qed.

Ltac charged_tac :=
  repeat first
    [ apply charged_postsLoop
    | apply charged_uncharged; apply uncharged_sleep
    | apply charged_uncharged; apply uncharged_external; reflexivity
    | apply charged_uncharged; apply uncharged_updateSectionStats
    | apply charged_uncharged; apply uncharged_readSectionStats
    | apply charged_uncharged; apply uncharged_modify; reflexivity
    | apply respects_ret; apply Charged_refl
    | apply respects_throw; apply Charged_refl
    | apply respects_gets; apply Charged_refl
    | apply respects_swallow; [apply Charged_refl|apply Charged_trans|]
    | apply respects_bind; [apply Charged_trans| |intros ?]
    | apply respects_tryCatch; [apply Charged_trans| |intros ?]
    | progress cbv zeta
    | match goal with
      | |- respects _ (if ?b then _ else _) => destruct b
      | |- respects _ (match ?x with _ => _ end) => destruct x
      end ].

Lemma charged_pageTry (s : Section) (pageNum : nat) (url : string) (tn : nat) :
  charged (tryCatch (pageBody host backend s pageNum url tn) (pageCatch s)).
Proof.
  unfold pageBody, pageCatch, extractCategoryPage, debugExtract,
    updateTotals, setSectionStatus, setSessionHealthy.
  charged_tac.
Qed.

Lemma charged_pageLoop (s : Section) (remaining pageNum : nat)
      (cur : option string) (tn : nat) :
  charged (pageLoop host backend remaining pageNum s cur tn).
Proof.
  revert pageNum cur tn.
  induction remaining as [|remaining IH]; intros pageNum cur tn;
    [apply respects_ret, Charged_refl|].
  rewrite pageLoop_S. destruct cur as [url|]; [|apply respects_ret, Charged_refl].
  apply respects_bind; [apply Charged_trans|apply respects_gets, Charged_refl|].
  intros healthy.
  destruct (negb (JsString.truthy url && healthy));
    [apply respects_ret, Charged_refl|].
  unfold updateTotals.
  repeat first
    [ apply IH
    | apply charged_pageTry
    | apply charged_uncharged; apply uncharged_sleep
    | apply charged_uncharged; apply uncharged_external; reflexivity
    | apply charged_uncharged; apply uncharged_updateSectionStats
    | apply charged_uncharged; apply uncharged_modify; reflexivity
    | apply respects_ret; apply Charged_refl
    | apply respects_bind; [apply Charged_trans| |intros ?]
    | match goal with
      | |- respects _ (if ?b then _ else _) => destruct b
      | |- respects _ (match ?x with _ => _ end) => destruct x
      end ].
Qed.

Lemma charged_scrapeSection (s : Section) (maxPages : nat) :
  charged (scrapeSection host backend s maxPages).
Proof.
  unfold scrapeSection.
  repeat first
    [ apply charged_pageLoop
    | apply charged_uncharged; apply uncharged_sleep
    | apply charged_uncharged; apply uncharged_external; reflexivity
    | apply charged_uncharged; apply uncharged_modify; reflexivity
    | apply respects_bind; [apply Charged_trans| |intros ?] ].
Qed.

Lemma charged_processSection (s : Section) (maxPages : nat) :
  charged (processSection host backend maxPages s).
Proof.
  unfold processSection, sectionTry, sectionCatch, sectionFinally,
    sectionCheckpoint, updateTotals, setSectionStatus.
  repeat first
    [ apply charged_scrapeSection
    | apply charged_uncharged; apply uncharged_external; reflexivity
    | apply charged_uncharged; apply uncharged_readSectionStats
    | apply charged_uncharged; apply uncharged_modify; reflexivity
    | apply respects_ret; apply Charged_refl
    | apply respects_throw; apply Charged_refl
    | apply respects_gets; apply Charged_refl
    | apply respects_swallow; [apply Charged_refl|apply Charged_trans|]
    | apply respects_bind; [apply Charged_trans| |intros ?]
    | apply respects_tryCatch; [apply Charged_trans| |intros ?]
    | progress cbv zeta
    | match goal with
      | |- respects _ (if ?b then _ else _) => destruct b
      | |- respects _ (match ?x with _ => _ end) => destruct x
      end ].
Qed.

Lemma charged_runSections (maxPages : nat) (todo : list Section) (tn : nat) :
  charged (runSections host backend maxPages todo tn).
Proof.
  revert tn. induction todo as [|s rest IH]; intros tn;
    [apply respects_ret, Charged_refl|].
  simpl. apply respects_bind;
    [apply Charged_trans|apply charged_processSection|intros n; apply IH].
Qed.

Lemma allCounted_initial (existing : gset string) :
  allCounted (initialWorld existing).
Proof.
  intros key v H.
  change ((∅ : gmap string ErrorTally) !! key = Some v) in H.
  rewrite lookup_empty in H. discriminate H.
Qed.

End ChargedFacts.

(** X22.  The error histogram and the detail extractions.  Whatever the
    errors are named, over the crawl of a section from any state and over
    the whole run, the sum of the counts of the histogram never goes down,
    and it grows by no more than the detail extractions that no upsert
    followed: the histogram never counts an error that did not happen.
    When no error that the environment throws gets a name that
    [Object.prototype] holds, every detail extraction is accounted for: over
    the crawl of a section that starts with a histogram of counts, and over
    the whole run, the number of detail extractions issued is the growth of
    the histogram plus the number of upserts issued, the histogram still
    holds counts only, and it grew by at least the number of posts counted
    as failed. *)
Theorem extractions_are_accounted_for
        (host : Host) (backend : nat -> Response) (maxPages : nat) :
  (forall s w,
      let w' := snd (scrapeSection host backend s maxPages w) in
      errorTotal w <= errorTotal w'
      /\ exists d, extends w w' d
                   /\ errorTotal w' + count isUpsert d
                      <= count isExtractPost d + errorTotal w)
  /\ (forall existing,
         let w' := snd (mainCrawl host backend maxPages existing) in
         errorTotal w' + count isUpsert (trace w')
         <= count isExtractPost (trace w'))
  /\ (plainErrorNames backend ->
      (forall s w,
          allCounted w ->
          let w' := snd (scrapeSection host backend s maxPages w) in
          allCounted w'
          /\ t_postsFailed (totals (runReport w')) + errorTotal w
             <= t_postsFailed (totals (runReport w)) + errorTotal w'
          /\ exists d, extends w w' d
                       /\ count isExtractPost d + errorTotal w
                          = errorTotal w' + count isUpsert d)
      /\ (forall existing,
             let w' := snd (mainCrawl host backend maxPages existing) in
             allCounted w'
             /\ t_postsFailed (totals (runReport w')) <= errorTotal w'
             /\ count isExtractPost (trace w')
                = errorTotal w' + count isUpsert (trace w'))).
Proof.
  assert (Hrun : forall existing,
             Charged (plainErrorNames backend) (initialWorld existing)
               (snd (mainCrawl host backend maxPages existing))).
  { intros existing. apply charged_runSections. }
  assert (E0 : forall existing, errorTotal (initialWorld existing) = 0)
    by reflexivity.
  assert (F0 : forall existing,
             t_postsFailed (totals (runReport (initialWorld existing))) = 0)
    by reflexivity.
  split; [|split; [|intros HP; split]].
  - intros s w w'.
    destruct (charged_scrapeSection host backend s maxPages w)
      as [Hm (d & Hd & Hl & _) _ _].
    split; [exact Hm|]. exists d. split; [exact Hd|exact Hl].
  - intros existing w'. destruct (Hrun existing) as [_ (d & Hd & Hl & _) _ _].
    fold w' in Hd, Hl. unfold extends in Hd.
    change (trace (initialWorld existing) ++ d)%list with d in Hd.
    rewrite Hd, (E0 existing) in *. lia.
  - intros s w Hc w'.
    destruct (charged_scrapeSection host backend s maxPages w)
      as [_ (d & Hd & _ & Hx) Hf Hk].
    split; [exact (Hk HP Hc)|]. split; [exact (Hf HP Hc)|].
    exists d. split; [exact Hd|exact (Hx HP Hc)].
  - intros existing w'.
    destruct (Hrun existing) as [_ (d & Hd & _ & Hx) Hf Hk].
    pose proof (allCounted_initial existing) as Hc.
    fold w' in Hd, Hx, Hf, Hk. unfold extends in Hd.
    change (trace (initialWorld existing) ++ d)%list with d in Hd.
    specialize (Hx HP Hc). specialize (Hf HP Hc).
    rewrite (E0 existing) in *. rewrite (F0 existing) in Hf.
    split; [exact (Hk HP Hc)|]. split; [lia|]. rewrite Hd. lia.
Qed.

(** The run of [deadBackend]: nine attempts, nine session errors counted
    under one name, no upsert, two posts counted as failed. *)
Lemma extractions_accounted_witness :
  plainErrorNames deadBackend
  /\ allCounted start
  /\ (let w' := snd (scrapeSection refHost deadBackend dietSection 1 start) in
      errors (runReport w') = {[ "StagehandServerError" := Counted 9 ]}
      /\ t_postsFailed (totals (runReport w')) = 2
      /\ allCounted w'
      /\ t_postsFailed (totals (runReport w')) + errorTotal start
         <= t_postsFailed (totals (runReport start)) + errorTotal w'
      /\ exists d, extends start w' d
                   /\ count isExtractPost d + errorTotal start
                      = errorTotal w' + count isUpsert d).
Proof.
  assert (Hp : plainErrorNames deadBackend).
  { intros t e H. destruct t as [|[|t]]; try discriminate H.
    injection H as <-. reflexivity. }
  assert (Hc : allCounted start) by apply allCounted_initial.
  split; [exact Hp|]. split; [exact Hc|].
  split; [vm_compute; reflexivity|]. split; [vm_compute; reflexivity|].
  exact (proj1 (proj2 (proj2
           (extractions_are_accounted_for refHost deadBackend 1)) Hp)
           dietSection start Hc).
Defined.
(* ===================================================================== *)
(** * The rules of the date normaliser                                   *)
(* ===================================================================== *)

Section DateRules.
Variable host : Host.










End DateRules.


